(** * FastPitch data pipeline: alignment priors, example loading, batch collation

    A shallow embedding of [fastpitch/data_function.py]
    (classes [BetaBinomialInterpolator], [TTSDataset], [TTSCollate] and the
    function [beta_binomial_prior_distribution]) together with the properties
    of these definitions.

    Conventions of the embedding.
    - Python integers are [Z]; sizes and indices of tensors are [nat].
    - A one-dimensional integer tensor is a [list Z].  Floating-point tensors
      hold exact rationals ([Q]): every finite float is a rational, and the
      rounding of floating-point arithmetic is not part of the model.  The
      one conversion between float types that the code makes on the way,
      of the float64 priors to the float32 batch tensor, is [Float32.round].
    - A two-dimensional tensor is the list of its rows.  The pitch, whose
      number of dimensions the code inspects, is a [pitch_tensor] of any
      shape.
    - A Python exception is a value of [exn]; a computation that may raise
      returns a [result]. *)

From Stdlib Require Import ZArith QArith Lia Lqa List Bool Arith Ascii String.
From Stdlib Require Import Sorted Permutation Qround Qabs.
From stdpp Require Import base strings list gmap.
Import ListNotations.

Local Open Scope Z_scope.

(** ** Exceptions and results *)

Inductive exn : Type :=
| IndexError
| ValueError (msg : string)
| SampleRateMismatch (got : Z) (target : option Z)
| AssertionError
| UnboundLocalError (name : string)
| AttributeError
| TypeError
| ShapeError
| ZeroDivisionError
| KeyError (key : string)
| OSError (what : string)
| RuntimeError (msg : string)
| CollaboratorError (who : string).

Inductive result (A : Type) : Type :=
| OK (a : A)
| Raise (e : exn).

Arguments OK {A} a.
Arguments Raise {A} e.

#[global] Instance result_ret : MRet result := fun A a => OK a.

#[global] Instance result_bind : MBind result := fun A B k r =>
  match r with
  | OK a => k a
  | Raise e => Raise e
  end.

(** ** beta_binomial_prior_distribution *)

Module BetaBinom.

Local Open Scope Q_scope.

(** Binomial coefficients by Pascal's rule. *)
Fixpoint choose (n k : nat) : nat :=
  match n, k with
  | _, O => 1
  | O, S _ => 0
  | S n', S k' => (choose n' k' + choose n' k)%nat
  end.

Definition Qnat (n : nat) : Q := inject_Z (Z.of_nat n).

(** The beta function at positive integers:
    [B(x, y) = (x-1)! (y-1)! / (x+y-1)!]. *)
Definition beta (x y : nat) : Q :=
  Qnat (fact (x - 1) * fact (y - 1)) / Qnat (fact (x + y - 1)).

(** [scipy.stats.betabinom(n, a, b).pmf(k)]: the probability mass
    [C(n, k) B(k + a, n - k + b) / B(a, b)] on the support [0..n], and
    zero outside it.  The shape parameters are positive integers here,
    as the code produces them with [scaling = 1.0]; the value is the exact
    rational that the floating-point result approximates. *)
Definition betabinom_pmf (n a b k : nat) : Q :=
  if (k <=? n)%nat
  then Qnat (choose n k) * beta (k + a) (n - k + b) / beta a b
  else 0.

(** [[
def beta_binomial_prior_distribution(phoneme_count, mel_count, scaling=1.0):
    P = phoneme_count
    M = mel_count
    x = np.arange(0, P)
    mel_text_probs = []
    for i in range(1, M+1):
        a, b = scaling * i, scaling * (M + 1 - i)
        rv = betabinom(P, a, b)
        mel_i_prob = rv.pmf(x)
        mel_text_probs.append(mel_i_prob)
    return torch.tensor(np.array(mel_text_probs))
]] *)
Definition beta_binomial_prior_distribution
    (phoneme_count mel_count : nat) (scaling : nat) : list (list Q) :=
  let P := phoneme_count in
  let M := mel_count in
  let x := seq 0 P in
  map (fun i =>
         let a := (scaling * i)%nat in
         let b := (scaling * (M + 1 - i))%nat in
         map (betabinom_pmf P a b) x)
      (seq 1 M).

(** Sum of the entries of a row. *)
Definition row_sum (row : list Q) : Q := fold_right Qplus 0 row.

(** The property as the specification words it: every row of the matrix
    is a probability mass function, its entries summing to one. *)
Definition rows_sum_to_one (m : list (list Q)) : Prop :=
  forall row, In row m -> row_sum row == 1.

(** The sum of [f] over [0..n-1]. *)
Fixpoint nsum (f : nat -> nat) (n : nat) : nat :=
  match n with
  | O => 0
  | S m => nsum f m + f m
  end.

(** The unnormalised total mass of the beta-binomial distribution. *)
Definition mass (n a b : nat) : nat :=
  nsum (fun k => choose n k * (fact (k + a) * fact (n - k + b)))%nat (S n).

(** The normalising constant of [betabinom(n, a+1, b+1)]. *)
Definition norm_const (n a b : nat) : Q :=
  Qnat (fact (a + b + 1)) / (Qnat (fact (n + a + b + 1)) * (Qnat (fact a) * Qnat (fact b))).

End BetaBinom.

(** ** Tensors *)

Module Tensor.

Section Ops.
Context {A : Type}.

(** [t.size(0)] and [t.size(1)] of a two-dimensional tensor.  A tensor
    without rows has the width zero here. *)
Definition size0 (t : list (list A)) : nat := length t.

Definition size1 (t : list (list A)) : nat :=
  match t with
  | [] => 0%nat
  | row :: _ => length row
  end.

(** Every row has the length of the first one. *)
Definition rectangular (t : list (list A)) : Prop :=
  Forall (fun row => length row = size1 t) t.

(** [torch.zeros(n)] and [torch.zeros(r, c)], for the zero [z] of the
    element type. *)
Definition zeros1 (z : A) (n : nat) : list A := repeat z n.

Definition zeros2 (z : A) (r c : nat) : list (list A) := repeat (repeat z c) r.

Definition zeros3 (z : A) (n r c : nat) : list (list (list A)) :=
  repeat (zeros2 z r c) n.

(** [t.T] *)
Definition transpose (z : A) (t : list (list A)) : list (list A) :=
  map (fun j => map (fun row => nth j row z) t) (seq 0 (size1 t)).

End Ops.

(** Broadcasting of one dimension of the right-hand side of an assignment
    to the extent [n] of the slice it is assigned to: the extents are equal,
    or the source has extent one and is repeated. *)
Definition expand {X : Type} (src : list X) (n : nat) : result (list X) :=
  if (length src =? n)%nat then OK src
  else match src with
       | [x] => OK (repeat x n)
       | _ => Raise ShapeError
       end.

(** [row[:n] = src] on a one-dimensional tensor. *)
Definition assign_prefix {A : Type} (row : list A) (n : nat) (src : list A)
  : result (list A) :=
  let m := Nat.min n (length row) in
  src' ← expand src m;
  OK (src' ++ skipn m row).

(** [t[:n0, :n1] = src] on a two-dimensional tensor. *)
Definition assign_block {A : Type} (t : list (list A)) (n0 n1 : nat)
    (src : list (list A)) : result (list (list A)) :=
  let m0 := Nat.min n0 (size0 t) in
  let m1 := Nat.min n1 (size1 t) in
  rows ← expand src m0;
  rows' ← mapM (fun srow => expand srow m1) rows;
  OK (zip_with (fun srow trow => srow ++ skipn m1 trow) rows' (firstn m0 t)
      ++ skipn m0 t).

(** [for i in range(n): s = body(i, s)], stopping at the first exception. *)
Fixpoint for_range_from {S : Type} (start n : nat)
    (body : nat -> S -> result S) (s : S) : result S :=
  match n with
  | O => OK s
  | Datatypes.S n' => s' ← body start s; for_range_from (Datatypes.S start) n' body s'
  end.

Definition for_range {S : Type} (n : nat) (body : nat -> S -> result S) (s : S)
  : result S :=
  for_range_from 0 n body s.

(** [t[i] = row] for an index known to the caller; out of range raises. *)
Definition set_row {X : Type} (t : list X) (i : nat) (row : X) : result (list X) :=
  if (i <? length t)%nat then OK (<[i := row]> t) else Raise IndexError.

(** [t[i]] *)
Definition get {X : Type} (t : list X) (i : nat) : result X :=
  match t !! i with
  | Some x => OK x
  | None => Raise IndexError
  end.

End Tensor.

(** ** Conversions between element types *)

Module Float32.

(** [2^k] for an integer [k]. *)
Definition pow2 (k : Z) : Q :=
  if 0 <=? k then inject_Z (2 ^ k) else (/ inject_Z (2 ^ (- k)))%Q.

(** The integer nearest to [q], the even one of two equally near. *)
Definition round_half_even (q : Q) : Z :=
  let f := Qfloor q in
  match Qcompare (q - inject_Z f)%Q (1 # 2)%Q with
  | Lt => f
  | Gt => f + 1
  | Eq => if Z.even f then f else f + 1
  end.

(** [floor(log2 a)] of a positive rational [a = n / d]: the difference of
    the binary logarithms of [n] and [d], or one less. *)
Definition exponent (a : Q) : Z :=
  let e0 := Z.log2 (Qnum a) - Z.log2 (Zpos (Qden a)) in
  if Qle_bool (pow2 e0) a then e0 else e0 - 1.

(** The conversion of a float64 value to float32, as an assignment to a
    float32 tensor makes it: the nearest float32, the one with the even
    significand of two equally near.  A float32 has 24 significant bits
    down to [2^-126] and is a multiple of [2^-149] below.  Beyond the
    largest float32 the conversion gives an infinity, which the rationals
    do not have; there the model keeps the rounded value. *)
Definition cast (q : Q) : Q :=
  if Qeq_bool q 0 then 0%Q
  else
    let a := Qabs q in
    let ulp := pow2 (Z.max (exponent a - 23) (-149)) in
    let r := (inject_Z (round_half_even (a / ulp)) * ulp)%Q in
    if Qle_bool 0 q then r else (- r)%Q.

End Float32.

Module Int64.

(** A Python integer written into an int64 tensor: PyTorch raises
    [RuntimeError] when it does not fit. *)
Definition cast (z : Z) : result Z :=
  if (- 2 ^ 63 <=? z) && (z <? 2 ^ 63) then OK z
  else Raise (RuntimeError "Overflow when unpacking long").

End Int64.

(** ** pathlib paths *)

Module Path.

(** A path is the list of its parts, as [PurePosixPath.parts] gives them:
    an absolute path starts with the part ["/"]. *)
Definition path : Type := list string.

Definition slash : ascii := "/"%char.
Definition dot : ascii := "."%char.

Fixpoint split_on (c : ascii) (s : list ascii) : list (list ascii) :=
  match s with
  | [] => [[]]
  | ch :: s' =>
      if Ascii.eqb ch c then [] :: split_on c s'
      else match split_on c s' with
           | [] => [[ch]]
           | h :: t => (ch :: h) :: t
           end
  end.

Definition is_component (comp : list ascii) : bool :=
  match comp with
  | [] => false
  | [ch] => negb (Ascii.eqb ch dot)
  | _ => true
  end.

(** [Path(s)]: the parts between slashes, empty parts and ["."] dropped. *)
Definition Path (s : string) : path :=
  let cs := list_ascii_of_string s in
  let comps := map string_of_list_ascii (List.filter is_component (split_on slash cs)) in
  match cs with
  | ch :: _ => if Ascii.eqb ch slash then "/"%string :: comps else comps
  | [] => comps
  end.

Definition is_absolute (p : path) : bool :=
  match p with
  | r :: _ => String.eqb r "/"
  | [] => false
  end.

(** [p.name]: the last part, empty for the root and for the empty path. *)
Definition name (p : path) : string :=
  match rev p with
  | [] => ""
  | n :: rest => if is_absolute p && (length rest =? 0)%nat then "" else n
  end.

(** [name.rfind('.')] *)
Fixpoint rfind_dot (cs : list ascii) (i : nat) (found : option nat) : option nat :=
  match cs with
  | [] => found
  | ch :: cs' =>
      rfind_dot cs' (S i) (if Ascii.eqb ch dot then Some i else found)
  end.

(** [p.suffix]: the last dot of the name and what follows it, unless that
    dot starts or ends the name. *)
Definition suffix_start (nm : list ascii) : option nat :=
  match rfind_dot nm 0 None with
  | Some i => if (0 <? i)%nat && (i <? length nm - 1)%nat then Some i else None
  | None => None
  end.

(** [p.with_suffix(suffix)], for a suffix that starts with a dot. *)
Definition with_suffix (p : path) (suffix : string) : result path :=
  let nm := name p in
  if String.eqb nm "" then Raise (ValueError "has an empty name")
  else
    let cs := list_ascii_of_string nm in
    let stem := match suffix_start cs with
                | Some i => firstn i cs
                | None => cs
                end in
    OK (removelast p ++ [String.append (string_of_list_ascii stem) suffix]).

Fixpoint strip_prefix (other p : path) : option path :=
  match other, p with
  | [], _ => Some p
  | o :: other', x :: p' => if String.eqb o x then strip_prefix other' p' else None
  | _ :: _, [] => None
  end.

(** [p.relative_to(other)] *)
Definition relative_to (p other : path) : result path :=
  match other with
  | [] => if is_absolute p then Raise (ValueError "is not in the subpath of")
          else OK p
  | _ => match strip_prefix other p with
         | Some rest => OK rest
         | None => Raise (ValueError "is not in the subpath of")
         end
  end.

(** [Path(a, b)]: an absolute second argument replaces the first. *)
Definition join (a b : path) : path :=
  if is_absolute b then b else a ++ b.

(** [p.parent] *)
Definition parent (p : path) : path :=
  match p with
  | [r] => if is_absolute p then p else []
  | _ => removelast p
  end.

End Path.

(** ** Examples and the collaborators of the data set *)

(** A pitch tensor as the pitch sources deliver it and as the examples
    carry it.  [Pitch1 frames] is one-dimensional, one value per frame;
    [Pitch2 formants] is two-dimensional, the list of its rows (formants by
    frames).  [PitchN shape data] is a tensor of any other shape, given by
    its shape and its entries in row-major order: no dimension at all,
    three dimensions or more, or extents that a list of rows cannot hold,
    as [(0, T)]. *)
Inductive pitch_tensor : Type :=
| Pitch1 (frames : list Q)
| Pitch2 (formants : list (list Q))
| PitchN (shape : list nat) (data : list Q).

(** [pitch.shape] *)
Definition pitch_shape (p : pitch_tensor) : list nat :=
  match p with
  | Pitch1 frames => [length frames]
  | Pitch2 formants => [length formants; Tensor.size1 formants]
  | PitchN shape _ => shape
  end.

(** [pitch.shape[k]]; a tuple index out of range raises. *)
Definition pitch_dim (p : pitch_tensor) (k : nat) : result nat :=
  Tensor.get (pitch_shape p) k.

(** The tuple returned by [TTSDataset.__getitem__], field by field:
    [(text, mel, len(text), pitch, energy, speaker, attn_prior, audiopath,
      cwt_acc, ds_mel)]. *)
Record Example : Type := mkExample {
  ex_text : list Z;
  ex_mel : list (list Q);
  ex_len_text : Z;
  ex_pitch : pitch_tensor;
  ex_energy : list Q;
  ex_speaker : option Z;
  ex_attn_prior : list (list Q);
  ex_audiopath : string;
  ex_cwt_acc : option (list Z);
  ex_ds_mel : option (list (list Q))
}.

(** The arguments of [layers.TacotronSTFT(...)]; [None] is a legal value of
    each in the constructor of the data set. *)
Record stft_params : Type := mkStft {
  stft_filter_length : option Z;
  stft_hop_length : option Z;
  stft_win_length : option Z;
  stft_n_mel_channels : Z;
  stft_sampling_rate : option Z;
  stft_mel_fmin : option Q;
  stft_mel_fmax : option Q
}.

(** The arguments [estimate_pitch] receives besides the path and the frame
    count. *)
Record pitch_settings : Type := mkPitchSettings {
  f0_method : string;
  two_pass_method : bool;
  pitch_mean : Q;
  pitch_std : Q;
  norm_method : string;
  pitch_norm : bool
}.

(** The code outside this file that the data set calls.  Each returns
    [None] where the real function raises. *)
Record Collaborators : Type := mkCollaborators {
  (* common.utils.load_filepaths_and_text(files, dataset_path, has_speakers):
     a list of dicts, each an ordered list of key and value *)
  load_filepaths_and_text :
    list string -> string -> bool -> option (list (list (string * string)));
  (* common.utils.load_wav_to_torch(path) -> (samples, sampling rate) *)
  load_wav_to_torch : string -> option (list Q * Z);
  (* stft.mel_spectrogram on the one waveform: channels by frames *)
  mel_spectrogram : stft_params -> list Q -> option (list (list Q));
  (* torch.load of a mel-spectrogram, a pitch contour, word labels *)
  torch_load_mel : string -> option (list (list Q));
  torch_load_pitch : string -> option pitch_tensor;
  torch_load_cwt : string -> option (list Z);
  (* TextProcessing.encode_text without and with the per-word counts *)
  encode_text : string -> option (list Z);
  encode_text_counts : string -> option (list Z * list Z);
  (* acoustic_feat_extraction.estimate_pitch *)
  estimate_pitch : string -> nat -> pitch_settings -> option pitch_tensor;
  (* cwt_conditioning.upsample_word_label(text_info, labels) *)
  upsample_word_label : list Z -> list Z -> option (list Z);
  (* scipy.ndimage.zoom(input, zoom=(zw, zh), order=1) *)
  ndimage_zoom : list (list Q) -> Q * Q -> option (list (list Q));
  (* the square root of torch.norm *)
  sqrt : Q -> Q;
  (* the constructor layers.TacotronSTFT(filter_length, hop_length,
     win_length, n_mel_channels, sampling_rate, mel_fmin, mel_fmax) *)
  TacotronSTFT : stft_params -> option unit;
  (* the constructor TextProcessing(symbol_set, text_cleaners,
     p_arpabet=..., get_counts=...), by its last two arguments *)
  TextProcessing : Q -> bool -> option unit
}.

Definition call {X : Type} (who : string) (o : option X) : result X :=
  match o with
  | Some x => OK x
  | None => Raise (CollaboratorError who)
  end.

(** ** Computations with state and exceptions *)

(** A computation over a state [S] that returns or raises; the state
    changes made before an exception remain. *)
Definition SR (S X : Type) : Type := S -> result X * S.

#[global] Instance SR_ret {S : Type} : MRet (SR S) := fun X x s => (OK x, s).

#[global] Instance SR_bind {S : Type} : MBind (SR S) := fun X Y k m s =>
  match m s with
  | (OK x, s') => k x s'
  | (Raise e, s') => (Raise e, s')
  end.

Definition lift {S X : Type} (r : result X) : SR S X := fun s => (r, s).

Definition get_state {S : Type} : SR S S := fun s => (OK s, s).

(** [assert cond] *)
Definition assert (cond : bool) : result unit :=
  if cond then OK tt else Raise AssertionError.

(** ** BetaBinomialInterpolator *)

Module BetaBinomialInterpolator.
Import BetaBinom.

(** [[
def __init__(self, round_mel_len_to=100, round_text_len_to=20):
    self.round_mel_len_to = round_mel_len_to
    self.round_text_len_to = round_text_len_to
    self.bank = functools.lru_cache(beta_binomial_prior_distribution)
]]
    The contents of [self.bank] are the state of the interpolator. *)
Record t : Type := mk {
  round_mel_len_to : Z;
  round_text_len_to : Z
}.

Definition __init__ : t := mk 100 20.

(** The memo table of [functools.lru_cache], most recently used first. *)
Definition bank_t : Type := list ((Z * Z) * list (list Q)).

Definition lru_maxsize : nat := 128.

Definition key_eqb (k1 k2 : Z * Z) : bool :=
  (fst k1 =? fst k2) && (snd k1 =? snd k2).

Definition bank_find (b : bank_t) (k : Z * Z) : option (list (list Q)) :=
  match find (fun e => key_eqb (fst e) k) b with
  | Some e => Some (snd e)
  | None => None
  end.

(** [self.bank(bw, bh)]: a hit moves the entry to the front; a miss
    computes [beta_binomial_prior_distribution(bw, bh)], stores it, and drops
    the least recently used entry of a full table. *)
Definition bank (bw bh : Z) : SR bank_t (list (list Q)) := fun b =>
  match bank_find b (bw, bh) with
  | Some v =>
      (OK v, ((bw, bh), v) :: List.filter (fun e => negb (key_eqb (fst e) (bw, bh))) b)
  | None =>
      let v := beta_binomial_prior_distribution (Z.to_nat bw) (Z.to_nat bh) 1 in
      (OK v, ((bw, bh), v) ::
             (if (length b <? lru_maxsize)%nat then b else removelast b))
  end.

(** [np.round] of the quotient [n / d] for [d > 0]: the nearest integer, a
    tie going to the even neighbour.  The quotient of two integers of
    realistic magnitude is far enough from a half-integer, unless it is one,
    for the floating-point division not to change the outcome. *)
Definition np_round_div (n d : Z) : Z :=
  let q := n / d in
  let r := n mod d in
  if 2 * r <? d then q
  else if d <? 2 * r then q + 1
  else if Z.even q then q else q + 1.

(** [def round(self, val, to): return max(1, int(np.round((val + 1) / to))) * to] *)
Definition round (val to : Z) : result Z :=
  if to =? 0 then Raise ZeroDivisionError
  else
    let x := if 0 <? to then np_round_div (val + 1) to
             else np_round_div (- (val + 1)) (- to) in
    OK (Z.max 1 x * to).

(** [[
def __call__(self, w, h):
    bw = self.round(w, to=self.round_mel_len_to)
    bh = self.round(h, to=self.round_text_len_to)
    ret = ndimage.zoom(self.bank(bw, bh).T, zoom=(w / bw, h / bh), order=1)
    assert ret.shape[0] == w, ret.shape
    assert ret.shape[1] == h, ret.shape
    return ret
]]
    [bw] and [bh] are nonzero multiples of the bucket sizes, so the two
    divisions do not raise. *)
Definition __call__ (self : t) (env : Collaborators) (w h : Z)
  : SR bank_t (list (list Q)) :=
  bw ← lift (round w (round_mel_len_to self));
  bh ← lift (round h (round_text_len_to self));
  m ← bank bw bh;
  ret ← lift (call "ndimage.zoom"
                (ndimage_zoom env (Tensor.transpose 0%Q m)
                   (inject_Z w / inject_Z bw, inject_Z h / inject_Z bh)%Q));
  _ ← lift (assert (Z.of_nat (Tensor.size0 ret) =? w));
  _ ← lift (assert (Z.of_nat (Tensor.size1 ret) =? h));
  mret ret.

(** The property of [round] as the specification words it: a positive
    multiple of [to], at least [v]. *)
Definition rounds_up (v to : Z) : Prop :=
  exists r, round v to = OK r /\ 0 < r /\ (to | r) /\ v <= r.

End BetaBinomialInterpolator.

(** ** Strings *)

Module Str.

Fixpoint starts_with (pat s : list ascii) : bool :=
  match pat, s with
  | [], _ => true
  | p :: pat', c :: s' => Ascii.eqb p c && starts_with pat' s'
  | _ :: _, [] => false
  end.

(** [s.endswith(suffix)] *)
Definition endswith (s suffix : string) : bool :=
  starts_with (rev (list_ascii_of_string suffix)) (rev (list_ascii_of_string s)).

(** Replacement of every occurrence of a non-empty pattern, left to right;
    [skip] counts the characters of a match still to be dropped. *)
Fixpoint replace_all (pat rep : list ascii) (skip : nat) (s : list ascii)
  : list ascii :=
  match s with
  | [] => []
  | c :: s' =>
      match skip with
      | S k => replace_all pat rep k s'
      | O =>
          if starts_with pat s
          then rep ++ replace_all pat rep (length pat - 1) s'
          else c :: replace_all pat rep 0 s'
      end
  end.

(** [re.sub('/mels/', '/wavs/', s)] *)
Definition sub_mels_wavs (s : string) : string :=
  string_of_list_ascii
    (replace_all (list_ascii_of_string "/mels/") (list_ascii_of_string "/wavs/")
       0 (list_ascii_of_string s)).

(** [re.sub('.pt$', '.wav', s)]: the pattern is any character but a newline
    followed by [pt], at the end of the string or before a newline that
    ends the string. *)
Definition sub_pt_wav (s : string) : string :=
  let matches t p c :=
    Ascii.eqb t "t" && Ascii.eqb p "p" && negb (Ascii.eqb c "010") in
  match rev (list_ascii_of_string s) with
  | t :: p :: c :: rest =>
      if matches t p c
      then string_of_list_ascii (rev rest ++ list_ascii_of_string ".wav")
      else
        match rest with
        | c' :: rest' =>
            if Ascii.eqb t "010" && matches p c c'
            then string_of_list_ascii
                   (rev rest' ++ list_ascii_of_string ".wav" ++ [t])
            else s
        | [] => s
        end
  | _ => s
  end.

Definition digit (c : ascii) : option Z :=
  let n := Z.of_nat (nat_of_ascii c) in
  if (48 <=? n) && (n <=? 57) then Some (n - 48) else None.

(** Decimal digits, with single underscores between digits; [after_digit]
    tells whether the character before was a digit. *)
Fixpoint digits (cs : list ascii) (acc : Z) (after_digit : bool) : option Z :=
  match cs with
  | [] => if after_digit then Some acc else None
  | c :: cs' =>
      if Ascii.eqb c "_"
      then if after_digit then digits cs' acc false else None
      else match digit c with
           | Some d => digits cs' (10 * acc + d) true
           | None => None
           end
  end.

(** The white space that [int] skips around the number: the characters 9
    to 13 and 28 to 32. *)
Definition is_space (c : ascii) : bool :=
  let n := nat_of_ascii c in
  ((9 <=? n) && (n <=? 13) || (28 <=? n) && (n <=? 32))%nat.

Fixpoint lstrip (cs : list ascii) : list ascii :=
  match cs with
  | c :: cs' => if is_space c then lstrip cs' else cs
  | [] => []
  end.

(** [int(s)] for a string: white space around the number is skipped, the
    number is an optional sign followed by decimal digits, and single
    underscores may stand between digits. *)
Definition int (s : string) : result Z :=
  let parse cs := digits cs 0 false in
  let r := match rev (lstrip (rev (lstrip (list_ascii_of_string s)))) with
           | c :: cs => if Ascii.eqb c "-" then option_map Z.opp (parse cs)
                        else if Ascii.eqb c "+" then parse cs
                        else parse (c :: cs)
           | [] => None
           end in
  match r with
  | Some z => OK z
  | None => Raise (ValueError "invalid literal for int()")
  end.

End Str.

(** ** TTSDataset *)

Module TTSDataset.
Import BetaBinom.

(** The arguments of [TTSDataset.__init__] that the data set keeps or
    checks.  ([text_cleaners] and [symbol_set] only configure the text
    encoder, which is a collaborator.)  An empty [dataset_path] stands for
    a false one. *)
Record Config : Type := mkConfig {
  cfg_dataset_path : string;
  cfg_audiopaths_and_text : list string;
  cfg_n_mel_channels : Z;
  cfg_p_arpabet : Q;
  cfg_n_speakers : Z;
  cfg_load_mel_from_disk : bool;
  cfg_load_pitch_from_disk : bool;
  cfg_load_cwt_from_disk : bool;
  cfg_cwt_accent : bool;
  cfg_pitch_mean : Q;
  cfg_pitch_std : Q;
  cfg_max_wav_value : option Q;
  cfg_sampling_rate : option Z;
  cfg_filter_length : option Z;
  cfg_hop_length : option Z;
  cfg_win_length : option Z;
  cfg_mel_fmin : option Q;
  cfg_mel_fmax : option Q;
  cfg_prepend_space_to_text : bool;
  cfg_append_space_to_text : bool;
  cfg_pitch_online_dir : option string;
  cfg_betabinomial_online_dir : option string;
  cfg_use_betabinomial_interpolator : bool;
  cfg_pitch_online_method : string;
  cfg_two_pass_method : bool;
  cfg_pitch_norm_method : string;
  cfg_pitch_norm : bool;
  cfg_mels_downsampled : bool;
  cfg_load_ds_mel_from_disk : bool
}.

(** The defaults of the keyword arguments. *)
Definition default_config (dataset_path : string)
    (audiopaths_and_text : list string) (n_mel_channels : Z) : Config :=
  {| cfg_dataset_path := dataset_path;
     cfg_audiopaths_and_text := audiopaths_and_text;
     cfg_n_mel_channels := n_mel_channels;
     cfg_p_arpabet := 1%Q;
     cfg_n_speakers := 1;
     cfg_load_mel_from_disk := true;
     cfg_load_pitch_from_disk := true;
     cfg_load_cwt_from_disk := false;
     cfg_cwt_accent := false;
     cfg_pitch_mean := (21472203 # 100000)%Q;
     cfg_pitch_std := (6572038 # 100000)%Q;
     cfg_max_wav_value := None;
     cfg_sampling_rate := None;
     cfg_filter_length := None;
     cfg_hop_length := None;
     cfg_win_length := None;
     cfg_mel_fmin := None;
     cfg_mel_fmax := None;
     cfg_prepend_space_to_text := false;
     cfg_append_space_to_text := false;
     cfg_pitch_online_dir := None;
     cfg_betabinomial_online_dir := None;
     cfg_use_betabinomial_interpolator := true;
     cfg_pitch_online_method := "pyin";
     cfg_two_pass_method := false;
     cfg_pitch_norm_method := "default";
     cfg_pitch_norm := true;
     cfg_mels_downsampled := false;
     cfg_load_ds_mel_from_disk := false |}.

(** The attributes of the data set.  An attribute that [__init__] sets on
    one branch only is an [option]: [None] when it was never set. *)
Record t : Type := mkDataset {
  dataset_path : string;
  audiopaths_and_text : list (list (string * string));
  load_mel_from_disk : bool;
  max_wav_value : option (option Q);
  sampling_rate : option (option Z);
  stft : option stft_params;
  mels_downsampled : bool;
  load_ds_mel_from_disk : bool;
  max_wav_value_ds : option (option Q);
  sampling_rate_ds : option Z;
  stft_ds : option stft_params;
  load_pitch_from_disk : bool;
  cwt_accent : bool;
  load_cwt_from_disk : bool;
  prepend_space_to_text : bool;
  append_space_to_text : bool;
  n_speakers : Z;
  pitch_tmp_dir : option string;
  pitch_params : pitch_settings;
  betabinomial_tmp_dir : option string;
  use_betabinomial_interpolator : bool;
  betabinomial_interpolator : option BetaBinomialInterpolator.t
}.

(** The arguments of the two calls of [layers.TacotronSTFT] in
    [__init__]: for the mel-spectrograms, and for the downsampled ones
    (hop 10, window 40, 800 Hz, [mel_fmax] 400). *)
Definition stft_args (cfg : Config) : stft_params :=
  mkStft (cfg_filter_length cfg) (cfg_hop_length cfg)
    (cfg_win_length cfg) (cfg_n_mel_channels cfg)
    (cfg_sampling_rate cfg) (cfg_mel_fmin cfg)
    (cfg_mel_fmax cfg).

Definition stft_ds_args (cfg : Config) : stft_params :=
  mkStft (cfg_filter_length cfg) (Some 10) (Some 40)
    (cfg_n_mel_channels cfg) (Some 800)
    (cfg_mel_fmin cfg) (Some 400%Q).

(** [TTSDataset.__init__], in the order of its statements: the corpus is
    loaded, the STFT objects are constructed where the configuration asks
    for them, [p_arpabet] is checked, the text encoder is constructed, and
    at the end the combination of pitch sources is checked.  The
    constructors of the STFT and of the text encoder are collaborators, and
    what they raise leaves the constructor of the data set. *)
Definition __init__ (env : Collaborators) (cfg : Config) : result t :=
  entries ← call "load_filepaths_and_text"
              (load_filepaths_and_text env (cfg_audiopaths_and_text cfg)
                 (cfg_dataset_path cfg) (1 <? cfg_n_speakers cfg));
  let from_wav := negb (cfg_load_mel_from_disk cfg) in
  let ds_from_wav :=
    negb (cfg_load_ds_mel_from_disk cfg) && cfg_mels_downsampled cfg in
  _ ← (if from_wav
       then call "TacotronSTFT" (TacotronSTFT env (stft_args cfg))
       else OK tt);
  _ ← (if ds_from_wav
       then call "TacotronSTFT" (TacotronSTFT env (stft_ds_args cfg))
       else OK tt);
  _ ← assert (Qeq_bool (cfg_p_arpabet cfg) 0 || Qeq_bool (cfg_p_arpabet cfg) 1);
  _ ← call "TextProcessing"
        (TextProcessing env (cfg_p_arpabet cfg) (cfg_cwt_accent cfg));
  _ ← assert (negb (cfg_load_pitch_from_disk cfg
                    && bool_decide (cfg_pitch_online_dir cfg <> None)));
  OK {| dataset_path := cfg_dataset_path cfg;
        audiopaths_and_text := entries;
        load_mel_from_disk := cfg_load_mel_from_disk cfg;
        max_wav_value := if from_wav then Some (cfg_max_wav_value cfg) else None;
        sampling_rate := if from_wav then Some (cfg_sampling_rate cfg) else None;
        stft := if from_wav then Some (stft_args cfg) else None;
        mels_downsampled := cfg_mels_downsampled cfg;
        load_ds_mel_from_disk := cfg_load_ds_mel_from_disk cfg;
        max_wav_value_ds := if ds_from_wav then Some (cfg_max_wav_value cfg) else None;
        sampling_rate_ds := if ds_from_wav then Some 800 else None;
        stft_ds := if ds_from_wav then Some (stft_ds_args cfg) else None;
        load_pitch_from_disk := cfg_load_pitch_from_disk cfg;
        cwt_accent := cfg_cwt_accent cfg;
        load_cwt_from_disk := cfg_load_cwt_from_disk cfg;
        prepend_space_to_text := cfg_prepend_space_to_text cfg;
        append_space_to_text := cfg_append_space_to_text cfg;
        n_speakers := cfg_n_speakers cfg;
        pitch_tmp_dir := cfg_pitch_online_dir cfg;
        pitch_params :=
          mkPitchSettings (cfg_pitch_online_method cfg) (cfg_two_pass_method cfg)
            (cfg_pitch_mean cfg) (cfg_pitch_std cfg)
            (cfg_pitch_norm_method cfg) (cfg_pitch_norm cfg);
        betabinomial_tmp_dir := cfg_betabinomial_online_dir cfg;
        use_betabinomial_interpolator := cfg_use_betabinomial_interpolator cfg;
        betabinomial_interpolator :=
          if cfg_use_betabinomial_interpolator cfg
          then Some BetaBinomialInterpolator.__init__ else None |}.

(** What the data set changes while it loads examples: the two caches on
    disk (alignment priors and pitch contours, each under its own
    directory), the directories made for them, and the memo table of the
    interpolator. *)
Record State : Type := mkState {
  prior_files : gmap (list string) (list (list Q));
  pitch_files : gmap (list string) pitch_tensor;
  dirs : gset (list string);
  interp_bank : BetaBinomialInterpolator.bank_t
}.

Definition initial_state : State := mkState ∅ ∅ ∅ [].

(** [self.attr] for an attribute that may not have been set. *)
Definition attr {X : Type} (a : option X) : result X :=
  match a with
  | Some x => OK x
  | None => Raise AttributeError
  end.

(** [entry[key]] on a dict. *)
Definition item (entry : list (string * string)) (key : string) : result string :=
  match find (fun kv => String.eqb (fst kv) key) entry with
  | Some kv => OK (snd kv)
  | None => Raise (KeyError key)
  end.

(** [first, *_ = entry]: iterating a dict yields its keys. *)
Definition unpack_first (entry : list (string * string)) : result string :=
  match entry with
  | kv :: _ => OK (fst kv)
  | [] => Raise (ValueError "not enough values to unpack")
  end.

Definition option_Z_eqb (a b : option Z) : bool :=
  match a, b with
  | Some x, Some y => x =? y
  | None, None => true
  | _, _ => false
  end.

(** The body shared by [get_mel] and [get_ds_mel] when the spectrogram is
    computed from the waveform. *)
Definition mel_from_wav (self : t) (env : Collaborators)
    (the_stft : option stft_params) (filename : string)
  : result (list (list Q)) :=
  '(audio, sampling_rate) ← call "load_wav_to_torch" (load_wav_to_torch env filename);
  s ← attr the_stft;
  if negb (option_Z_eqb (Some sampling_rate) (stft_sampling_rate s))
  then Raise (SampleRateMismatch sampling_rate (stft_sampling_rate s))
  else
    mwv ← attr (max_wav_value self);
    d ← match mwv with Some d => OK d | None => Raise TypeError end;
    let audio_norm := map (fun x => x / d)%Q audio in
    call "stft.mel_spectrogram" (mel_spectrogram env s audio_norm).

(** [[
def get_mel(self, filename):
    if not self.load_mel_from_disk:
        audio, sampling_rate = load_wav_to_torch(filename)
        if sampling_rate != self.stft.sampling_rate:
            raise ValueError("{} SR doesn't match target {} SR".format(
                sampling_rate, self.stft.sampling_rate))
        audio_norm = audio / self.max_wav_value
        audio_norm = audio_norm.unsqueeze(0)
        audio_norm = torch.autograd.Variable(audio_norm, requires_grad=False)
        melspec = self.stft.mel_spectrogram(audio_norm)
        melspec = torch.squeeze(melspec, 0)
    else:
        melspec = torch.load(filename)
    return melspec
]]
    The [ValueError] of the mismatch is [SampleRateMismatch]; the batch
    dimension added for the call of [mel_spectrogram] and removed after it
    is inside the collaborator. *)
Definition get_mel (self : t) (env : Collaborators) (filename : string)
  : result (list (list Q)) :=
  if negb (load_mel_from_disk self)
  then mel_from_wav self env (stft self) filename
  else call "torch.load" (torch_load_mel env filename).

(** [get_ds_mel]: the same with [self.stft_ds]; it divides by
    [self.max_wav_value] too. *)
Definition get_ds_mel (self : t) (env : Collaborators) (filename : string)
  : result (list (list Q)) :=
  if negb (load_ds_mel_from_disk self)
  then mel_from_wav self env (stft_ds self) filename
  else call "torch.load" (torch_load_mel env filename).

(** An element of a Python list of tokens: an integer, or (when the
    encoder returns counts) a list. *)
Inductive pyitem : Type :=
| PyInt (z : Z)
| PyList (l : list Z).

(** [torch.LongTensor(items)] of a flat list of integers. *)
Fixpoint LongTensor (items : list pyitem) : result (list Z) :=
  match items with
  | [] => OK []
  | PyInt z :: rest => r ← LongTensor rest; OK (z :: r)
  | PyList _ :: _ => Raise TypeError
  end.

(** [[
def get_text(self, text):
    if self.cwt_accent == True:
        text, text_info = self.tp.encode_text(text)
    else:
        text = self.tp.encode_text(text)
        text_info = None
    space = [self.tp.encode_text("A A")[1]]
    if self.prepend_space_to_text:
        text = space + text
    if self.append_space_to_text:
        text = text + space
    return torch.LongTensor(text), text_info
]]
    [self.tp] returns the counts exactly when [cwt_accent] is set. *)
Definition get_text (self : t) (env : Collaborators) (text : string)
  : result (list Z * option (list Z)) :=
  '(text, text_info) ←
     (if cwt_accent self
      then '(ids, info) ← call "encode_text" (encode_text_counts env text);
           OK (ids, Some info)
      else ids ← call "encode_text" (encode_text env text);
           OK (ids, None));
  space ←
     (if cwt_accent self
      then r ← call "encode_text" (encode_text_counts env "A A");
           OK [PyList (snd r)]
      else ids ← call "encode_text" (encode_text env "A A");
           x ← Tensor.get ids 1;
           OK [PyInt x]);
  let text := map PyInt text in
  let text := if prepend_space_to_text self then space ++ text else text in
  let text := if append_space_to_text self then text ++ space else text in
  tensor ← LongTensor text;
  OK (tensor, text_info).

(** [fname = Path(audiopath).relative_to(self.dataset_path)
            if self.dataset_path else Path(audiopath)],
    then [.with_suffix('.pt')] under the cache directory. *)
Definition cache_path (self : t) (tmp_dir audiopath : string)
  : result (list string) :=
  fname ← (if String.eqb (dataset_path self) ""
           then OK (Path.Path audiopath)
           else Path.relative_to (Path.Path audiopath)
                  (Path.Path (dataset_path self)));
  fname ← Path.with_suffix fname ".pt";
  OK (Path.join (Path.Path tmp_dir) fname).

Definition prefixes (p : list string) : list (list string) :=
  map (fun n => firstn n p) (seq 1 (length p)).

(** [p.mkdir(parents=True, exist_ok=True)] *)
Definition mkdir_parents (p : list string) : SR State unit := fun st =>
  if existsb (fun q => bool_decide (is_Some (prior_files st !! q))
                       || bool_decide (is_Some (pitch_files st !! q)))
       (prefixes p)
  then (Raise (OSError "FileExistsError"), st)
  else (OK tt, mkState (prior_files st) (pitch_files st)
                 (dirs st ∪ list_to_set (prefixes p)) (interp_bank st)).

(** [torch.save(attn_prior, path)] *)
Definition save_prior (m : list (list Q)) (p : list string) : SR State unit :=
  fun st =>
  if bool_decide (p ∈ dirs st)
  then (Raise (OSError "IsADirectoryError"), st)
  else (OK tt, mkState (<[p := m]> (prior_files st)) (pitch_files st)
                 (dirs st) (interp_bank st)).

(** [torch.save(pitch_mel, path)] *)
Definition save_pitch (m : pitch_tensor) (p : list string) : SR State unit :=
  fun st =>
  if bool_decide (p ∈ dirs st)
  then (Raise (OSError "IsADirectoryError"), st)
  else (OK tt, mkState (prior_files st) (<[p := m]> (pitch_files st))
                 (dirs st) (interp_bank st)).

(** A call of the interpolator, whose memo table is part of the state. *)
Definition with_bank {X : Type} (m : SR BetaBinomialInterpolator.bank_t X)
  : SR State X := fun st =>
  let '(r, b) := m (interp_bank st) in
  (r, mkState (prior_files st) (pitch_files st) (dirs st) b).

(** [[
def get_prior(self, index, mel_len, text_len):
    if self.use_betabinomial_interpolator:
        return torch.from_numpy(self.betabinomial_interpolator(mel_len,
                                                               text_len))
    if self.betabinomial_tmp_dir is not None:
        audiopath, *_ = self.audiopaths_and_text[index]
        fname = Path(audiopath).relative_to(self.dataset_path) if self.dataset_path else Path(audiopath)
        fname = fname.with_suffix('.pt')
        cached_fpath = Path(self.betabinomial_tmp_dir, fname)
        if cached_fpath.is_file():
            return torch.load(cached_fpath)
    attn_prior = beta_binomial_prior_distribution(text_len, mel_len)
    if self.betabinomial_tmp_dir is not None:
        cached_fpath.parent.mkdir(parents=True, exist_ok=True)
        torch.save(attn_prior, cached_fpath)
    return attn_prior
]] *)
Definition get_prior (self : t) (env : Collaborators)
    (index mel_len text_len : nat) : SR State (list (list Q)) :=
  if use_betabinomial_interpolator self
  then
    interp ← lift (attr (betabinomial_interpolator self));
    with_bank (BetaBinomialInterpolator.__call__ interp env
                 (Z.of_nat mel_len) (Z.of_nat text_len))
  else
    match betabinomial_tmp_dir self with
    | Some tmp_dir =>
        entry ← lift (Tensor.get (audiopaths_and_text self) index);
        audiopath ← lift (unpack_first entry);
        cached_fpath ← lift (cache_path self tmp_dir audiopath);
        st ← get_state;
        match prior_files st !! cached_fpath with
        | Some m => mret m
        | None =>
            let attn_prior := beta_binomial_prior_distribution text_len mel_len 1 in
            _ ← mkdir_parents (Path.parent cached_fpath);
            _ ← save_prior attn_prior cached_fpath;
            mret attn_prior
        end
    | None => mret (beta_binomial_prior_distribution text_len mel_len 1)
    end.

(** The path of the waveform that belongs to a spectrogram path. *)
Definition wav_path (audiopath : string) : string :=
  if Str.endswith audiopath ".wav" then audiopath
  else Str.sub_pt_wav (Str.sub_mels_wavs audiopath).

(** [[
def get_pitch(self, index, mel_len=None):
    audiopath = self.audiopaths_and_text[index]['mels']
    if self.n_speakers > 1:
        spk = int(self.audiopaths_and_text[index]['speaker'])
    else:
        spk = 0
    if self.load_pitch_from_disk:
        pitchpath = self.audiopaths_and_text[index]['pitch']
        pitch = torch.load(pitchpath)
        return pitch
    if self.pitch_tmp_dir is not None:
        fname = Path(audiopath).relative_to(self.dataset_path) if self.dataset_path else Path(audiopath)
        fname_method = fname.with_suffix('.pt')
        cached_fpath = Path(self.pitch_tmp_dir, fname_method)
        if cached_fpath.is_file():
            return torch.load(cached_fpath)
    # No luck so far - calculate
    wav = audiopath
    if not wav.endswith('.wav'):
        wav = re.sub('/mels/', '/wavs/', wav)
        wav = re.sub('.pt$', '.wav', wav)
    pitch_mel = estimate_pitch(wav, mel_len, self.f0_method, self.two_pass_method,
                               self.pitch_mean, self.pitch_std, self.norm_method, self.pitch_norm)
    if self.pitch_tmp_dir is not None and not cached_fpath.is_file():
        cached_fpath.parent.mkdir(parents=True, exist_ok=True)
        torch.save(pitch_mel, cached_fpath)
    return pitch_mel
]] *)
Definition get_pitch (self : t) (env : Collaborators) (index mel_len : nat)
  : SR State pitch_tensor :=
  entry ← lift (Tensor.get (audiopaths_and_text self) index);
  audiopath ← lift (item entry "mels");
  _ ← lift (if 1 <? n_speakers self
            then s ← item entry "speaker"; Str.int s
            else OK 0);
  if load_pitch_from_disk self
  then
    pitchpath ← lift (item entry "pitch");
    lift (call "torch.load" (torch_load_pitch env pitchpath))
  else
    let compute (cached : option (list string)) : SR State pitch_tensor :=
      pitch_mel ← lift (call "estimate_pitch"
                          (estimate_pitch env (wav_path audiopath) mel_len
                             (pitch_params self)));
      _ ← match cached with
          | Some cached_fpath =>
              _ ← mkdir_parents (Path.parent cached_fpath);
              save_pitch pitch_mel cached_fpath
          | None => mret tt
          end;
      mret pitch_mel in
    match pitch_tmp_dir self with
    | Some tmp_dir =>
        cached_fpath ← lift (cache_path self tmp_dir audiopath);
        st ← get_state;
        match pitch_files st !! cached_fpath with
        | Some p => mret p
        | None => compute (Some cached_fpath)
        end
    | None => compute None
    end.

(** [[
def get_cwt_labels(self, index, text_info, text=False):
    if self.load_cwt_from_disk:
        cwt_path = self.audiopaths_and_text[index]['cwt_accent']
        cwt_labels = torch.load(cwt_path)
        cwt_upsampled = upsample_word_label(text_info, cwt_labels)
        return torch.LongTensor(cwt_upsampled)
    else:
        return None
]] *)
Definition get_cwt_labels (self : t) (env : Collaborators) (index : nat)
    (text_info : option (list Z)) : result (option (list Z)) :=
  if load_cwt_from_disk self
  then
    entry ← Tensor.get (audiopaths_and_text self) index;
    cwt_path ← item entry "cwt_accent";
    cwt_labels ← call "torch.load" (torch_load_cwt env cwt_path);
    info ← match text_info with Some i => OK i | None => Raise TypeError end;
    cwt_upsampled ← call "upsample_word_label"
                      (upsample_word_label env info cwt_labels);
    OK (Some cwt_upsampled)
  else OK None.

(** [pitch.size(-1)]: the last extent; a tensor without dimensions raises
    [IndexError]. *)
Definition pitch_frames (p : pitch_tensor) : result nat :=
  match rev (pitch_shape p) with
  | n :: _ => OK n
  | [] => Raise IndexError
  end.

(** [if len(pitch.size()) == 1: pitch = pitch[None, :]]: a one-dimensional
    tensor gets a leading dimension of extent one; a tensor of any other
    number of dimensions stays as it is. *)
Definition pitch_2d (p : pitch_tensor) : pitch_tensor :=
  match p with
  | Pitch1 frames => Pitch2 [frames]
  | Pitch2 _ => p
  | PitchN [t] data => PitchN [1%nat; t] data
  | PitchN _ _ => p
  end.

(** [torch.norm(mel.float(), dim=0, p=2)]: for every frame, the root of
    the sum of the squares over the channels. *)
Definition energy_of (env : Collaborators) (mel : list (list Q)) : list Q :=
  map (fun j => sqrt env (fold_right Qplus 0%Q
                            (map (fun row => let x := nth j row 0%Q in (x * x)%Q) mel)))
      (seq 0 (Tensor.size1 mel)).

(** [[
def __getitem__(self, index):
    if self.n_speakers > 1:
        audiopath = self.audiopaths_and_text[index]['mels']
        text = self.audiopaths_and_text[index]['text']
        speaker = self.audiopaths_and_text[index]['speaker']
        speaker = int(speaker)
    else:
        audiopath = self.audiopaths_and_text[index]['mels']
        text = self.audiopaths_and_text[index]['text']
        speaker = None
    mel = self.get_mel(audiopath)
    text, text_info = self.get_text(text)
    pitch = self.get_pitch(index, mel.size(-1))
    energy = torch.norm(mel.float(), dim=0, p=2)
    attn_prior = self.get_prior(index, mel.shape[1], text.shape[0])
    if self.cwt_accent == True:
        cwt_acc = self.get_cwt_labels(index, text_info)
    else:
        cwt_acc = None
    if self.mels_downsampled:
        audiopath = self.audiopaths_and_text[index]['mels_ds']
        ds_mel = self.get_ds_mel(audiopath)
    else:
        ds_mel = None
    assert pitch.size(-1) == mel.size(-1)
    assert energy.size(-1) == energy.size(-1)
    # No higher formants?
    if len(pitch.size()) == 1:
        pitch = pitch[None, :]
    return (text, mel, len(text), pitch, energy, speaker, attn_prior,
            audiopath, cwt_acc, ds_mel)
]] *)
Definition __getitem__ (self : t) (env : Collaborators) (index : nat)
  : SR State Example :=
  entry ← lift (Tensor.get (audiopaths_and_text self) index);
  audiopath ← lift (item entry "mels");
  text ← lift (item entry "text");
  speaker ← lift (if 1 <? n_speakers self
                  then s ← item entry "speaker"; z ← Str.int s; OK (Some z)
                  else OK None);
  mel ← lift (get_mel self env audiopath);
  '(text, text_info) ← lift (get_text self env text);
  pitch ← get_pitch self env index (Tensor.size1 mel);
  let energy := energy_of env mel in
  attn_prior ← get_prior self env index (Tensor.size1 mel) (length text);
  cwt_acc ← lift (if cwt_accent self
                  then get_cwt_labels self env index text_info
                  else OK None);
  '(audiopath, ds_mel) ←
     lift (if mels_downsampled self
           then audiopath ← item entry "mels_ds";
                ds_mel ← get_ds_mel self env audiopath;
                OK (audiopath, Some ds_mel)
           else OK (audiopath, None));
  _ ← lift (frames ← pitch_frames pitch;
            assert (frames =? Tensor.size1 mel)%nat);
  _ ← lift (assert (length energy =? length energy)%nat);
  let pitch := pitch_2d pitch in
  mret (mkExample text mel (Z.of_nat (length text)) pitch energy speaker
          attn_prior audiopath cwt_acc ds_mel).

End TTSDataset.

(** ** TTSCollate *)

Module TTSCollate.

(** The tuple returned by [TTSCollate.__call__].  The length tensors hold
    sizes; [len_x] holds the integers of the third field of the examples
    (as a float tensor in the source). *)
Record Batch : Type := mkBatch {
  text_padded : list (list Z);
  input_lengths : list nat;
  mel_padded : list (list (list Q));
  output_lengths : list nat;
  len_x : list Z;
  pitch_padded : list (list (list Q));
  energy_padded : list (list Q);
  speaker : option (list Z);
  attn_prior_padded : list (list (list Q));
  audiopaths : list string;
  cwt_padded : option (list (list Z));
  ds_mel_padded : option (list (list (list Q)));
  output_lengths_ds : list nat
}.

(** Insertion of a pair of key and index into a list in descending order
    of the keys, before the entries with the same key. *)
Fixpoint insert_desc (x : nat * nat) (l : list (nat * nat)) : list (nat * nat) :=
  match l with
  | [] => [x]
  | y :: l' => if (fst y <=? fst x)%nat then x :: y :: l'
               else y :: insert_desc x l'
  end.

(** The order of the sorted pairs: keys descend. *)
Definition key_desc (a b : nat * nat) : Prop := (fst b <= fst a)%nat.

(** [torch.sort(keys, dim=0, descending=True)]: the sorted keys and the
    index each came from.  PyTorch leaves the order of equal keys open;
    here equal keys keep the order of their indices. *)
Definition torch_sort_descending (keys : list nat) : list nat * list nat :=
  let sorted := fold_right insert_desc [] (zip keys (seq 0 (length keys))) in
  (map fst sorted, map snd sorted).

(** [ids_sorted_decreasing] of a batch. *)
Definition ids_sorted_decreasing (batch : list Example) : list nat :=
  snd (torch_sort_descending (map (fun x => length (ex_text x)) batch)).

(** [[
for i in range(len(ids_sorted_decreasing)):
    x = batch[ids_sorted_decreasing[i]]
    t[i, ...] = ... x ...
]]
    on a tensor (or several, zipped) whose [i]-th slice is [t[i]]. *)
Definition fill_rows_body {R : Type} (batch : list Example) (ids : list nat)
    (upd : Example -> R -> result R) (i : nat) (t : list R) : result (list R) :=
  id ← Tensor.get ids i;
  x ← Tensor.get batch id;
  row ← Tensor.get t i;
  row' ← upd x row;
  Tensor.set_row t i row'.

Definition fill_rows {R : Type} (batch : list Example) (ids : list nat)
    (upd : Example -> R -> result R) (t : list R) : result (list R) :=
  Tensor.for_range (length ids) (fill_rows_body batch ids upd) t.

(** The rows of a tensor of [f] rows of width [t], from its entries in
    row-major order. *)
Definition chunks (f t : nat) (data : list Q) : list (list Q) :=
  map (fun i => firstn t (skipn (i * t) data)) (seq 0 f).

(** A shape without its leading extents of one. *)
Fixpoint strip_ones (shape : list nat) : list nat :=
  match shape with
  | 1%nat :: rest => strip_ones rest
  | _ => shape
  end.

(** The right-hand side of [pitch_padded[i, :, :n] = pitch] as the rows
    that the assignment to the two-dimensional slice broadcasts: PyTorch
    drops the leading dimensions of extent one of the source, and a source
    that still has more dimensions than the slice raises.  A source of no
    dimension or one is a single row. *)
Definition pitch_source (p : pitch_tensor) : result (list (list Q)) :=
  match p with
  | Pitch1 frames => OK [frames]
  | Pitch2 formants => OK formants
  | PitchN shape data =>
      match strip_ones shape with
      | [] => OK (chunks 1 1 data)
      | [t] => OK (chunks 1 t data)
      | [f; t] => OK (chunks f t data)
      | _ => Raise ShapeError
      end
  end.

(** [x.size(...)] on a field that may be [None]. *)
Definition not_none {X : Type} (o : option X) : result X :=
  match o with
  | Some x => OK x
  | None => Raise AttributeError
  end.

(** [[
def __call__(self, batch):
    input_lengths, ids_sorted_decreasing = torch.sort(
        torch.LongTensor([len(x[0]) for x in batch]),
        dim=0, descending=True)
    max_input_len = input_lengths[0]

    text_padded = torch.LongTensor(len(batch), max_input_len)
    text_padded.zero_()
    for i in range(len(ids_sorted_decreasing)):
        text = batch[ids_sorted_decreasing[i]][0]
        text_padded[i, :text.size(0)] = text

    num_mels = batch[0][1].size(0)
    max_target_len = max([x[1].size(1) for x in batch])

    mel_padded = torch.FloatTensor(len(batch), num_mels, max_target_len)
    mel_padded.zero_()
    output_lengths = torch.LongTensor(len(batch))
    for i in range(len(ids_sorted_decreasing)):
        mel = batch[ids_sorted_decreasing[i]][1]
        mel_padded[i, :, :mel.size(1)] = mel
        output_lengths[i] = mel.size(1)

    n_formants = batch[0][3].shape[0]
    pitch_padded = torch.zeros(mel_padded.size(0), n_formants,
                               mel_padded.size(2), dtype=batch[0][3].dtype)
    energy_padded = torch.zeros_like(pitch_padded[:, 0, :])

    for i in range(len(ids_sorted_decreasing)):
        pitch = batch[ids_sorted_decreasing[i]][3]
        energy = batch[ids_sorted_decreasing[i]][4]
        pitch_padded[i, :, :pitch.shape[1]] = pitch
        energy_padded[i, :energy.shape[0]] = energy

    if batch[0][5] is not None:
        speaker = torch.zeros_like(input_lengths)
        for i in range(len(ids_sorted_decreasing)):
            speaker[i] = batch[ids_sorted_decreasing[i]][5]
    else:
        speaker = None

    attn_prior_padded = torch.zeros(len(batch), max_target_len,
                                    max_input_len)
    attn_prior_padded.zero_()
    for i in range(len(ids_sorted_decreasing)):
        prior = batch[ids_sorted_decreasing[i]][6]
        attn_prior_padded[i, :prior.size(0), :prior.size(1)] = prior

    len_x = [x[2] for x in batch]
    len_x = torch.Tensor(len_x)

    audiopaths = [batch[i][7] for i in ids_sorted_decreasing]

    if batch[0][8] is not None:
        cwt_padded = torch.LongTensor(len(batch), max_input_len)
        cwt_padded.zero_()
        for i in range(len(ids_sorted_decreasing)):
            cwt = batch[ids_sorted_decreasing[i]][8]
            cwt_padded[i, :cwt.size(0)] = cwt
    else:
        cwt_padded = None

    if batch[0][9] is not None:
        num_ds_mels = batch[0][9].size(0)
        max_target_len_ds = max([x[9].size(1) for x in batch])
        ds_mel_padded = torch.FloatTensor(len(batch), num_ds_mels, max_target_len_ds)
        ds_mel_padded.zero_()
        output_lengths_ds = torch.LongTensor(len(batch))
        for i in range(len(ids_sorted_decreasing)):
            ds_mel = batch[ids_sorted_decreasing[i]][9]
            ds_mel_padded[i, :, :ds_mel.size(1)] = ds_mel
            output_lengths_ds[i] = ds_mel.size(1)
    else:
        ds_mel_padded = None

    return (text_padded, input_lengths, mel_padded, output_lengths, len_x,
            pitch_padded, energy_padded, speaker, attn_prior_padded,
            audiopaths, cwt_padded, ds_mel_padded, output_lengths_ds)
]]
    A tensor allocated without initial values ([output_lengths],
    [output_lengths_ds]) starts as zeros here: the loop writes every entry.
    The local variable [output_lengths_ds] is bound on one branch only; the
    model carries its binding as an [option], and the [return] raises
    [UnboundLocalError] when there is none.  Two conversions between
    element types are part of the model: a speaker is written into an int64
    tensor ([Int64.cast]), and the float64 priors are written into a float32
    tensor ([Float32.cast]). *)
Definition __call__ (batch : list Example) : result Batch :=
  let n := length batch in
  let '(input_lengths, ids) :=
    torch_sort_descending (map (fun x => length (ex_text x)) batch) in
  max_input_len ← Tensor.get input_lengths 0;

  text_padded ←
    fill_rows batch ids
      (fun x row => Tensor.assign_prefix row (length (ex_text x)) (ex_text x))
      (Tensor.zeros2 0 n max_input_len);

  x0 ← Tensor.get batch 0;
  let num_mels := Tensor.size0 (ex_mel x0) in
  let max_target_len := list_max (map (fun x => Tensor.size1 (ex_mel x)) batch) in
  mel_rows ←
    fill_rows batch ids
      (fun x '(block, _) =>
         let mel := ex_mel x in
         block' ← Tensor.assign_block block (Tensor.size0 block) (Tensor.size1 mel) mel;
         OK (block', Tensor.size1 mel))
      (zip (Tensor.zeros3 0%Q n num_mels max_target_len) (Tensor.zeros1 0%nat n));
  let mel_padded := map fst mel_rows in
  let output_lengths := map snd mel_rows in

  n_formants ← pitch_dim (ex_pitch x0) 0;
  let pitch_padded := Tensor.zeros3 0%Q n n_formants max_target_len in
  _ ← (if (n_formants =? 0)%nat then Raise IndexError else OK tt);
  let energy_padded := Tensor.zeros2 0%Q n max_target_len in
  pitch_rows ←
    fill_rows batch ids
      (fun x '(pblock, erow) =>
         let pitch := ex_pitch x in
         let energy := ex_energy x in
         frames ← pitch_dim pitch 1;
         source ← pitch_source pitch;
         pblock' ← Tensor.assign_block pblock (Tensor.size0 pblock)
                     frames source;
         erow' ← Tensor.assign_prefix erow (length energy) energy;
         OK (pblock', erow'))
      (zip pitch_padded energy_padded);
  let pitch_padded := map fst pitch_rows in
  let energy_padded := map snd pitch_rows in

  speaker ←
    match ex_speaker x0 with
    | Some _ =>
        s ← fill_rows batch ids
              (fun x _ => match ex_speaker x with
                          | Some z => Int64.cast z
                          | None => Raise TypeError
                          end)
              (Tensor.zeros1 0 (length input_lengths));
        OK (Some s)
    | None => OK None
    end;

  attn_prior_padded ←
    fill_rows batch ids
      (fun x block =>
         let prior := ex_attn_prior x in
         Tensor.assign_block block (Tensor.size0 prior) (Tensor.size1 prior)
           (map (map Float32.cast) prior))
      (Tensor.zeros3 0%Q n max_target_len max_input_len);

  let len_x := map ex_len_text batch in

  audiopaths ← mapM (fun i => x ← Tensor.get batch i; OK (ex_audiopath x)) ids;

  cwt_padded ←
    match ex_cwt_acc x0 with
    | Some _ =>
        c ← fill_rows batch ids
              (fun x row =>
                 cwt ← not_none (ex_cwt_acc x);
                 Tensor.assign_prefix row (length cwt) cwt)
              (Tensor.zeros2 0 n max_input_len);
        OK (Some c)
    | None => OK None
    end;

  '(ds_mel_padded, output_lengths_ds) ←
    match ex_ds_mel x0 with
    | Some ds0 =>
        let num_ds_mels := Tensor.size0 ds0 in
        sizes ← mapM (fun x => ds ← not_none (ex_ds_mel x); OK (Tensor.size1 ds)) batch;
        let max_target_len_ds := list_max sizes in
        ds_rows ←
          fill_rows batch ids
            (fun x '(block, _) =>
               ds_mel ← not_none (ex_ds_mel x);
               block' ← Tensor.assign_block block (Tensor.size0 block)
                          (Tensor.size1 ds_mel) ds_mel;
               OK (block', Tensor.size1 ds_mel))
            (zip (Tensor.zeros3 0%Q n num_ds_mels max_target_len_ds)
                 (Tensor.zeros1 0%nat n));
        OK (Some (map fst ds_rows), Some (map snd ds_rows))
    | None => OK (None, None)
    end;

  output_lengths_ds ←
    match output_lengths_ds with
    | Some v => OK v
    | None => Raise (UnboundLocalError "output_lengths_ds")
    end;
  OK (mkBatch text_padded input_lengths mel_padded output_lengths len_x
        pitch_padded energy_padded speaker attn_prior_padded audiopaths
        cwt_padded ds_mel_padded output_lengths_ds).

End TTSCollate.

(** ** Well-formedness of tensors, collaborators and states *)

Module Wf.
Import BetaBinom TTSDataset.

(** Every entry of the memo table of the interpolator is the value of the
    memoised function at its key.  The empty table satisfies this and every
    call of the table preserves it. *)
Definition bank_ok (b : BetaBinomialInterpolator.bank_t) : Prop :=
  Forall (fun e => snd e =
                   beta_binomial_prior_distribution
                     (Z.to_nat (fst (fst e))) (Z.to_nat (snd (fst e))) 1)
         b.


(** The mel-spectrogram of an example is a tensor of [channels] rows. *)
Definition mel_wf (channels : nat) (x : Example) : Prop :=
  length (ex_mel x) = channels /\ Tensor.rectangular (ex_mel x).

End Wf.

(** ** Concrete collaborators, data sets and batches *)

Module Fixtures.
Import TTSDataset.

Local Open Scope string_scope.

(** A corpus of two utterances and collaborators that answer with small
    constant tensors.  The waveform has the sampling rate 22050.  The STFT
    is constructed when its filter length, hop length, window length and
    sampling rate are given. *)
Definition corpus : list (list (string * string)) :=
  [ [("mels", "data/mels/a.pt"); ("text", "hi"); ("pitch", "data/pitch/a.pt")];
    [("mels", "data/mels/b.pt"); ("text", "yo"); ("pitch", "data/pitch/b.pt")] ].

Definition env : Collaborators :=
  {| load_filepaths_and_text := fun _ _ _ => Some corpus;
     load_wav_to_torch := fun _ => Some ([1%Q; 2%Q; 3%Q], 22050);
     mel_spectrogram := fun _ audio => Some [audio; audio];
     torch_load_mel := fun _ => Some [[1%Q; 2%Q; 3%Q]; [4%Q; 5%Q; 6%Q]];
     torch_load_pitch := fun _ => Some (Pitch1 [7%Q; 8%Q; 9%Q]);
     torch_load_cwt := fun _ => None;
     encode_text := fun _ => Some [5; 11; 5];
     encode_text_counts := fun _ => None;
     estimate_pitch := fun _ n _ => Some (Pitch2 [repeat 0%Q n]);
     upsample_word_label := fun _ _ => None;
     ndimage_zoom := fun m _ => Some m;
     sqrt := fun x => x;
     TacotronSTFT := fun p =>
       match stft_filter_length p, stft_hop_length p, stft_win_length p,
             stft_sampling_rate p with
       | Some _, Some _, Some _, Some _ => Some tt
       | _, _, _, _ => None
       end;
     TextProcessing := fun _ _ => Some tt |}.

(** A configuration with another way to obtain the alignment prior. *)
Definition with_prior (cfg : Config) (use_interpolator : bool)
    (online_dir : option string) : Config :=
  {| cfg_dataset_path := cfg_dataset_path cfg;
     cfg_audiopaths_and_text := cfg_audiopaths_and_text cfg;
     cfg_n_mel_channels := cfg_n_mel_channels cfg;
     cfg_p_arpabet := cfg_p_arpabet cfg;
     cfg_n_speakers := cfg_n_speakers cfg;
     cfg_load_mel_from_disk := cfg_load_mel_from_disk cfg;
     cfg_load_pitch_from_disk := cfg_load_pitch_from_disk cfg;
     cfg_load_cwt_from_disk := cfg_load_cwt_from_disk cfg;
     cfg_cwt_accent := cfg_cwt_accent cfg;
     cfg_pitch_mean := cfg_pitch_mean cfg;
     cfg_pitch_std := cfg_pitch_std cfg;
     cfg_max_wav_value := cfg_max_wav_value cfg;
     cfg_sampling_rate := cfg_sampling_rate cfg;
     cfg_filter_length := cfg_filter_length cfg;
     cfg_hop_length := cfg_hop_length cfg;
     cfg_win_length := cfg_win_length cfg;
     cfg_mel_fmin := cfg_mel_fmin cfg;
     cfg_mel_fmax := cfg_mel_fmax cfg;
     cfg_prepend_space_to_text := cfg_prepend_space_to_text cfg;
     cfg_append_space_to_text := cfg_append_space_to_text cfg;
     cfg_pitch_online_dir := cfg_pitch_online_dir cfg;
     cfg_betabinomial_online_dir := online_dir;
     cfg_use_betabinomial_interpolator := use_interpolator;
     cfg_pitch_online_method := cfg_pitch_online_method cfg;
     cfg_two_pass_method := cfg_two_pass_method cfg;
     cfg_pitch_norm_method := cfg_pitch_norm_method cfg;
     cfg_pitch_norm := cfg_pitch_norm cfg;
     cfg_mels_downsampled := cfg_mels_downsampled cfg;
     cfg_load_ds_mel_from_disk := cfg_load_ds_mel_from_disk cfg |}.

(** A configuration that computes the mel-spectrograms from waveforms. *)
Definition with_stft (cfg : Config) (max_wav_value : Q) (sampling_rate : Z)
  : Config :=
  {| cfg_dataset_path := cfg_dataset_path cfg;
     cfg_audiopaths_and_text := cfg_audiopaths_and_text cfg;
     cfg_n_mel_channels := cfg_n_mel_channels cfg;
     cfg_p_arpabet := cfg_p_arpabet cfg;
     cfg_n_speakers := cfg_n_speakers cfg;
     cfg_load_mel_from_disk := false;
     cfg_load_pitch_from_disk := cfg_load_pitch_from_disk cfg;
     cfg_load_cwt_from_disk := cfg_load_cwt_from_disk cfg;
     cfg_cwt_accent := cfg_cwt_accent cfg;
     cfg_pitch_mean := cfg_pitch_mean cfg;
     cfg_pitch_std := cfg_pitch_std cfg;
     cfg_max_wav_value := Some max_wav_value;
     cfg_sampling_rate := Some sampling_rate;
     cfg_filter_length := Some 1024;
     cfg_hop_length := Some 256;
     cfg_win_length := Some 1024;
     cfg_mel_fmin := Some 0%Q;
     cfg_mel_fmax := Some 8000%Q;
     cfg_prepend_space_to_text := cfg_prepend_space_to_text cfg;
     cfg_append_space_to_text := cfg_append_space_to_text cfg;
     cfg_pitch_online_dir := cfg_pitch_online_dir cfg;
     cfg_betabinomial_online_dir := cfg_betabinomial_online_dir cfg;
     cfg_use_betabinomial_interpolator := cfg_use_betabinomial_interpolator cfg;
     cfg_pitch_online_method := cfg_pitch_online_method cfg;
     cfg_two_pass_method := cfg_two_pass_method cfg;
     cfg_pitch_norm_method := cfg_pitch_norm_method cfg;
     cfg_pitch_norm := cfg_pitch_norm cfg;
     cfg_mels_downsampled := cfg_mels_downsampled cfg;
     cfg_load_ds_mel_from_disk := cfg_load_ds_mel_from_disk cfg |}.

(** The default configuration, with the root directory [data]. *)
Definition cfg_default : Config := default_config "data" ["train.txt"] 2.

(** Mel-spectrograms computed from waveforms of the sampling rate 22050. *)
Definition cfg_from_wav : Config := with_stft cfg_default 2 22050.

(** Alignment priors cached on disk under [bb], the interpolator off, with
    the root directory [data] and without a root directory. *)
Definition cfg_disk_cache_rooted : Config :=
  with_prior cfg_default false (Some "bb").

Definition cfg_disk_cache : Config :=
  with_prior (default_config "" ["train.txt"] 2) false (Some "bb").

(** The interpolator on and a cache directory configured as well. *)
Definition cfg_interpolator_and_cache : Config :=
  with_prior cfg_default true (Some "bb").

(** A disk that holds a file at the place of the prior cache. *)
Definition state_with_cached_prior : State :=
  mkState {[ ["bb"; "mels.pt"] := [[1%Q]] ]} ∅ {[ ["bb"] ]} [].

(** The data set of a configuration, when its construction succeeds. *)
Definition dataset_of (cfg : Config) : option t :=
  match __init__ env cfg with
  | OK self => Some self
  | Raise _ => None
  end.

(** An example with [toks] as text, two mel channels of [frames] frames,
    one pitch formant, and an optional downsampled mel. *)
Definition example (toks : list Z) (frames : nat) (path : string)
    (ds_mel : option (list (list Q))) : Example :=
  mkExample toks
    [map (fun j => inject_Z (Z.of_nat j)) (seq 1 frames);
     map (fun j => inject_Z (Z.of_nat (10 + j))) (seq 1 frames)]
    (Z.of_nat (length toks))
    (Pitch2 [repeat 3%Q frames]) (repeat 4%Q frames) None
    (repeat (repeat 5%Q (length toks)) frames) path None ds_mel.

(** Texts of the lengths 5, 3 and 8, without downsampled mels (the default
    configuration) and with them. *)
Definition batch_default : list Example :=
  [ example [1; 2; 3; 4; 5] 2 "a.pt" None;
    example [6; 7; 8] 3 "b.pt" None;
    example [9; 10; 11; 12; 13; 14; 15; 16] 1 "c.pt" None ].

Definition batch_ds : list Example :=
  [ example [1; 2; 3; 4; 5] 2 "a.pt" (Some [[7%Q]]);
    example [6; 7; 8] 3 "b.pt" (Some [[8%Q; 9%Q]]);
    example [9; 10; 11; 12; 13; 14; 15; 16] 1 "c.pt" (Some [[7%Q]]) ].

End Fixtures.

(** ** Further invariants *)

Module Invariants.
Import TTSDataset.

(** The memo table of [functools.lru_cache] with its default [maxsize]:
    at most 128 entries, one per key. *)
Definition lru_wf (b : BetaBinomialInterpolator.bank_t) : Prop :=
  (length b <= BetaBinomialInterpolator.lru_maxsize)%nat /\ List.NoDup (map fst b).

(** What a computation leaves as it is: a property of the state that holds
    after the computation, returned or raised, whenever it held before. *)
Definition preserves {X : Type} (I : State -> Prop) (m : SR State X) : Prop :=
  forall st, I st -> I (snd (m st)).

(** The files and directories of a state. *)
Definition disk (st : State)
  : gmap (list string) (list (list Q)) * gmap (list string) pitch_tensor
    * gset (list string) :=
  (prior_files st, pitch_files st, dirs st).

End Invariants.

(** ** More concrete collaborators and data sets *)

Module MoreFixtures.
Import TTSDataset.

Local Open Scope string_scope.

(** The number of rows or columns [ndimage.zoom] gives an extent [n] at
    the zoom factor [z]: [round(n * z)]. *)
Definition zoomed (n : nat) (z : Q) : nat :=
  Z.to_nat (Qfloor (inject_Z (Z.of_nat n) * z + (1 # 2))%Q).

(** A zoom that cuts its input to the zoomed shape. *)
Definition crop_zoom (m : list (list Q)) (z : Q * Q) : option (list (list Q)) :=
  Some (map (firstn (zoomed (Tensor.size1 m) (snd z)))
          (firstn (zoomed (length m) (fst z)) m)).

(** The collaborators of [Fixtures.env] with another zoom. *)
Definition with_zoom
    (zoom : list (list Q) -> Q * Q -> option (list (list Q))) : Collaborators :=
  mkCollaborators
    (load_filepaths_and_text Fixtures.env) (load_wav_to_torch Fixtures.env)
    (mel_spectrogram Fixtures.env) (torch_load_mel Fixtures.env)
    (torch_load_pitch Fixtures.env) (torch_load_cwt Fixtures.env)
    (encode_text Fixtures.env) (encode_text_counts Fixtures.env)
    (estimate_pitch Fixtures.env) (upsample_word_label Fixtures.env)
    zoom (sqrt Fixtures.env)
    (TacotronSTFT Fixtures.env) (TextProcessing Fixtures.env).

Definition crop_env : Collaborators := with_zoom crop_zoom.

(** A configuration with another source of the pitch contours. *)
Definition with_pitch (cfg : Config) (from_disk : bool)
    (online_dir : option string) : Config :=
  {| cfg_dataset_path := cfg_dataset_path cfg;
     cfg_audiopaths_and_text := cfg_audiopaths_and_text cfg;
     cfg_n_mel_channels := cfg_n_mel_channels cfg;
     cfg_p_arpabet := cfg_p_arpabet cfg;
     cfg_n_speakers := cfg_n_speakers cfg;
     cfg_load_mel_from_disk := cfg_load_mel_from_disk cfg;
     cfg_load_pitch_from_disk := from_disk;
     cfg_load_cwt_from_disk := cfg_load_cwt_from_disk cfg;
     cfg_cwt_accent := cfg_cwt_accent cfg;
     cfg_pitch_mean := cfg_pitch_mean cfg;
     cfg_pitch_std := cfg_pitch_std cfg;
     cfg_max_wav_value := cfg_max_wav_value cfg;
     cfg_sampling_rate := cfg_sampling_rate cfg;
     cfg_filter_length := cfg_filter_length cfg;
     cfg_hop_length := cfg_hop_length cfg;
     cfg_win_length := cfg_win_length cfg;
     cfg_mel_fmin := cfg_mel_fmin cfg;
     cfg_mel_fmax := cfg_mel_fmax cfg;
     cfg_prepend_space_to_text := cfg_prepend_space_to_text cfg;
     cfg_append_space_to_text := cfg_append_space_to_text cfg;
     cfg_pitch_online_dir := online_dir;
     cfg_betabinomial_online_dir := cfg_betabinomial_online_dir cfg;
     cfg_use_betabinomial_interpolator := cfg_use_betabinomial_interpolator cfg;
     cfg_pitch_online_method := cfg_pitch_online_method cfg;
     cfg_two_pass_method := cfg_two_pass_method cfg;
     cfg_pitch_norm_method := cfg_pitch_norm_method cfg;
     cfg_pitch_norm := cfg_pitch_norm cfg;
     cfg_mels_downsampled := cfg_mels_downsampled cfg;
     cfg_load_ds_mel_from_disk := cfg_load_ds_mel_from_disk cfg |}.

(** A configuration with downsampled mels, loaded from disk or computed. *)
Definition with_ds_mels (cfg : Config) (from_disk : bool) : Config :=
  {| cfg_dataset_path := cfg_dataset_path cfg;
     cfg_audiopaths_and_text := cfg_audiopaths_and_text cfg;
     cfg_n_mel_channels := cfg_n_mel_channels cfg;
     cfg_p_arpabet := cfg_p_arpabet cfg;
     cfg_n_speakers := cfg_n_speakers cfg;
     cfg_load_mel_from_disk := cfg_load_mel_from_disk cfg;
     cfg_load_pitch_from_disk := cfg_load_pitch_from_disk cfg;
     cfg_load_cwt_from_disk := cfg_load_cwt_from_disk cfg;
     cfg_cwt_accent := cfg_cwt_accent cfg;
     cfg_pitch_mean := cfg_pitch_mean cfg;
     cfg_pitch_std := cfg_pitch_std cfg;
     cfg_max_wav_value := cfg_max_wav_value cfg;
     cfg_sampling_rate := cfg_sampling_rate cfg;
     cfg_filter_length := cfg_filter_length cfg;
     cfg_hop_length := cfg_hop_length cfg;
     cfg_win_length := cfg_win_length cfg;
     cfg_mel_fmin := cfg_mel_fmin cfg;
     cfg_mel_fmax := cfg_mel_fmax cfg;
     cfg_prepend_space_to_text := cfg_prepend_space_to_text cfg;
     cfg_append_space_to_text := cfg_append_space_to_text cfg;
     cfg_pitch_online_dir := cfg_pitch_online_dir cfg;
     cfg_betabinomial_online_dir := cfg_betabinomial_online_dir cfg;
     cfg_use_betabinomial_interpolator := cfg_use_betabinomial_interpolator cfg;
     cfg_pitch_online_method := cfg_pitch_online_method cfg;
     cfg_two_pass_method := cfg_two_pass_method cfg;
     cfg_pitch_norm_method := cfg_pitch_norm_method cfg;
     cfg_pitch_norm := cfg_pitch_norm cfg;
     cfg_mels_downsampled := true;
     cfg_load_ds_mel_from_disk := from_disk |}.

(** A configuration with a filter length for the STFT. *)
Definition with_filter_length (cfg : Config) (filter_length : Z) : Config :=
  {| cfg_dataset_path := cfg_dataset_path cfg;
     cfg_audiopaths_and_text := cfg_audiopaths_and_text cfg;
     cfg_n_mel_channels := cfg_n_mel_channels cfg;
     cfg_p_arpabet := cfg_p_arpabet cfg;
     cfg_n_speakers := cfg_n_speakers cfg;
     cfg_load_mel_from_disk := cfg_load_mel_from_disk cfg;
     cfg_load_pitch_from_disk := cfg_load_pitch_from_disk cfg;
     cfg_load_cwt_from_disk := cfg_load_cwt_from_disk cfg;
     cfg_cwt_accent := cfg_cwt_accent cfg;
     cfg_pitch_mean := cfg_pitch_mean cfg;
     cfg_pitch_std := cfg_pitch_std cfg;
     cfg_max_wav_value := cfg_max_wav_value cfg;
     cfg_sampling_rate := cfg_sampling_rate cfg;
     cfg_filter_length := Some filter_length;
     cfg_hop_length := cfg_hop_length cfg;
     cfg_win_length := cfg_win_length cfg;
     cfg_mel_fmin := cfg_mel_fmin cfg;
     cfg_mel_fmax := cfg_mel_fmax cfg;
     cfg_prepend_space_to_text := cfg_prepend_space_to_text cfg;
     cfg_append_space_to_text := cfg_append_space_to_text cfg;
     cfg_pitch_online_dir := cfg_pitch_online_dir cfg;
     cfg_betabinomial_online_dir := cfg_betabinomial_online_dir cfg;
     cfg_use_betabinomial_interpolator := cfg_use_betabinomial_interpolator cfg;
     cfg_pitch_online_method := cfg_pitch_online_method cfg;
     cfg_two_pass_method := cfg_two_pass_method cfg;
     cfg_pitch_norm_method := cfg_pitch_norm_method cfg;
     cfg_pitch_norm := cfg_pitch_norm cfg;
     cfg_mels_downsampled := cfg_mels_downsampled cfg;
     cfg_load_ds_mel_from_disk := cfg_load_ds_mel_from_disk cfg |}.

(** Downsampled mels computed from waveforms with the filter length 1024,
    the mels themselves loaded from disk (the default). *)
Definition cfg_ds_from_wav : Config :=
  with_ds_mels (with_filter_length Fixtures.cfg_default 1024) false.

(** The exact prior on demand: no interpolator and no cache directory. *)
Definition cfg_exact : Config := Fixtures.with_prior Fixtures.cfg_default false None.

(** Pitch contours estimated and cached under [pp]. *)
Definition cfg_pitch_cache : Config := with_pitch cfg_exact false (Some "pp").

(** [BetaBinomialInterpolator(round_mel_len_to=1, round_text_len_to=1)] *)
Definition unit_interpolator : BetaBinomialInterpolator.t :=
  BetaBinomialInterpolator.mk 1 1.

End MoreFixtures.

(** ** batch_to_gpu *)

Module BatchToGpu.
Import TTSCollate.

(** The list [x] of model inputs and the list [y] of targets that
    [batch_to_gpu] returns. *)
Record Inputs : Type := mkInputs {
  x_text_padded : list (list Z);
  x_input_lengths : list nat;
  x_mel_padded : list (list (list Q));
  x_output_lengths : list nat;
  x_pitch_padded : list (list (list Q));
  x_energy_padded : list (list Q);
  x_speaker : option (list Z);
  x_attn_prior : list (list (list Q));
  x_audiopaths : list string;
  x_cwt_padded : option (list (list Z));
  x_ds_mel_padded : option (list (list (list Q)));
  x_output_lengths_ds : list nat
}.

Record Targets : Type := mkTargets {
  y_mel_padded : list (list (list Q));
  y_input_lengths : list nat;
  y_output_lengths : list nat
}.

(** [[
def batch_to_gpu(batch):
    (text_padded, input_lengths, mel_padded, output_lengths, len_x,
     pitch_padded, energy_padded, speaker, attn_prior, audiopaths, cwt_padded, ds_mel_padded, output_lengths_ds) = batch
    text_padded = to_gpu(text_padded).long()
    input_lengths = to_gpu(input_lengths).long()
    mel_padded = to_gpu(mel_padded).float()
    output_lengths = to_gpu(output_lengths).long()
    pitch_padded = to_gpu(pitch_padded).float()
    energy_padded = to_gpu(energy_padded).float()
    attn_prior = to_gpu(attn_prior).float()
    if speaker is not None:
        speaker = to_gpu(speaker).long()
    if cwt_padded is not None:
        cwt_padded = to_gpu(cwt_padded).long()
    if ds_mel_padded is not None:
        ds_mel_padded = to_gpu(ds_mel_padded).float()
    x = [text_padded, input_lengths, mel_padded, output_lengths,
         pitch_padded, energy_padded, speaker, attn_prior, audiopaths, cwt_padded, ds_mel_padded, output_lengths_ds]
    y = [mel_padded, input_lengths, output_lengths]
    len_x = torch.sum(output_lengths)
    return (x, y, len_x)
]]
    Moving a tensor to the device and converting it to the element type it
    has in the model leave its values as they are. *)
Definition batch_to_gpu (batch : Batch) : Inputs * Targets * Z :=
  let x := mkInputs (text_padded batch) (input_lengths batch) (mel_padded batch)
             (output_lengths batch) (pitch_padded batch) (energy_padded batch)
             (speaker batch) (attn_prior_padded batch) (audiopaths batch)
             (cwt_padded batch) (ds_mel_padded batch) (output_lengths_ds batch) in
  let y := mkTargets (mel_padded batch) (input_lengths batch) (output_lengths batch) in
  let len_x := fold_right Z.add 0 (map Z.of_nat (output_lengths batch)) in
  (x, y, len_x).

End BatchToGpu.

(** ** Batches that collate *)

Module CollateWf.

(** The tensors of an example fit together as [TTSDataset.__getitem__]
    makes them: [channels] mel channels, a two-dimensional pitch of
    [formants] rows and an energy value over the frames of the
    mel-spectrogram, the length of the text as third field, a speaker (if
    any) that fits an int64 tensor, a prior
    of one row per frame and one column per token, a downsampled mel of
    [ds_channels] channels, and word labels (if any) not longer than the
    text. *)
Definition example_ready (channels formants ds_channels : nat) (x : Example) : Prop :=
  let frames := Tensor.size1 (ex_mel x) in
  Wf.mel_wf channels x /\
  (exists rows, ex_pitch x = Pitch2 rows /\
                length rows = formants /\ Tensor.rectangular rows /\
                Tensor.size1 rows = frames) /\
  length (ex_energy x) = frames /\
  ex_len_text x = Z.of_nat (length (ex_text x)) /\
  (forall z, ex_speaker x = Some z -> - 2 ^ 63 <= z < 2 ^ 63) /\
  Tensor.rectangular (ex_attn_prior x) /\
  length (ex_attn_prior x) = frames /\
  (Tensor.size1 (ex_attn_prior x) <= length (ex_text x))%nat /\
  (exists ds, ex_ds_mel x = Some ds /\ length ds = ds_channels /\
              Tensor.rectangular ds) /\
  (forall cwt, ex_cwt_acc x = Some cwt -> (length cwt <= length (ex_text x))%nat).

(** All examples have the optional field [f], or the first one has not. *)
Definition first_decides {X : Type} (f : Example -> option X)
    (batch : list Example) : Prop :=
  match batch with
  | [] => True
  | x0 :: _ => f x0 = None \/ Forall (fun x => is_Some (f x)) batch
  end.

Definition batch_ready (batch : list Example) : Prop :=
  batch <> [] /\
  (exists channels formants ds_channels,
      (1 <= formants)%nat /\
      Forall (example_ready channels formants ds_channels) batch) /\
  first_decides ex_speaker batch /\
  first_decides ex_cwt_acc batch.

(** The frame count of the downsampled mel of an example, zero when there
    is none. *)
Definition ds_frames (x : Example) : nat :=
  match ex_ds_mel x with
  | Some ds => Tensor.size1 ds
  | None => 0%nat
  end.

End CollateWf.

(** ** A corpus with downsampled mels *)

Module DsFixtures.
Import TTSDataset.

Local Open Scope string_scope.

(** Two utterances whose entries name a downsampled mel each. *)
Definition corpus : list (list (string * string)) :=
  [ [("mels", "data/mels/a.pt"); ("text", "hi"); ("pitch", "data/pitch/a.pt");
     ("mels_ds", "data/mels_ds/a.pt")];
    [("mels", "data/mels/b.pt"); ("text", "yo"); ("pitch", "data/pitch/b.pt");
     ("mels_ds", "data/mels_ds/b.pt")] ].

(** The collaborators of [Fixtures.env] over this corpus. *)
Definition env : Collaborators :=
  mkCollaborators
    (fun _ _ _ => Some corpus) (load_wav_to_torch Fixtures.env)
    (mel_spectrogram Fixtures.env) (torch_load_mel Fixtures.env)
    (torch_load_pitch Fixtures.env) (torch_load_cwt Fixtures.env)
    (encode_text Fixtures.env) (encode_text_counts Fixtures.env)
    (estimate_pitch Fixtures.env) (upsample_word_label Fixtures.env)
    (ndimage_zoom Fixtures.env) (sqrt Fixtures.env)
    (TacotronSTFT Fixtures.env) (TextProcessing Fixtures.env).

(** The exact prior on demand and downsampled mels loaded from disk. *)
Definition cfg : Config := MoreFixtures.with_ds_mels MoreFixtures.cfg_exact true.

Definition dataset : option t :=
  match __init__ env cfg with
  | OK self => Some self
  | Raise _ => None
  end.

End DsFixtures.

(** ** A batch with a mel of one channel *)

Module BroadcastFixtures.

(** The example with the first channel of its mel-spectrogram alone. *)
Definition one_channel (x : Example) : Example :=
  mkExample (ex_text x) (firstn 1 (ex_mel x)) (ex_len_text x) (ex_pitch x)
    (ex_energy x) (ex_speaker x) (ex_attn_prior x) (ex_audiopath x)
    (ex_cwt_acc x) (ex_ds_mel x).

(** Two examples with downsampled mels: a mel of two channels and two
    frames, and a mel of one channel and three frames. *)
Definition batch : list Example :=
  [ Fixtures.example [1; 2; 3; 4; 5] 2 "a.pt" (Some [[7%Q]]);
    one_channel (Fixtures.example [6; 7; 8] 3 "b.pt" (Some [[8%Q; 9%Q]])) ].

End BroadcastFixtures.

(** ** A pitch file without formants *)

Module PitchFixtures.

(** The collaborators of [Fixtures.env] over pitch files that hold a
    tensor of the shape [(0, 3)]: no formant, three frames. *)
Definition env : Collaborators :=
  mkCollaborators
    (load_filepaths_and_text Fixtures.env) (load_wav_to_torch Fixtures.env)
    (mel_spectrogram Fixtures.env) (torch_load_mel Fixtures.env)
    (fun _ => Some (PitchN [0%nat; 3%nat] [])) (torch_load_cwt Fixtures.env)
    (encode_text Fixtures.env) (encode_text_counts Fixtures.env)
    (estimate_pitch Fixtures.env) (upsample_word_label Fixtures.env)
    (ndimage_zoom Fixtures.env) (sqrt Fixtures.env)
    (TacotronSTFT Fixtures.env) (TextProcessing Fixtures.env).

End PitchFixtures.

(** * Properties *)

Lemma bind_ok {A B : Type} (r : result A) (k : A -> result B) (b : B) :
  r ≫= k = OK b -> exists a, r = OK a /\ k a = OK b.
Proof. destruct r as [a|e]; simpl; intros H; [eauto | discriminate]. Qed.

(** ** Properties of BetaBinomialInterpolator.round *)

Module RoundFacts.
Import BetaBinomialInterpolator.

Lemma np_round_div_near (n d : Z) :
  0 < d ->
  2 * n - d <= 2 * d * np_round_div n d <= 2 * n + d.
Proof.
  intros Hd. unfold np_round_div.
  pose proof (Z.div_mod n d ltac:(lia)) as Hdm.
  pose proof (Z.mod_pos_bound n d Hd) as Hm.
  destruct (Z.ltb_spec (2 * (n mod d)) d);
    [nia | destruct (Z.ltb_spec d (2 * (n mod d)));
           [nia | destruct (Z.even (n / d)); nia]].
Qed.

Lemma round_unfold (v to : Z) :
  1 <= to -> round v to = OK (Z.max 1 (np_round_div (v + 1) to) * to).
Proof.
  intros Hto. unfold round.
  destruct (Z.eqb_spec to 0); [lia|].
  destruct (Z.ltb_spec 0 to); [reflexivity | lia].
Qed.

Example round_130_100 : round 130 100 = OK 100.
Proof. reflexivity. Qed.

Example round_150_100 : round 150 100 = OK 200.
Proof. reflexivity. Qed.

Example round_149_100 : round 149 100 = OK 200.
Proof. reflexivity. Qed.

Example round_25_20 : round 25 20 = OK 20.
Proof. reflexivity. Qed.

Example round_0_20 : round 0 20 = OK 20.
Proof. reflexivity. Qed.

(** C4, as stated, fails: [round(130, 100)] is 100, one bucket, which is
    below the length 130 it was asked to round. *)
Lemma round_rounds_up_fails : ~ rounds_up 130 100.
Proof.
  intros (r & Hr & _ & _ & Hle).
  rewrite round_130_100 in Hr. injection Hr as <-. lia.
Qed.

(** C4, amended: for every length [v >= 0] and bucket size [to >= 1],
    [round v to] returns [k * to] for an integer [k >= 1], the multiple of
    [to] nearest to [v + 1] (at most half a bucket away from it) or one
    bucket when that multiple is zero.  The result is therefore at least
    [to], and it can be below [v], by less than half a bucket. *)
Theorem round_nearest_bucket (v to : Z) :
  0 <= v -> 1 <= to ->
  exists k,
    round v to = OK (k * to) /\
    1 <= k /\
    to <= k * to /\
    2 * (v + 1) - to <= 2 * (k * to) /\
    2 * (k * to) <= Z.max (2 * to) (2 * (v + 1) + to).
Proof.
  intros Hv Hto.
  exists (Z.max 1 (np_round_div (v + 1) to)).
  pose proof (np_round_div_near (v + 1) to ltac:(lia)) as Hn.
  split; [apply round_unfold; lia|].
  split; [lia|].
  split; [nia|].
  split; destruct (Z.max_spec 1 (np_round_div (v + 1) to)) as [[? ->]|[? ->]];
    nia.
Qed.

Lemma round_nearest_bucket_witness :
  exists k,
    round 130 100 = OK (k * 100) /\
    1 <= k /\
    100 <= k * 100 /\
    2 * (130 + 1) - 100 <= 2 * (k * 100) /\
    2 * (k * 100) <= Z.max (2 * 100) (2 * (130 + 1) + 100).
Proof. apply (round_nearest_bucket 130 100); lia. Defined.

End RoundFacts.

(** ** Properties of beta_binomial_prior_distribution *)

Module BetaBinomFacts.
Import BetaBinom.

(** *** Sums of natural numbers over an initial segment *)

Lemma nsum_ext (f g : nat -> nat) (n : nat) :
  (forall k, (k < n)%nat -> f k = g k) -> nsum f n = nsum g n.
Proof.
  induction n as [|n IH]; intros H; simpl; [reflexivity|].
  rewrite IH by (intros k Hk; apply H; lia).
  rewrite (H n) by lia. reflexivity.
Qed.

Lemma nsum_add (f g : nat -> nat) (n : nat) :
  nsum (fun k => f k + g k)%nat n = (nsum f n + nsum g n)%nat.
Proof. induction n as [|n IH]; simpl; [reflexivity | rewrite IH; lia]. Qed.

Lemma nsum_shift (f : nat -> nat) (n : nat) :
  nsum f (S n) = (f O + nsum (fun k => f (S k)) n)%nat.
Proof.
  induction n as [|n IH]; [simpl; lia|].
  change (nsum f (S (S n))) with (nsum f (S n) + f (S n))%nat.
  rewrite IH. simpl. lia.
Qed.

Lemma choose_gt (n k : nat) : (n < k)%nat -> choose n k = O.
Proof.
  revert k. induction n as [|n IH]; intros [|k] H; simpl; try lia.
  rewrite !IH by lia. reflexivity.
Qed.

Lemma choose_0_r (n : nat) : choose n 0 = 1%nat.
Proof. destruct n; reflexivity. Qed.

Lemma choose_diag (n : nat) : choose n n = 1%nat.
Proof.
  induction n as [|n IH]; [reflexivity|].
  simpl. rewrite IH, choose_gt by lia. reflexivity.
Qed.

(** Pascal's rule under a sum, the step of the binomial theorem. *)
Lemma nsum_pascal (f : nat -> nat) (n : nat) :
  nsum (fun k => choose (S n) k * f k)%nat (S (S n)) =
  (nsum (fun k => choose n k * f k) (S n) +
   nsum (fun k => choose n k * f (S k)) (S n))%nat.
Proof.
  rewrite nsum_shift.
  rewrite (nsum_ext _ (fun k => choose n k * f (S k) + choose n (S k) * f (S k))%nat)
    by (intros k _; simpl; lia).
  rewrite nsum_add.
  assert (Hs : (nsum (fun k => choose n k * f k) (S n) =
                f O + nsum (fun k => choose n (S k) * f (S k)) (S n))%nat).
  { rewrite (nsum_shift (fun k => choose n k * f k)%nat n).
    cbn [nsum]. rewrite choose_0_r, (choose_gt n (S n)) by lia. lia. }
  rewrite Hs. cbn [nsum]. rewrite choose_0_r. lia.
Qed.

Lemma fact_succ (n : nat) : fact (S n) = (S n * fact n)%nat.
Proof. reflexivity. Qed.

Lemma mass_step (n a b : nat) :
  mass (S n) a b = (mass n a (S b) + mass n (S a) b)%nat.
Proof.
  unfold mass. rewrite nsum_pascal. f_equal; apply nsum_ext; intros k Hk.
  - do 3 f_equal. lia.
  - f_equal. f_equal; f_equal; lia.
Qed.

(** Vandermonde's convolution in its factorial form:
    [sum_k C(n,k) (k+a)! (n-k+b)! = (n+a+b+1)! a! b! / (a+b+1)!]. *)
Lemma mass_closed_form (n a b : nat) :
  (mass n a b * fact (a + b + 1) = fact (n + a + b + 1) * (fact a * fact b))%nat.
Proof.
  revert a b. induction n as [|n IH]; intros a b.
  - unfold mass. simpl. lia.
  - rewrite mass_step.
    pose proof (IH a (S b)) as H1. pose proof (IH (S a) b) as H2.
    replace (a + S b + 1)%nat with (S (a + b + 1)) in H1 by lia.
    replace (S a + b + 1)%nat with (S (a + b + 1)) in H2 by lia.
    replace (n + a + S b + 1)%nat with (S n + a + b + 1)%nat in H1 by lia.
    replace (n + S a + b + 1)%nat with (S n + a + b + 1)%nat in H2 by lia.
    rewrite fact_succ in H1, H2.
    rewrite (fact_succ b) in H1. rewrite (fact_succ a) in H2.
    apply (Nat.mul_cancel_l _ _ (S (a + b + 1))); [lia|].
    set (F := fact (S n + a + b + 1)) in *.
    set (G := fact (a + b + 1)) in *.
    set (fa := fact a) in *. set (fb := fact b) in *.
    set (m1 := mass n a (S b)) in *. set (m2 := mass n (S a) b) in *.
    nia.
Qed.

(** *** Rational arithmetic on the probability masses *)

Local Open Scope Q_scope.

Lemma Qnat_mul (m n : nat) : Qnat (m * n) == Qnat m * Qnat n.
Proof. unfold Qnat. rewrite Nat2Z.inj_mul, inject_Z_mult. reflexivity. Qed.

Lemma Qnat_add (m n : nat) : Qnat (m + n) == Qnat m + Qnat n.
Proof. unfold Qnat. rewrite Nat2Z.inj_add, inject_Z_plus. reflexivity. Qed.

Lemma Qnat_pos (n : nat) : (0 < n)%nat -> 0 < Qnat n.
Proof.
  intros H. unfold Qnat. change 0 with (inject_Z 0).
  rewrite <- Zlt_Qlt. lia.
Qed.

Lemma Qnat_fact_pos (n : nat) : 0 < Qnat (fact n).
Proof. apply Qnat_pos, lt_O_fact. Qed.

Lemma Qnat_fact_nonzero (n : nat) : ~ Qnat (fact n) == 0.
Proof. intros H. pose proof (Qnat_fact_pos n) as Hp. rewrite H in Hp. inversion Hp. Qed.

Lemma Qdiv_pos (x y : Q) : 0 < x -> 0 < y -> 0 < x / y.
Proof.
  intros Hx Hy. unfold Qdiv.
  apply Qmult_lt_0_compat; [assumption | apply Qinv_lt_0_compat; assumption].
Qed.

Lemma row_sum_app (l1 l2 : list Q) :
  row_sum (l1 ++ l2) == row_sum l1 + row_sum l2.
Proof.
  induction l1 as [|x l1 IH]; simpl; [ring|]. rewrite IH. ring.
Qed.

Lemma row_sum_map_ext {A : Type} (f g : A -> Q) (l : list A) :
  (forall k, In k l -> f k == g k) ->
  row_sum (map f l) == row_sum (map g l).
Proof.
  induction l as [|x l IH]; intros H; simpl; [reflexivity|].
  rewrite (H x) by (left; reflexivity).
  rewrite IH by (intros k Hk; apply H; right; assumption).
  reflexivity.
Qed.

Lemma row_sum_map_scale {A : Type} (c : Q) (g : A -> Q) (l : list A) :
  row_sum (map (fun k => g k * c) l) == row_sum (map g l) * c.
Proof.
  induction l as [|x l IH]; simpl; [ring|]. rewrite IH. ring.
Qed.

Lemma row_sum_map_Qnat (f : nat -> nat) (n : nat) :
  row_sum (map (fun k => Qnat (f k)) (seq 0 n)) == Qnat (nsum f n).
Proof.
  induction n as [|n IH]; [reflexivity|].
  rewrite seq_S, map_app, row_sum_app, IH. simpl.
  rewrite Qnat_add. ring.
Qed.

Lemma beta_succ (x y : nat) :
  beta (S x) (S y) = Qnat (fact x * fact y) / Qnat (fact (x + y + 1)).
Proof.
  unfold beta. repeat f_equal; lia.
Qed.

Lemma betabinom_pmf_factor (n a b k : nat) :
  (k <= n)%nat ->
  betabinom_pmf n (S a) (S b) k ==
  Qnat (choose n k * (fact (k + a) * fact (n - k + b))) * norm_const n a b.
Proof.
  intros Hk. unfold betabinom_pmf.
  destruct (Nat.leb_spec k n) as [_|?]; [|lia].
  replace (k + S a)%nat with (S (k + a)) by lia.
  replace (n - k + S b)%nat with (S (n - k + b)) by lia.
  rewrite !beta_succ.
  replace (k + a + (n - k + b) + 1)%nat with (n + a + b + 1)%nat by lia.
  unfold norm_const. rewrite !Qnat_mul.
  field. repeat split; apply Qnat_fact_nonzero.
Qed.

Lemma betabinom_pmf_pos (n a b k : nat) :
  (k <= n)%nat -> 0 < betabinom_pmf n (S a) (S b) k.
Proof.
  intros Hk. unfold betabinom_pmf.
  destruct (Nat.leb_spec k n) as [_|?]; [|lia].
  replace (k + S a)%nat with (S (k + a)) by lia.
  replace (n - k + S b)%nat with (S (n - k + b)) by lia.
  rewrite !beta_succ.
  assert (Hc : (0 < choose n k)%nat).
  { clear -Hk. revert k Hk. induction n as [|n IH]; intros [|k] Hk; simpl; try lia.
    specialize (IH k ltac:(lia)). lia. }
  apply Qdiv_pos; [apply Qmult_lt_0_compat; [apply Qnat_pos, Hc|] |];
    apply Qdiv_pos; try apply Qnat_fact_pos;
    rewrite Qnat_mul; apply Qmult_lt_0_compat; apply Qnat_fact_pos.
Qed.

(** Over its whole support [0..n] the beta-binomial mass sums to one. *)
Lemma betabinom_pmf_total (n a b : nat) :
  row_sum (map (betabinom_pmf n (S a) (S b)) (seq 0 (S n))) == 1.
Proof.
  rewrite (row_sum_map_ext _
             (fun k => Qnat (choose n k * (fact (k + a) * fact (n - k + b)))
                       * norm_const n a b)).
  2:{ intros k Hk. apply in_seq in Hk. apply betabinom_pmf_factor. lia. }
  rewrite (row_sum_map_scale (norm_const n a b)
             (fun k => Qnat (choose n k * (fact (k + a) * fact (n - k + b))))).
  rewrite row_sum_map_Qnat.
  fold (mass n a b).
  assert (Hm : Qnat (mass n a b) * Qnat (fact (a + b + 1)) ==
               Qnat (fact (n + a + b + 1)) * (Qnat (fact a) * Qnat (fact b))).
  { rewrite <- !Qnat_mul. rewrite mass_closed_form. reflexivity. }
  unfold norm_const.
  transitivity (Qnat (mass n a b) * Qnat (fact (a + b + 1))
                / (Qnat (fact (n + a + b + 1)) * (Qnat (fact a) * Qnat (fact b)))).
  - field. repeat split; apply Qnat_fact_nonzero.
  - rewrite Hm. field. repeat split; apply Qnat_fact_nonzero.
Qed.

(** The code evaluates the mass at [0..n-1] only: the mass at [n] is
    missing from the row. *)
Lemma betabinom_row_sum (n a b : nat) :
  row_sum (map (betabinom_pmf n (S a) (S b)) (seq 0 n)) ==
  1 - betabinom_pmf n (S a) (S b) n.
Proof.
  pose proof (betabinom_pmf_total n a b) as H.
  rewrite seq_S, map_app, row_sum_app in H. simpl in H.
  rewrite <- H. ring.
Qed.

Lemma nth_error_map_seq {A : Type} (f : nat -> A) (s n k : nat) :
  (k < n)%nat -> nth_error (map f (seq s n)) k = Some (f (s + k)%nat).
Proof.
  revert s k. induction n as [|n IH]; intros s k Hk; [lia|].
  destruct k as [|k]; simpl.
  - f_equal. f_equal. lia.
  - rewrite IH by lia. f_equal. f_equal. lia.
Qed.

Example prior_1_1 :
  beta_binomial_prior_distribution 1 1 1 = [[betabinom_pmf 1 1 1 0]].
Proof. reflexivity. Qed.

Example prior_1_1_value : betabinom_pmf 1 1 1 0 == 1 # 2.
Proof. reflexivity. Qed.

Example prior_3_2_row_sums :
  map (fun row => Qred (row_sum row)) (beta_binomial_prior_distribution 3 2 1)
  = [9 # 10; 3 # 5].
Proof. reflexivity. Qed.

(** C3, as stated, fails: for one text position and one mel frame the
    matrix is the single entry 1/2, so its only row sums to 1/2, not to 1. *)
Lemma prior_rows_sum_to_one_fails :
  ~ rows_sum_to_one (beta_binomial_prior_distribution 1 1 1).
Proof.
  intros H. specialize (H [betabinom_pmf 1 1 1 0] (or_introl eq_refl)).
  vm_compute in H. discriminate H.
Qed.

(** C3, amended: for text length [P >= 1] and mel length [M >= 1] the
    matrix has [M] rows of [P] entries; row [i] (for [i] in [1..M]) holds
    the beta-binomial mass with [n = P] trials, [a = i] and [b = M+1-i] at
    the positions [0..P-1].  The distribution has the [P+1] support points
    [0..P], so each row sums to one minus the mass at [P], which is
    strictly less than one. *)
Theorem prior_rows_shape_and_mass (P M : nat) :
  (1 <= P)%nat -> (1 <= M)%nat ->
  let m := beta_binomial_prior_distribution P M 1 in
  length m = M /\
  forall i, (1 <= i <= M)%nat ->
    exists row,
      nth_error m (i - 1) = Some row /\
      row = map (betabinom_pmf P i (M + 1 - i)) (seq 0 P) /\
      length row = P /\
      row_sum row == 1 - betabinom_pmf P i (M + 1 - i) P /\
      0 < betabinom_pmf P i (M + 1 - i) P /\
      row_sum row < 1.
Proof.
  intros HP HM m. subst m. unfold beta_binomial_prior_distribution.
  split; [rewrite length_map, length_seq; reflexivity|].
  intros i Hi.
  exists (map (betabinom_pmf P i (M + 1 - i)) (seq 0 P)).
  split.
  { rewrite nth_error_map_seq by lia.
    replace (1 + (i - 1))%nat with i by lia.
    rewrite !Nat.mul_1_l. reflexivity. }
  split; [reflexivity|].
  split; [rewrite length_map, length_seq; reflexivity|].
  destruct i as [|j]; [lia|].
  replace (M + 1 - S j)%nat with (S (M - S j)) by lia.
  pose proof (betabinom_row_sum P j (M - S j)) as Hs.
  pose proof (betabinom_pmf_pos P j (M - S j) P (Nat.le_refl P)) as Hp.
  split; [exact Hs|]. split; [exact Hp|].
  set (p := betabinom_pmf P (S j) (S (M - S j)) P) in *.
  set (r := row_sum _) in *.
  clearbody p r. lra.
Qed.

Lemma prior_rows_shape_and_mass_witness :
  let m := beta_binomial_prior_distribution 3 2 1 in
  length m = 2%nat /\
  forall i, (1 <= i <= 2)%nat ->
    exists row,
      nth_error m (i - 1) = Some row /\
      row = map (betabinom_pmf 3 i (2 + 1 - i)) (seq 0 3) /\
      length row = 3%nat /\
      row_sum row == 1 - betabinom_pmf 3 i (2 + 1 - i) 3 /\
      0 < betabinom_pmf 3 i (2 + 1 - i) 3 /\
      row_sum row < 1.
Proof. apply (prior_rows_shape_and_mass 3 2); lia. Defined.

End BetaBinomFacts.

(** ** Properties of TTSDataset.get_mel *)

Module GetMelFacts.
Import TTSDataset.

(** The parameters [__init__] gives to [layers.TacotronSTFT]. *)
Lemma init_from_wav (env : Collaborators) (cfg : Config) (self : t) :
  __init__ env cfg = OK self ->
  cfg_load_mel_from_disk cfg = false ->
  load_mel_from_disk self = false /\
  max_wav_value self = Some (cfg_max_wav_value cfg) /\
  exists s, stft self = Some s /\ stft_sampling_rate s = cfg_sampling_rate cfg.
Proof.
  unfold __init__. intros H Hw.
  apply bind_ok in H as (entries & _ & H).
  do 5 (apply bind_ok in H as (? & _ & H)).
  injection H as <-. simpl. rewrite Hw. simpl. eauto.
Qed.

Lemma option_Z_eqb_spec (sr : Z) (target : option Z) :
  option_Z_eqb (Some sr) target = true <-> target = Some sr.
Proof.
  destruct target as [z|]; simpl.
  - rewrite Z.eqb_eq. split; congruence.
  - split; discriminate.
Qed.

(** C9: when the mel-spectrogram is computed from the waveform, [get_mel]
    raises the sample-rate error exactly when the sampling rate of the
    loaded waveform differs from the target of the STFT; with the target
    rate it returns what [mel_spectrogram] computes from the loaded samples
    (only divided by [max_wav_value]), and it returns no spectrogram at any
    other rate. *)
Theorem get_mel_checks_sampling_rate
    (env : Collaborators) (cfg : Config) (self : t)
    (filename : string) (audio : list Q) (sr : Z) :
  __init__ env cfg = OK self ->
  cfg_load_mel_from_disk cfg = false ->
  load_wav_to_torch env filename = Some (audio, sr) ->
  (get_mel self env filename = Raise (SampleRateMismatch sr (cfg_sampling_rate cfg))
   <-> cfg_sampling_rate cfg <> Some sr) /\
  (forall s d mel,
      stft self = Some s ->
      cfg_sampling_rate cfg = Some sr ->
      cfg_max_wav_value cfg = Some d ->
      mel_spectrogram env s (map (fun x => x / d)%Q audio) = Some mel ->
      get_mel self env filename = OK mel) /\
  (forall mel, get_mel self env filename = OK mel -> cfg_sampling_rate cfg = Some sr).
Proof.
  intros Hinit Hcfg Hload.
  destruct (init_from_wav env cfg self Hinit Hcfg) as (Hdisk & Hmax & s & Hs & Hsr).
  unfold get_mel, mel_from_wav. rewrite Hdisk, Hload, Hs, Hmax.
  cbn -[option_Z_eqb]. rewrite Hsr.
  destruct (option_Z_eqb (Some sr) (cfg_sampling_rate cfg)) eqn:E; simpl.
  - apply option_Z_eqb_spec in E.
    split; [|split].
    + split; [|congruence].
      destruct (cfg_max_wav_value cfg) as [d|]; simpl; [|intros H; discriminate H].
      destruct (mel_spectrogram env s _); simpl; intros H; discriminate H.
    + intros s' d mel [= <-] _ Hd Hm. rewrite Hd. simpl. rewrite Hm. reflexivity.
    + intros; assumption.
  - assert (Hne : cfg_sampling_rate cfg <> Some sr).
    { intros Heq. apply option_Z_eqb_spec in Heq. congruence. }
    split; [|split].
    + split; [intros _; exact Hne | reflexivity].
    + intros s' d mel _ Heq. contradiction.
    + intros mel Hm. discriminate.
Qed.

Lemma get_mel_checks_sampling_rate_witness :
  exists self,
    Fixtures.dataset_of Fixtures.cfg_from_wav = Some self /\
    (get_mel self Fixtures.env "data/wavs/a.wav"
       = Raise (SampleRateMismatch 22050 (Some 22050))
     <-> Some 22050 <> Some 22050) /\
    get_mel self Fixtures.env "data/wavs/a.wav"
      = OK [[1 / 2; 2 / 2; 3 / 2]; [1 / 2; 2 / 2; 3 / 2]]%Q.
Proof.
  eexists. split; [reflexivity|].
  pose proof (get_mel_checks_sampling_rate Fixtures.env Fixtures.cfg_from_wav
                _ "data/wavs/a.wav" [1%Q; 2%Q; 3%Q] 22050
                eq_refl eq_refl eq_refl) as (H1 & H2 & _).
  split; [exact H1|].
  eapply H2; reflexivity.
Defined.

End GetMelFacts.

(** ** Properties of TTSDataset.get_prior *)

Module GetPriorFacts.
Import BetaBinom TTSDataset Wf.

(** *** Prior cached on disk *)

Example corpus_audio_paths_differ :
  item (nth 0 Fixtures.corpus []) "mels" = OK "data/mels/a.pt"%string /\
  item (nth 1 Fixtures.corpus []) "mels" = OK "data/mels/b.pt"%string.
Proof. split; reflexivity. Qed.

(** The cache path [get_pitch] derives comes from the audio path. *)
Example pitch_cache_paths :
  forall self, Fixtures.dataset_of Fixtures.cfg_disk_cache_rooted = Some self ->
  cache_path self "pp" "data/mels/a.pt" = OK ["pp"; "mels"; "a.pt"]%string /\
  cache_path self "pp" "data/mels/b.pt" = OK ["pp"; "mels"; "b.pt"]%string.
Proof. intros self [= <-]. split; reflexivity. Qed.

(** C2, at the failing input: in the disk-cached mode [get_prior] unpacks
    the entry of the corpus, a dict, and so takes its first key, ["mels"],
    for the audio path.  Without a root directory of the data set, the two
    utterances (of different audio paths) share the one cache file
    [bb/mels.pt]: the request for the second utterance (4 frames, 5 tokens)
    is a hit and returns the 2-by-3 matrix stored for the first.  With the
    root directory [data], under which the audio paths lie, [get_prior]
    raises [ValueError], as ["mels"] is no path below the root. *)
Theorem get_prior_disk_cache_shares_one_file :
  (exists self st1,
      Fixtures.dataset_of Fixtures.cfg_disk_cache = Some self /\
      get_prior self Fixtures.env 0 2 3 initial_state
        = (OK (beta_binomial_prior_distribution 3 2 1), st1) /\
      map fst (map_to_list (prior_files st1)) = [["bb"; "mels.pt"]%string] /\
      get_prior self Fixtures.env 1 4 5 st1
        = (OK (beta_binomial_prior_distribution 3 2 1), st1) /\
      beta_binomial_prior_distribution 5 4 1
        <> beta_binomial_prior_distribution 3 2 1) /\
  (exists self,
      Fixtures.dataset_of Fixtures.cfg_disk_cache_rooted = Some self /\
      get_prior self Fixtures.env 0 2 3 initial_state
        = (Raise (ValueError "is not in the subpath of"), initial_state)).
Proof.
  split.
  - eexists. eexists.
    split; [reflexivity|].
    split; [vm_compute; reflexivity|].
    split; [vm_compute; reflexivity|].
    split; [vm_compute; reflexivity|].
    intros H. apply (f_equal (@length _)) in H. vm_compute in H. discriminate H.
  - eexists. split; reflexivity.
Qed.

(** *** Interpolated prior *)

Lemma key_eqb_eq (k1 k2 : Z * Z) : BetaBinomialInterpolator.key_eqb k1 k2 = true -> k1 = k2.
Proof.
  destruct k1 as [a b], k2 as [c d]. unfold BetaBinomialInterpolator.key_eqb. simpl.
  rewrite andb_true_iff, !Z.eqb_eq. intros [-> ->]. reflexivity.
Qed.

Lemma bank_ok_nil : bank_ok [].
Proof. constructor. Qed.

Lemma bank_ok_removelast (b : BetaBinomialInterpolator.bank_t) :
  bank_ok b -> bank_ok (removelast b).
Proof.
  unfold bank_ok. induction b as [|e b IH]; intros H; [constructor|].
  inversion H as [|? ? He Hb]; subst. simpl.
  destruct b as [|e' b']; [constructor|].
  constructor; [exact He | apply IH; exact Hb].
Qed.

Lemma bank_ok_filter (f : (Z * Z) * list (list Q) -> bool)
    (b : BetaBinomialInterpolator.bank_t) :
  bank_ok b -> bank_ok (List.filter f b).
Proof.
  unfold bank_ok. rewrite !List.Forall_forall. intros H e He.
  apply List.filter_In in He as [He _]. apply H, He.
Qed.

(** A call of the memo table returns the value of the memoised function,
    whatever the table holds, and keeps the table sound. *)
Lemma bank_spec (b : BetaBinomialInterpolator.bank_t) (bw bh : Z) :
  bank_ok b ->
  exists b',
    BetaBinomialInterpolator.bank bw bh b
    = (OK (beta_binomial_prior_distribution (Z.to_nat bw) (Z.to_nat bh) 1), b') /\
    bank_ok b'.
Proof.
  intros Hb. unfold BetaBinomialInterpolator.bank, BetaBinomialInterpolator.bank_find.
  destruct (List.find _ b) as [e|] eqn:Hf.
  - apply List.find_some in Hf as [Hin Hk]. apply key_eqb_eq in Hk.
    unfold bank_ok in Hb. rewrite List.Forall_forall in Hb.
    pose proof (Hb e Hin) as He. rewrite Hk in He. simpl in He.
    cbv beta iota.
    eexists. split; [rewrite He; reflexivity|].
    constructor; [reflexivity|].
    apply bank_ok_filter. unfold bank_ok. rewrite List.Forall_forall. exact Hb.
  - eexists. split; [reflexivity|].
    constructor; [reflexivity|].
    destruct (length b <? BetaBinomialInterpolator.lru_maxsize)%nat;
      [exact Hb | apply bank_ok_removelast, Hb].
Qed.

(** The interpolator returns what it returns on an empty memo table. *)
Lemma interpolator_call_spec (self : BetaBinomialInterpolator.t)
    (env : Collaborators) (w h : Z) (b : BetaBinomialInterpolator.bank_t) :
  bank_ok b ->
  exists b',
    BetaBinomialInterpolator.__call__ self env w h b
    = (fst (BetaBinomialInterpolator.__call__ self env w h []), b') /\
    bank_ok b'.
Proof.
  intros Hb. unfold BetaBinomialInterpolator.__call__.
  unfold mbind, SR_bind, lift, mret, SR_ret.
  destruct (BetaBinomialInterpolator.round w _) as [bw|e]; [|eauto].
  destruct (BetaBinomialInterpolator.round h _) as [bh|e]; [|eauto].
  destruct (bank_spec b bw bh Hb) as (b' & -> & Hb').
  destruct (bank_spec [] bw bh bank_ok_nil) as (b0 & -> & _).
  destruct (call _ _) as [ret|e]; [|eauto].
  destruct (assert _) as [[]|e]; [|eauto].
  destruct (assert _) as [[]|e]; eauto.
Qed.

Lemma init_interpolator (env : Collaborators) (cfg : Config) (self : t) :
  __init__ env cfg = OK self ->
  cfg_use_betabinomial_interpolator cfg = true ->
  use_betabinomial_interpolator self = true /\
  betabinomial_interpolator self = Some BetaBinomialInterpolator.__init__.
Proof.
  unfold __init__. intros H Hu.
  apply bind_ok in H as (entries & _ & H).
  do 5 (apply bind_ok in H as (? & _ & H)).
  injection H as <-. simpl. rewrite Hu. split; reflexivity.
Qed.

(** C10: with the interpolator enabled, the prior [get_prior] returns is a
    function of the requested mel length and text length alone.  Two data
    sets (of any corpus, root directory and cache directory), asked at any
    two indices in any two states of the disk and of the memo table, give
    the same result for the same lengths; and the request leaves the files
    and directories on disk as they were. *)
Theorem get_prior_interpolated_depends_on_lengths_only
    (env : Collaborators) (cfg1 cfg2 : Config) (self1 self2 : t)
    (st1 st2 : State) (index1 index2 mel_len text_len : nat) :
  __init__ env cfg1 = OK self1 ->
  __init__ env cfg2 = OK self2 ->
  cfg_use_betabinomial_interpolator cfg1 = true ->
  cfg_use_betabinomial_interpolator cfg2 = true ->
  bank_ok (interp_bank st1) ->
  bank_ok (interp_bank st2) ->
  exists r st1' st2',
    get_prior self1 env index1 mel_len text_len st1 = (r, st1') /\
    get_prior self2 env index2 mel_len text_len st2 = (r, st2') /\
    (prior_files st1' = prior_files st1 /\ pitch_files st1' = pitch_files st1 /\
     dirs st1' = dirs st1 /\ bank_ok (interp_bank st1')) /\
    (prior_files st2' = prior_files st2 /\ pitch_files st2' = pitch_files st2 /\
     dirs st2' = dirs st2 /\ bank_ok (interp_bank st2')).
Proof.
  intros Hi1 Hi2 Hu1 Hu2 Hb1 Hb2.
  destruct (init_interpolator env cfg1 self1 Hi1 Hu1) as [Hf1 Hp1].
  destruct (init_interpolator env cfg2 self2 Hi2 Hu2) as [Hf2 Hp2].
  unfold get_prior. rewrite Hf1, Hf2, Hp1, Hp2.
  unfold mbind, SR_bind, lift, attr, with_bank.
  destruct (interpolator_call_spec BetaBinomialInterpolator.__init__ env
              (Z.of_nat mel_len) (Z.of_nat text_len) (interp_bank st1) Hb1)
    as (b1 & -> & Hb1').
  destruct (interpolator_call_spec BetaBinomialInterpolator.__init__ env
              (Z.of_nat mel_len) (Z.of_nat text_len) (interp_bank st2) Hb2)
    as (b2 & -> & Hb2').
  do 3 eexists. split; [reflexivity|]. split; [reflexivity|].
  simpl. auto.
Qed.

Lemma get_prior_interpolated_depends_on_lengths_only_witness :
  exists self1 self2 m st1' st2',
    __init__ MoreFixtures.crop_env Fixtures.cfg_default = OK self1 /\
    __init__ MoreFixtures.crop_env Fixtures.cfg_interpolator_and_cache
      = OK self2 /\
    get_prior self1 MoreFixtures.crop_env 0 3 2 initial_state = (OK m, st1') /\
    get_prior self2 MoreFixtures.crop_env 1 3 2 Fixtures.state_with_cached_prior
      = (OK m, st2') /\
    length m = 3%nat /\
    Forall (fun row => length row = 2%nat) m /\
    (prior_files st1' = prior_files initial_state /\
     pitch_files st1' = pitch_files initial_state /\
     dirs st1' = dirs initial_state /\ bank_ok (interp_bank st1')) /\
    (prior_files st2' = prior_files Fixtures.state_with_cached_prior /\
     pitch_files st2' = pitch_files Fixtures.state_with_cached_prior /\
     dirs st2' = dirs Fixtures.state_with_cached_prior /\
     bank_ok (interp_bank st2')).
Proof.
  destruct (get_prior_interpolated_depends_on_lengths_only
              MoreFixtures.crop_env Fixtures.cfg_default
              Fixtures.cfg_interpolator_and_cache _ _
              initial_state Fixtures.state_with_cached_prior 0 1 3 2
              eq_refl eq_refl eq_refl eq_refl bank_ok_nil bank_ok_nil)
    as (r & st1' & st2' & H1 & H2 & Hd1 & Hd2).
  pose proof H1 as Hrun.
  lazy -[BetaBinom.betabinom_pmf] in Hrun.
  injection Hrun as Hr _. subst r.
  do 3 eexists. exists st1', st2'.
  split; [reflexivity|]. split; [reflexivity|].
  split; [exact H1|]. split; [exact H2|].
  split; [reflexivity|]. split; [repeat constructor|].
  split; [exact Hd1 | exact Hd2].
Defined.

End GetPriorFacts.

(** ** Properties of TTSCollate.__call__ *)

Module CollateFacts.
Import TTSCollate.

(** C1, at the failing input: on a batch of the default configuration,
    where no example has a downsampled mel, [__call__] reaches its [return]
    with the local variable [output_lengths_ds] unbound and raises
    [UnboundLocalError]; it returns no batch. *)
Theorem collate_without_ds_mel_raises :
  __call__ Fixtures.batch_default = Raise (UnboundLocalError "output_lengths_ds").
Proof. vm_compute. reflexivity. Qed.

(** *** torch.sort *)

Lemma insert_desc_perm (x : nat * nat) (l : list (nat * nat)) :
  Permutation (insert_desc x l) (x :: l).
Proof.
  induction l as [|y l IH]; simpl; [reflexivity|].
  destruct (fst y <=? fst x)%nat; [reflexivity|].
  rewrite IH. apply perm_swap.
Qed.

Lemma insert_desc_sorted (x : nat * nat) (l : list (nat * nat)) :
  StronglySorted key_desc l -> StronglySorted key_desc (insert_desc x l).
Proof.
  induction l as [|y l IH]; intros Hs; simpl.
  - repeat constructor.
  - inversion Hs as [|? ? Hl Hy]; subst.
    destruct (Nat.leb_spec (fst y) (fst x)) as [Hle|Hgt].
    + constructor; [exact Hs|].
      constructor; [exact Hle|].
      rewrite List.Forall_forall in Hy |- *. intros z Hz.
      specialize (Hy z Hz). unfold key_desc in *. lia.
    + constructor; [apply IH, Hl|].
      rewrite List.Forall_forall in Hy |- *. intros z Hz.
      apply (Permutation_in _ (insert_desc_perm x l)) in Hz.
      destruct Hz as [<-|Hz]; [unfold key_desc; lia | apply Hy, Hz].
Qed.

Lemma sort_pairs_perm (l : list (nat * nat)) :
  Permutation (fold_right insert_desc [] l) l.
Proof.
  induction l as [|x l IH]; simpl; [reflexivity|].
  rewrite insert_desc_perm, IH. reflexivity.
Qed.

Lemma sort_pairs_sorted (l : list (nat * nat)) :
  StronglySorted key_desc (fold_right insert_desc [] l).
Proof.
  induction l as [|x l IH]; simpl; [constructor | apply insert_desc_sorted, IH].
Qed.

Lemma zip_seq_lookup (keys : list nat) (start : nat) (k id : nat) :
  In (k, id) (zip keys (seq start (length keys))) ->
  (start <= id)%nat /\ keys !! (id - start)%nat = Some k.
Proof.
  revert start. induction keys as [|k0 keys IH]; intros start H; simpl in H;
    [contradiction|].
  destruct H as [[= -> ->]|H].
  - split; [lia|]. rewrite Nat.sub_diag. reflexivity.
  - apply IH in H as [Hle Hk]. split; [lia|].
    replace (id - start)%nat with (S (id - S start)) by lia. exact Hk.
Qed.

Lemma map_fst_zip_seq (keys : list nat) (start : nat) :
  map fst (zip keys (seq start (length keys))) = keys.
Proof.
  revert start. induction keys as [|k keys IH]; intros start; simpl;
    [reflexivity | rewrite IH; reflexivity].
Qed.

Lemma map_snd_zip_seq (keys : list nat) (start : nat) :
  map snd (zip keys (seq start (length keys))) = seq start (length keys).
Proof.
  revert start. induction keys as [|k keys IH]; intros start; simpl;
    [reflexivity | rewrite IH; reflexivity].
Qed.

Lemma lookup_map_pair {A B : Type} (l : list (A * B)) (i : nat) (a : A) (b : B) :
  map fst l !! i = Some a -> map snd l !! i = Some b -> In (a, b) l.
Proof.
  revert i. induction l as [|[a' b'] l IH]; intros [|i] Ha Hb; simpl in *;
    try discriminate.
  - injection Ha as <-. injection Hb as <-. left. reflexivity.
  - right. eapply IH; eassumption.
Qed.

Lemma sorted_map_fst (l : list (nat * nat)) :
  StronglySorted key_desc l -> StronglySorted ge (map fst l).
Proof.
  induction 1 as [|x l Hs IH Hx]; simpl; constructor; [exact IH|].
  rewrite List.Forall_forall in Hx |- *. intros k Hk.
  apply List.in_map_iff in Hk as (y & <- & Hy). apply (Hx y Hy).
Qed.

(** What [torch.sort(..., descending=True)] returns: the keys in descending
    order, and a permutation of the indices that brings them there. *)
Lemma torch_sort_descending_spec (keys vals ids : list nat) :
  torch_sort_descending keys = (vals, ids) ->
  Permutation vals keys /\
  StronglySorted ge vals /\
  Permutation ids (seq 0 (length keys)) /\
  length vals = length keys /\
  length ids = length keys /\
  (forall i id v, ids !! i = Some id -> vals !! i = Some v -> keys !! id = Some v).
Proof.
  unfold torch_sort_descending. intros [= <- <-].
  set (pairs := zip keys (seq 0 (length keys))).
  pose proof (sort_pairs_perm pairs) as Hperm.
  pose proof (sort_pairs_sorted pairs) as Hsorted.
  assert (Hv : Permutation (map fst (fold_right insert_desc [] pairs)) keys).
  { rewrite Hperm. unfold pairs. rewrite map_fst_zip_seq. reflexivity. }
  assert (Hi : Permutation (map snd (fold_right insert_desc [] pairs))
                 (seq 0 (length keys))).
  { rewrite Hperm. unfold pairs. rewrite map_snd_zip_seq. reflexivity. }
  split; [exact Hv|].
  split; [apply sorted_map_fst, Hsorted|].
  split; [exact Hi|].
  split; [apply Permutation_length in Hv; exact Hv|].
  split; [apply Permutation_length in Hi; rewrite length_seq in Hi; exact Hi|].
  intros i id v Hid Hval.
  pose proof (lookup_map_pair _ _ _ _ Hval Hid) as Hin.
  apply (Permutation_in _ Hperm) in Hin.
  apply zip_seq_lookup in Hin as [_ Hk].
  rewrite Nat.sub_0_r in Hk. exact Hk.
Qed.

Example sort_5_3_8 : torch_sort_descending [5; 3; 8]%nat = ([8; 5; 3], [2; 0; 1])%nat.
Proof. reflexivity. Qed.

(** *** Loops over the rows of a batch tensor *)

Lemma get_ok {X : Type} (t : list X) (i : nat) (x : X) :
  Tensor.get t i = OK x <-> t !! i = Some x.
Proof.
  unfold Tensor.get. destruct (t !! i); split; intros H;
    try discriminate H; congruence.
Qed.

Lemma set_row_ok {X : Type} (t t' : list X) (i : nat) (row : X) :
  Tensor.set_row t i row = OK t' -> (i < length t)%nat /\ t' = <[i := row]> t.
Proof.
  unfold Tensor.set_row. destruct (Nat.ltb_spec i (length t)); intros [= <-].
  split; [assumption | reflexivity].
Qed.

Section FillRows.
Context {R : Type}.
Variables (batch : list Example) (ids : list nat).
Variable upd : Example -> R -> result R.

(** Iteration [i] of the loop writes row [i], computed from the example
    [batch[ids[i]]] and from what the row held before the loop. *)
Lemma for_range_from_rows (n start : nat) (t0 t : list R) :
  Tensor.for_range_from start n (fill_rows_body batch ids upd) t0 = OK t ->
  length t = length t0 /\
  (forall i, (start <= i < start + n)%nat ->
     exists id x r0 r,
       ids !! i = Some id /\ batch !! id = Some x /\
       t0 !! i = Some r0 /\ upd x r0 = OK r /\ t !! i = Some r) /\
  (forall i, ~ (start <= i < start + n)%nat -> t !! i = t0 !! i).
Proof.
  revert start t0. induction n as [|n IH]; intros start t0 H; simpl in H.
  - injection H as <-. split; [reflexivity|]. split; [intros i Hi; lia | reflexivity].
  - apply bind_ok in H as (t1 & Hbody & H).
    unfold fill_rows_body in Hbody.
    apply bind_ok in Hbody as (id & Hid & Hbody).
    apply bind_ok in Hbody as (x & Hx & Hbody).
    apply bind_ok in Hbody as (r0 & Hr0 & Hbody).
    apply bind_ok in Hbody as (r & Hr & Hbody).
    apply set_row_ok in Hbody as [Hlt ->].
    apply get_ok in Hid. apply get_ok in Hx. apply get_ok in Hr0.
    apply IH in H as (Hlen & Hin & Hout).
    rewrite length_insert in Hlen.
    split; [exact Hlen|]. split.
    + intros i Hi. destruct (Nat.eq_dec i start) as [->|Hne].
      * exists id, x, r0, r. repeat split; try assumption.
        rewrite Hout by lia. apply list_lookup_insert_eq. exact Hlt.
      * destruct (Hin i ltac:(lia)) as (id' & x' & r0' & r' & ? & ? & Hr0' & ? & ?).
        exists id', x', r0', r'. repeat split; try assumption.
        rewrite list_lookup_insert_ne in Hr0' by lia. exact Hr0'.
    + intros i Hi. rewrite Hout by lia.
      apply list_lookup_insert_ne. lia.
Qed.

Lemma fill_rows_spec (t0 t : list R) :
  fill_rows batch ids upd t0 = OK t ->
  length t = length t0 /\
  (length ids <= length t0)%nat /\
  (forall i, (i < length ids)%nat ->
     exists id x r0 r,
       ids !! i = Some id /\ batch !! id = Some x /\
       t0 !! i = Some r0 /\ upd x r0 = OK r /\ t !! i = Some r).
Proof.
  unfold fill_rows, Tensor.for_range. intros H.
  apply for_range_from_rows in H as (Hlen & Hin & _).
  split; [exact Hlen|]. split.
  - destruct (Nat.le_gt_cases (length ids) (length t0)) as [Hle|Hgt]; [exact Hle|].
    destruct (length ids) as [|m] eqn:E; [lia|].
    destruct (Hin m ltac:(lia)) as (_ & _ & r0 & _ & _ & _ & Hr0 & _).
    apply lookup_lt_Some in Hr0. lia.
  - intros i Hi. apply Hin. lia.
Qed.

End FillRows.

Lemma mapM_ok {A B : Type} (f : A -> result B) (l : list A) (r : list B) :
  mapM f l = OK r -> Forall2 (fun a b => f a = OK b) l r.
Proof.
  revert r. induction l as [|a l IH]; intros r H; simpl in H.
  - injection H as <-. constructor.
  - apply bind_ok in H as (b & Hb & H).
    apply bind_ok in H as (k & Hk & H).
    injection H as <-. constructor; [exact Hb | apply IH, Hk].
Qed.

(** *** Assignment to slices *)

Lemma skipn_repeat {A : Type} (z : A) (m n : nat) :
  skipn m (repeat z n) = repeat z (n - m).
Proof.
  revert n. induction m as [|m IH]; intros n; simpl.
  - rewrite Nat.sub_0_r. reflexivity.
  - destruct n as [|n]; simpl; [reflexivity | apply IH].
Qed.

Lemma expand_same {X : Type} (src : list X) (n : nat) :
  length src = n -> Tensor.expand src n = OK src.
Proof. intros <-. unfold Tensor.expand. rewrite Nat.eqb_refl. reflexivity. Qed.

(** Writing a source that fits into a row of zeros pads the source. *)
Lemma assign_prefix_zeros {A : Type} (z : A) (width : nat) (src : list A) :
  (length src <= width)%nat ->
  Tensor.assign_prefix (repeat z width) (length src) src
  = OK (src ++ repeat z (width - length src)).
Proof.
  intros Hle. unfold Tensor.assign_prefix.
  rewrite repeat_length, Nat.min_l by exact Hle.
  rewrite expand_same by reflexivity. simpl.
  rewrite skipn_repeat. reflexivity.
Qed.

Lemma mapM_expand_same {X : Type} (rows : list (list X)) (n : nat) :
  Forall (fun row => length row = n) rows ->
  mapM (fun srow => Tensor.expand srow n) rows = OK rows.
Proof.
  induction 1 as [|row rows Hrow _ IH]; simpl; [reflexivity|].
  rewrite expand_same by exact Hrow. simpl. rewrite IH. reflexivity.
Qed.

Lemma zip_with_pad {A : Type} (z : A) (src : list (list A)) (m width : nat) :
  zip_with (fun srow trow => srow ++ skipn m trow) src
    (repeat (repeat z width) (length src))
  = map (fun srow => srow ++ repeat z (width - m)) src.
Proof.
  induction src as [|row src IH]; simpl; [reflexivity|].
  rewrite skipn_repeat, IH. reflexivity.
Qed.

(** Writing a mel-spectrogram of the channel count of the block into a
    block of zeros pads every channel with zeros. *)
Lemma assign_block_zeros {A : Type} (z : A) (width : nat) (src : list (list A)) :
  Tensor.rectangular src ->
  (Tensor.size1 src <= width)%nat ->
  Tensor.assign_block (Tensor.zeros2 z (length src) width)
    (Tensor.size0 (Tensor.zeros2 z (length src) width)) (Tensor.size1 src) src
  = OK (map (fun srow => srow ++ repeat z (width - Tensor.size1 src)) src).
Proof.
  intros Hrect Hle. unfold Tensor.assign_block, Tensor.size0, Tensor.zeros2.
  rewrite repeat_length, Nat.min_id.
  rewrite expand_same by reflexivity. simpl.
  destruct src as [|row0 src'] eqn:Esrc; [reflexivity|].
  rewrite <- Esrc in *.
  assert (Hs1 : Tensor.size1 (repeat (repeat z width) (length src)) = width).
  { rewrite Esrc. simpl. apply repeat_length. }
  rewrite Hs1, Nat.min_l by exact Hle.
  rewrite mapM_expand_same by exact Hrect. simpl.
  rewrite firstn_all2 by (rewrite repeat_length; lia).
  rewrite skipn_all2 by (rewrite repeat_length; lia).
  rewrite zip_with_pad, app_nil_r. reflexivity.
Qed.

(** *** The parts of a returned batch *)

Lemma lookup_map {A B : Type} (f : A -> B) (l : list A) (i : nat) :
  map f l !! i = option_map f (l !! i).
Proof.
  revert i. induction l as [|a l IH]; intros [|i]; simpl; try reflexivity.
  apply IH.
Qed.

Lemma lookup_repeat {A : Type} (z x : A) (n i : nat) :
  repeat z n !! i = Some x -> x = z.
Proof.
  revert i. induction n as [|n IH]; intros [|i] H; simpl in H;
    try discriminate H.
  - injection H as <-. reflexivity.
  - eapply IH, H.
Qed.

Lemma zip_repeat {A B : Type} (a : A) (b : B) (n : nat) :
  zip (repeat a n) (repeat b n) = repeat (a, b) n.
Proof. induction n as [|n IH]; simpl; [reflexivity | rewrite IH; reflexivity]. Qed.

Lemma list_max_ge (l : list nat) (i k : nat) :
  l !! i = Some k -> (k <= list_max l)%nat.
Proof.
  intros H. pose proof (proj1 (list_max_le l (list_max l)) (Nat.le_refl _)) as Hall.
  rewrite List.Forall_forall in Hall. apply Hall.
  apply list_elem_of_In. eapply list_elem_of_lookup_2, H.
Qed.

Lemma sorted_head_max (vals : list nat) (L i v : nat) :
  StronglySorted ge vals -> vals !! 0%nat = Some L -> vals !! i = Some v ->
  (v <= L)%nat.
Proof.
  intros Hs H0 Hi. destruct vals as [|h rest]; [discriminate H0|].
  injection H0 as ->. destruct i as [|i]; simpl in Hi.
  - injection Hi as <-. lia.
  - inversion Hs as [|? ? _ Hall]; subst.
    rewrite List.Forall_forall in Hall.
    assert (Hin : In v rest)
      by (apply list_elem_of_In; eapply list_elem_of_lookup_2, Hi).
    specialize (Hall v Hin). lia.
Qed.

(** The steps a successful [__call__] went through, for the fields that
    the properties below are about. *)
Lemma collate_inv (batch : list Example) (b : Batch) :
  __call__ batch = OK b ->
  exists vals ids L x0 mel_rows ds0,
    torch_sort_descending (map (fun x => length (ex_text x)) batch) = (vals, ids) /\
    vals !! 0%nat = Some L /\
    fill_rows batch ids
      (fun x row => Tensor.assign_prefix row (length (ex_text x)) (ex_text x))
      (Tensor.zeros2 0 (length batch) L) = OK (text_padded b) /\
    input_lengths b = vals /\
    batch !! 0%nat = Some x0 /\
    fill_rows batch ids
      (fun x '(block, _) =>
         let mel := ex_mel x in
         block' ← Tensor.assign_block block (Tensor.size0 block) (Tensor.size1 mel) mel;
         OK (block', Tensor.size1 mel))
      (zip (Tensor.zeros3 0%Q (length batch) (Tensor.size0 (ex_mel x0))
              (list_max (map (fun x => Tensor.size1 (ex_mel x)) batch)))
           (Tensor.zeros1 0%nat (length batch))) = OK mel_rows /\
    mel_padded b = map fst mel_rows /\
    output_lengths b = map snd mel_rows /\
    len_x b = map ex_len_text batch /\
    mapM (fun i => x ← Tensor.get batch i; OK (ex_audiopath x)) ids
      = OK (audiopaths b) /\
    ex_ds_mel x0 = Some ds0.
Proof.
  unfold __call__. intros H.
  destruct (torch_sort_descending _) as [vals ids] eqn:Hsort.
  apply bind_ok in H as (L & HL & H). apply get_ok in HL.
  apply bind_ok in H as (tp & Htp & H).
  apply bind_ok in H as (x0 & Hx0 & H). apply get_ok in Hx0.
  apply bind_ok in H as (mel_rows & Hmel & H).
  apply bind_ok in H as (n_formants & _ & H).
  apply bind_ok in H as (u & _ & H).
  apply bind_ok in H as (pitch_rows & _ & H).
  apply bind_ok in H as (spk & _ & H).
  apply bind_ok in H as (prior & _ & H).
  apply bind_ok in H as (paths & Hpaths & H).
  apply bind_ok in H as (cwt & _ & H).
  apply bind_ok in H as ([dsp ols] & Hds & H).
  apply bind_ok in H as (ol & Hol & H).
  injection H as <-. simpl.
  destruct (ex_ds_mel x0) as [ds0|] eqn:Hds0.
  - exists vals, ids, L, x0, mel_rows, ds0. auto 12.
  - injection Hds as <- <-. discriminate Hol.
Qed.

Lemma collate_text_padded_parts (batch : list Example) (b : Batch) :
  __call__ batch = OK b ->
  Permutation (input_lengths b) (map (fun x => length (ex_text x)) batch) /\
  len_x b = map ex_len_text batch.
Proof.
  intros H.
  apply collate_inv in H
    as (vals & ids & L & x0 & mel_rows & ds0 & Hsort & _ & _ & Hlens & _ & _ & _ & _
        & Hlx & _).
  pose proof (torch_sort_descending_spec _ _ _ Hsort) as (Hperm & _).
  rewrite Hlens. auto.
Qed.

(** A batch is returned only when its first example has a downsampled
    mel: in the default configuration [__call__] returns none. *)
Lemma collate_returns_only_with_ds_mel (batch : list Example) (b : Batch) :
  __call__ batch = OK b ->
  exists x0 ds0, batch !! 0%nat = Some x0 /\ ex_ds_mel x0 = Some ds0.
Proof.
  intros H. apply collate_inv in H
    as (vals & ids & L & x0 & mel_rows & ds0 & H).
  exists x0, ds0. tauto.
Qed.

(** Row [i] of the padded texts is the text of the example that the sort
    put at position [i], followed by zeros. *)
Lemma collate_text_row (batch : list Example) (b : Batch) (i : nat) :
  __call__ batch = OK b ->
  (i < length batch)%nat ->
  exists id x,
    ids_sorted_decreasing batch !! i = Some id /\
    batch !! id = Some x /\
    input_lengths b !! i = Some (length (ex_text x)) /\
    (length (ex_text x) <= list_max (map (fun x => length (ex_text x)) batch))%nat /\
    text_padded b !! i
    = Some (ex_text x ++
            repeat 0 (list_max (map (fun x => length (ex_text x)) batch)
                      - length (ex_text x))).
Proof.
  intros H Hi.
  apply collate_inv in H
    as (vals & ids & L & x0 & mel_rows & ds0 & Hsort & HL & Htext & Hlens & _).
  pose proof (torch_sort_descending_spec _ _ _ Hsort)
    as (Hperm & Hsorted & Hpids & Hlv & Hli & Hkey).
  rewrite length_map in Hlv, Hli.
  apply fill_rows_spec in Htext as (Hlen & _ & Hrows).
  destruct (Hrows i ltac:(lia)) as (id & x & r0 & r & Hid & Hx & Hr0 & Hupd & Hr).
  apply lookup_repeat in Hr0. subst r0.
  destruct (lookup_lt_is_Some_2 vals i ltac:(lia)) as [v Hv].
  pose proof (Hkey i id v Hid Hv) as Hk.
  rewrite lookup_map, Hx in Hk. injection Hk as <-.
  assert (HLmax : L = list_max (map (fun x => length (ex_text x)) batch)).
  { apply Nat.le_antisymm.
    - pose proof (Hkey 0%nat) as Hk0.
      destruct (lookup_lt_is_Some_2 ids 0%nat ltac:(lia)) as [id0 Hid0].
      eapply list_max_ge. eapply Hk0; eassumption.
    - apply list_max_le. rewrite List.Forall_forall. intros k Hk.
      apply (Permutation_in _ (Permutation_sym Hperm)) in Hk.
      apply list_elem_of_In, list_elem_of_lookup_1 in Hk as [j Hj].
      eapply sorted_head_max; eassumption. }
  assert (Hle : (length (ex_text x) <= L)%nat)
    by (eapply sorted_head_max; eassumption).
  rewrite assign_prefix_zeros in Hupd by exact Hle. injection Hupd as <-.
  exists id, x. unfold ids_sorted_decreasing. rewrite Hsort, Hlens, <- HLmax.
  simpl. auto.
Qed.




Lemma lookup_app_pad {A : Type} (z : A) (row : list A) (k j : nat) :
  (length row <= j < length row + k)%nat ->
  (row ++ repeat z k) !! j = Some z.
Proof.
  intros Hj. rewrite lookup_app_r by lia.
  destruct (lookup_lt_is_Some_2 (repeat z k) (j - length row)) as [y Hy].
  - rewrite repeat_length. lia.
  - rewrite Hy. f_equal. eapply lookup_repeat, Hy.
Qed.

(** C5: the text tensor of a returned batch has one row per example, every
    row as long as the longest text of the batch; [input_lengths[i]] is the
    text length of the example sorted to position [i], and the entries of
    row [i] from that column on are zero; the input lengths are the text
    lengths of the examples in descending order. *)
Theorem collate_text_padded (batch : list Example) (b : Batch) :
  __call__ batch = OK b ->
  let lens := map (fun x => length (ex_text x)) batch in
  let L := list_max lens in
  length (text_padded b) = length batch /\
  Forall (fun row => length row = L) (text_padded b) /\
  (forall i, (i < length batch)%nat ->
     exists id x,
       ids_sorted_decreasing batch !! i = Some id /\
       batch !! id = Some x /\
       input_lengths b !! i = Some (length (ex_text x))) /\
  (forall i row n j,
      text_padded b !! i = Some row ->
      input_lengths b !! i = Some n ->
      (n <= j < L)%nat ->
      row !! j = Some 0) /\
  Permutation (input_lengths b) lens /\
  StronglySorted ge (input_lengths b).
Proof.
  intros H lens L.
  pose proof (fun i => collate_text_row batch b i H) as Hrow.
  apply collate_inv in H
    as (vals & ids & L' & x0 & mel_rows & ds0 & Hsort & HL & Htext & Hlens & _).
  pose proof (torch_sort_descending_spec _ _ _ Hsort)
    as (Hperm & Hsorted & _).
  apply fill_rows_spec in Htext as (Hlen & _ & _).
  unfold Tensor.zeros2 in Hlen. rewrite repeat_length in Hlen.
  split; [exact Hlen|]. split; [|split; [|split; [|split]]].
  - apply Forall_lookup_2. intros i row Hi.
    destruct (Hrow i) as (id & x & _ & _ & _ & Hle & Hr).
    { apply lookup_lt_Some in Hi. lia. }
    rewrite Hi in Hr. injection Hr as ->.
    rewrite length_app, repeat_length. fold lens L in Hle |- *. lia.
  - intros i Hi.
    destruct (Hrow i Hi) as (id & x & Hid & Hx & Hn & _).
    exists id, x. auto.
  - intros i row n j Hi Hn Hj.
    destruct (Hrow i) as (id & x & _ & _ & Hn' & Hle & Hr).
    { apply lookup_lt_Some in Hi. lia. }
    rewrite Hi in Hr. injection Hr as ->.
    rewrite Hn in Hn'. injection Hn' as ->.
    apply lookup_app_pad. fold lens L. lia.
  - rewrite Hlens. exact Hperm.
  - rewrite Hlens. exact Hsorted.
Qed.

Example collate_batch_ds_runs :
  exists b, __call__ Fixtures.batch_ds = OK b /\
            input_lengths b = [8; 5; 3]%nat /\
            text_padded b = [[9; 10; 11; 12; 13; 14; 15; 16];
                             [1; 2; 3; 4; 5; 0; 0; 0];
                             [6; 7; 8; 0; 0; 0; 0; 0]] /\
            len_x b = [5; 3; 8] /\
            audiopaths b = ["c.pt"; "a.pt"; "b.pt"]%string.
Proof. eexists. split; [vm_compute; reflexivity|]. repeat split. Qed.

Lemma collate_text_padded_witness :
  exists b,
    __call__ Fixtures.batch_ds = OK b /\
    let lens := map (fun x => length (ex_text x)) Fixtures.batch_ds in
    let L := list_max lens in
    length (text_padded b) = length Fixtures.batch_ds /\
    Forall (fun row => length row = L) (text_padded b) /\
    (forall i, (i < length Fixtures.batch_ds)%nat ->
       exists id x,
         ids_sorted_decreasing Fixtures.batch_ds !! i = Some id /\
         Fixtures.batch_ds !! id = Some x /\
         input_lengths b !! i = Some (length (ex_text x))) /\
    (forall i row n j,
        text_padded b !! i = Some row ->
        input_lengths b !! i = Some n ->
        (n <= j < L)%nat ->
        row !! j = Some 0) /\
    Permutation (input_lengths b) lens /\
    StronglySorted ge (input_lengths b).
Proof.
  eexists.
  match goal with
  | |- __call__ ?batch = OK ?x /\ _ =>
      assert (Hrun : __call__ batch = OK x) by (vm_compute; reflexivity)
  end.
  split; [exact Hrun|].
  exact (collate_text_padded _ _ Hrun).
Defined.





(** C8: in a returned batch [len_x] lists the token counts of the examples
    in the order of the input, while [audiopaths] lists the audio paths in
    the sorted order: its entry [i] belongs to the example whose text
    length is [input_lengths[i]], the example [batch[ids[i]]] for the
    permutation [ids] of the positions that sorts the text lengths in
    descending order. *)
Theorem collate_len_x_and_audiopaths_orders (batch : list Example) (b : Batch) :
  __call__ batch = OK b ->
  len_x b = map ex_len_text batch /\
  Permutation (ids_sorted_decreasing batch) (seq 0 (length batch)) /\
  StronglySorted ge (input_lengths b) /\
  length (audiopaths b) = length batch /\
  forall i, (i < length batch)%nat ->
    exists id x,
      ids_sorted_decreasing batch !! i = Some id /\
      batch !! id = Some x /\
      input_lengths b !! i = Some (length (ex_text x)) /\
      audiopaths b !! i = Some (ex_audiopath x).
Proof.
  intros H.
  pose proof (fun i => collate_text_row batch b i H) as Hrow.
  apply collate_inv in H
    as (vals & ids & L & x0 & mel_rows & ds0 & Hsort & _ & _ & Hlens & _ & _ & _ & _
        & Hlx & Hpaths & _).
  pose proof (torch_sort_descending_spec _ _ _ Hsort)
    as (_ & Hsorted & Hpids & _ & Hli & _).
  rewrite length_map in Hpids, Hli.
  apply mapM_ok in Hpaths.
  unfold ids_sorted_decreasing in *. rewrite Hsort in *. simpl in *.
  split; [exact Hlx|]. split; [exact Hpids|].
  split; [rewrite Hlens; exact Hsorted|].
  split; [rewrite <- (Forall2_length _ _ _ Hpaths); exact Hli|].
  intros i Hi.
  destruct (Hrow i Hi) as (id & x & Hid & Hx & Hn & _).
  exists id, x. repeat split; try assumption.
  destruct (Forall2_lookup_l _ _ _ _ _ Hpaths Hid) as (path & Hp & Hf).
  rewrite Hp. unfold Tensor.get in Hf. rewrite Hx in Hf. simpl in Hf.
  injection Hf as <-. reflexivity.
Qed.

Lemma collate_len_x_and_audiopaths_orders_witness :
  exists b,
    __call__ Fixtures.batch_ds = OK b /\
    len_x b = map ex_len_text Fixtures.batch_ds /\
    Permutation (ids_sorted_decreasing Fixtures.batch_ds)
      (seq 0 (length Fixtures.batch_ds)) /\
    StronglySorted ge (input_lengths b) /\
    length (audiopaths b) = length Fixtures.batch_ds /\
    forall i, (i < length Fixtures.batch_ds)%nat ->
      exists id x,
        ids_sorted_decreasing Fixtures.batch_ds !! i = Some id /\
        Fixtures.batch_ds !! id = Some x /\
        input_lengths b !! i = Some (length (ex_text x)) /\
        audiopaths b !! i = Some (ex_audiopath x).
Proof.
  eexists.
  match goal with
  | |- __call__ ?batch = OK ?x /\ _ =>
      assert (Hrun : __call__ batch = OK x) by (vm_compute; reflexivity)
  end.
  split; [exact Hrun|].
  exact (collate_len_x_and_audiopaths_orders _ _ Hrun).
Defined.

End CollateFacts.

(** ** Properties of TTSDataset.__getitem__ *)

Module GetItemFacts.
Import TTSDataset Wf.

Lemma sr_bind_ok {S X Y : Type} (m : SR S X) (k : X -> SR S Y)
    (s s' : S) (y : Y) :
  (m ≫= k) s = (OK y, s') ->
  exists x s1, m s = (OK x, s1) /\ k x s1 = (OK y, s').
Proof.
  unfold mbind, SR_bind. destruct (m s) as [[x|e] s1]; intros H;
    [eauto | discriminate H].
Qed.

Lemma lift_ok {S X : Type} (r : result X) (s s' : S) (x : X) :
  lift r s = (OK x, s') -> r = OK x /\ s' = s.
Proof. unfold lift. intros [= -> ->]. auto. Qed.

Lemma assert_ok (c : bool) (u : unit) : assert c = OK u -> c = true.
Proof. destruct c; [reflexivity | discriminate]. Qed.

Ltac sr_step H x s1 Hx :=
  apply sr_bind_ok in H as (x & s1 & Hx & H).

Ltac lift_step H x Hx :=
  let s1 := fresh "s" in
  let Hs := fresh "Hs" in
  apply sr_bind_ok in H as (x & s1 & Hx & H);
  apply lift_ok in Hx as [Hx Hs]; subst s1.



Lemma pitch_frames_last (p : pitch_tensor) (n : nat) :
  pitch_frames p = OK n ->
  exists front, pitch_shape p = front ++ [n].
Proof.
  unfold pitch_frames. destruct (rev (pitch_shape p)) as [|k r] eqn:E;
    intros H; [discriminate H|].
  injection H as ->. exists (rev r).
  rewrite <- (rev_involutive (pitch_shape p)), E. reflexivity.
Qed.







End GetItemFacts.

(** ** Properties of BetaBinomialInterpolator *)

Module InterpolatorFacts.
Import BetaBinom BetaBinomialInterpolator Wf Invariants.
Import RoundFacts GetPriorFacts.

Lemma np_round_div_mono (n1 n2 d : Z) :
  0 < d -> n1 <= n2 -> np_round_div n1 d <= np_round_div n2 d.
Proof.
  intros Hd Hn.
  pose proof (Z.div_le_mono n1 n2 d Hd Hn) as Hq.
  pose proof (Z.div_mod n1 d ltac:(lia)) as H1.
  pose proof (Z.div_mod n2 d ltac:(lia)) as H2.
  pose proof (Z.mod_pos_bound n1 d Hd) as B1.
  pose proof (Z.mod_pos_bound n2 d Hd) as B2.
  unfold np_round_div.
  destruct (Z.eq_dec (n1 / d) (n2 / d)) as [E|E].
  - rewrite E in *.
    assert (Hr : n1 mod d <= n2 mod d) by lia.
    destruct (Z.ltb_spec (2 * (n1 mod d)) d), (Z.ltb_spec (2 * (n2 mod d)) d);
      try lia;
      destruct (Z.ltb_spec d (2 * (n1 mod d))), (Z.ltb_spec d (2 * (n2 mod d)));
      try lia; destruct (Z.even (n2 / d)); lia.
  - assert (Hlt : n1 / d + 1 <= n2 / d) by lia.
    destruct (Z.ltb_spec (2 * (n1 mod d)) d), (Z.ltb_spec (2 * (n2 mod d)) d);
      try lia;
      destruct (Z.ltb_spec d (2 * (n1 mod d))), (Z.ltb_spec d (2 * (n2 mod d)));
      try lia;
      destruct (Z.even (n1 / d)), (Z.even (n2 / d)); lia.
Qed.

(** X1: for a bucket size [to >= 1], [round] is monotone in the length: a
    longer length never gets a smaller bucket. *)
Theorem round_monotone (v1 v2 to : Z) :
  1 <= to -> v1 <= v2 ->
  exists r1 r2, round v1 to = OK r1 /\ round v2 to = OK r2 /\ r1 <= r2.
Proof.
  intros Hto Hv. do 2 eexists.
  split; [apply round_unfold, Hto|]. split; [apply round_unfold, Hto|].
  pose proof (np_round_div_mono (v1 + 1) (v2 + 1) to ltac:(lia) ltac:(lia)).
  nia.
Qed.

Lemma round_monotone_witness :
  exists r1 r2, round 149 100 = OK r1 /\ round 150 100 = OK r2 /\ r1 <= r2.
Proof. apply (round_monotone 149 150 100); lia. Defined.

(** X2: for a length [w >= 0] and a bucket size [to >= 1], the bucket
    [bw = round(w, to)] is positive and [w] is less than one and a half
    times [bw]: the zoom factor [w / bw] that [__call__] hands to
    [ndimage.zoom] lies in [[0, 3/2)]. *)
Theorem round_zoom_factor_bound (w to : Z) :
  0 <= w -> 1 <= to ->
  exists bw, round w to = OK bw /\ 0 < bw /\ 2 * (w + 1) <= 3 * bw.
Proof.
  intros Hw Hto. eexists. split; [apply round_unfold, Hto|].
  pose proof (np_round_div_near (w + 1) to ltac:(lia)) as Hn.
  destruct (Z.max_spec 1 (np_round_div (w + 1) to)) as [[? ->]|[? ->]]; nia.
Qed.

Lemma round_zoom_factor_bound_witness :
  exists bw, round 149 100 = OK bw /\ 0 < bw /\ 2 * (149 + 1) <= 3 * bw.
Proof. apply (round_zoom_factor_bound 149 100); lia. Defined.

Lemma key_eqb_refl (k : Z * Z) : key_eqb k k = true.
Proof. unfold key_eqb. rewrite !Z.eqb_refl. reflexivity. Qed.

Lemma bank_front (bw bh : Z) (b : bank_t) :
  bank_find (snd (bank bw bh b)) (bw, bh) = Some (match fst (bank bw bh b) with
                                                 | OK v => v
                                                 | Raise _ => []
                                                 end).
Proof.
  unfold bank. destruct (bank_find b (bw, bh)) as [v|]; simpl;
    unfold bank_find; simpl; rewrite key_eqb_refl; reflexivity.
Qed.

(** X3: a prior that [__call__] returns has exactly the requested shape,
    [w] rows of width [h]; it is the zoom, by the factors [w / bw] and
    [h / bh], of the transpose of
    [beta_binomial_prior_distribution(bw, bh)] for the buckets
    [bw = round(w, round_mel_len_to)] and [bh = round(h, round_text_len_to)],
    and after the call the memo table holds that matrix under [(bw, bh)]. *)
Theorem interpolator_call_returns_requested_shape
    (self : t) (env : Collaborators) (w h : Z) (b b' : bank_t)
    (ret : list (list Q)) :
  bank_ok b ->
  __call__ self env w h b = (OK ret, b') ->
  Z.of_nat (length ret) = w /\
  Z.of_nat (Tensor.size1 ret) = h /\
  exists bw bh,
    round w (round_mel_len_to self) = OK bw /\
    round h (round_text_len_to self) = OK bh /\
    ndimage_zoom env
      (Tensor.transpose 0%Q
         (beta_binomial_prior_distribution (Z.to_nat bw) (Z.to_nat bh) 1))
      (inject_Z w / inject_Z bw, inject_Z h / inject_Z bh)%Q = Some ret /\
    bank_find b' (bw, bh)
    = Some (beta_binomial_prior_distribution (Z.to_nat bw) (Z.to_nat bh) 1) /\
    bank_ok b'.
Proof.
  intros Hb H. unfold __call__ in H.
  unfold mbind, SR_bind, lift, mret, SR_ret in H.
  destruct (round w _) as [bw|e] eqn:Hbw; [|discriminate H].
  destruct (round h _) as [bh|e] eqn:Hbh; [|discriminate H].
  pose proof (bank_front bw bh b) as Hfront.
  destruct (bank_spec b bw bh Hb) as (b1 & Hbank & Hb1).
  rewrite Hbank in H, Hfront. simpl in Hfront.
  destruct (ndimage_zoom env _ _) as [z|] eqn:Hz; simpl in H; [|discriminate H].
  destruct (Z.eqb_spec (Z.of_nat (Tensor.size0 z)) w) as [Hw|]; simpl in H;
    [|discriminate H].
  destruct (Z.eqb_spec (Z.of_nat (Tensor.size1 z)) h) as [Hh|]; simpl in H;
    [|discriminate H].
  injection H as <- <-.
  split; [exact Hw|]. split; [exact Hh|].
  exists bw, bh. auto.
Qed.

Lemma interpolator_call_returns_requested_shape_witness :
  exists ret b',
    __call__ MoreFixtures.unit_interpolator MoreFixtures.crop_env 1 1 [] = (OK ret, b') /\
    Z.of_nat (length ret) = 1 /\
    Z.of_nat (Tensor.size1 ret) = 1 /\
    exists bw bh,
      round 1 (round_mel_len_to MoreFixtures.unit_interpolator) = OK bw /\
      round 1 (round_text_len_to MoreFixtures.unit_interpolator) = OK bh /\
      ndimage_zoom MoreFixtures.crop_env
        (Tensor.transpose 0%Q
           (beta_binomial_prior_distribution (Z.to_nat bw) (Z.to_nat bh) 1))
        (inject_Z 1 / inject_Z bw, inject_Z 1 / inject_Z bh)%Q = Some ret /\
      bank_find b' (bw, bh)
      = Some (beta_binomial_prior_distribution (Z.to_nat bw) (Z.to_nat bh) 1) /\
      bank_ok b'.
Proof.
  do 2 eexists.
  match goal with
  | |- __call__ ?s ?e ?w ?h ?b = (OK ?r, ?b') /\ _ =>
      assert (Hrun : __call__ s e w h b = (OK r, b')) by (vm_compute; reflexivity)
  end.
  split; [exact Hrun|].
  exact (interpolator_call_returns_requested_shape _ _ _ _ _ _ _ bank_ok_nil Hrun).
Defined.

(** *** The memo table stays within its size *)

Lemma find_none_not_in (b : bank_t) (k : Z * Z) :
  bank_find b k = None -> ~ In k (map fst b).
Proof.
  unfold bank_find. intros H Hin.
  apply List.in_map_iff in Hin as (e & <- & He).
  destruct (List.find _ b) as [e'|] eqn:Hf; [discriminate H|].
  pose proof (List.find_none _ _ Hf e He) as Hk.
  simpl in Hk. rewrite key_eqb_refl in Hk. discriminate Hk.
Qed.

Lemma key_eqb_neq (k1 k2 : Z * Z) : key_eqb k1 k2 = false -> k1 <> k2.
Proof. intros H ->. rewrite key_eqb_refl in H. discriminate H. Qed.

Lemma filter_other_keys (b : bank_t) (k : Z * Z) :
  List.NoDup (map fst b) ->
  List.NoDup (map fst (List.filter (fun e => negb (key_eqb (fst e) k)) b)) /\
  ~ In k (map fst (List.filter (fun e => negb (key_eqb (fst e) k)) b)) /\
  (length (List.filter (fun e => negb (key_eqb (fst e) k)) b) <= length b)%nat /\
  (In k (map fst b) ->
   (length (List.filter (fun e => negb (key_eqb (fst e) k)) b) < length b)%nat).
Proof.
  induction b as [|e b IH]; intros Hnd; simpl.
  - repeat split; try constructor; auto. intros [].
  - inversion Hnd as [|? ? Hnotin Hnd']; subst.
    destruct (IH Hnd') as (H1 & H2 & H3 & H4).
    destruct (key_eqb (fst e) k) eqn:E; simpl.
    + repeat split; try assumption; lia.
    + apply key_eqb_neq in E. repeat split.
      * constructor; [|exact H1].
        intros Hin. apply Hnotin.
        apply List.in_map_iff in Hin as (e' & He' & Hf).
        apply List.filter_In in Hf as [Hf _].
        apply List.in_map_iff. eauto.
      * intros [Hk|Hk]; [congruence | contradiction].
      * lia.
      * intros [Hk|Hk]; [congruence|]. specialize (H4 Hk). lia.
Qed.

Lemma removelast_map {A B : Type} (f : A -> B) (l : list A) :
  map f (removelast l) = removelast (map f l).
Proof.
  induction l as [|x l IH]; [reflexivity|].
  destruct l as [|y l]; [reflexivity|].
  change (f x :: map f (removelast (y :: l)) = f x :: removelast (map f (y :: l))).
  rewrite IH. reflexivity.
Qed.

Lemma removelast_in {A : Type} (l : list A) (x : A) :
  In x (removelast l) -> In x l.
Proof.
  induction l as [|y l IH]; [intros []|].
  destruct l as [|z l]; [intros []|].
  intros [->|H]; [left; reflexivity | right; apply IH, H].
Qed.

Lemma removelast_nodup {A : Type} (l : list A) : List.NoDup l -> List.NoDup (removelast l).
Proof.
  induction 1 as [|x l Hx Hl IH]; [constructor|].
  destruct l as [|y l]; [constructor|].
  constructor; [intros Hin; apply Hx, removelast_in, Hin | exact IH].
Qed.

Lemma removelast_length {A : Type} (l : list A) :
  length (removelast l) = (length l - 1)%nat.
Proof.
  induction l as [|x l IH]; [reflexivity|].
  destruct l as [|y l]; [reflexivity|].
  change (S (length (removelast (y :: l))) = (S (length (y :: l)) - 1)%nat).
  rewrite IH. simpl. lia.
Qed.

Lemma bank_lru_wf (bw bh : Z) (b : bank_t) :
  lru_wf b -> lru_wf (snd (bank bw bh b)).
Proof.
  intros [Hlen Hnd]. unfold bank.
  destruct (bank_find b (bw, bh)) as [v|] eqn:Hf; simpl.
  - destruct (filter_other_keys b (bw, bh) Hnd) as (H1 & H2 & H3 & H4).
    assert (Hin : In (bw, bh) (map fst b)).
    { unfold bank_find in Hf.
      destruct (List.find _ b) as [e|] eqn:Hfe; [|discriminate Hf].
      apply List.find_some in Hfe as [He Hk]. apply key_eqb_eq in Hk.
      apply List.in_map_iff. eauto. }
    specialize (H4 Hin).
    split; simpl; [lia | constructor; assumption].
  - apply find_none_not_in in Hf.
    destruct (Nat.ltb_spec (length b) lru_maxsize).
    + split; simpl; [lia | constructor; assumption].
    + split; simpl.
      * rewrite removelast_length. unfold lru_maxsize in *. lia.
      * rewrite removelast_map. constructor.
        -- intros Hin. apply Hf, removelast_in, Hin.
        -- apply removelast_nodup, Hnd.
Qed.

Lemma call_state (self : t) (env : Collaborators) (w h : Z) (b : bank_t) :
  snd (__call__ self env w h b) = b \/
  exists bw bh, snd (__call__ self env w h b) = snd (bank bw bh b).
Proof.
  unfold __call__, mbind, SR_bind, lift, mret, SR_ret.
  destruct (round w _) as [bw|e]; [|left; reflexivity].
  destruct (round h _) as [bh|e]; [|left; reflexivity].
  right. exists bw, bh.
  destruct (bank bw bh b) as [[m|e] b1]; simpl; [|reflexivity].
  destruct (call _ _) as [ret|e]; simpl; [|reflexivity].
  destruct (assert _) as [[]|e]; simpl; [|reflexivity].
  destruct (assert _) as [[]|e]; reflexivity.
Qed.

Lemma bank_lru_wf_call (self : t) (env : Collaborators) (w h : Z) (b : bank_t) :
  lru_wf b -> lru_wf (snd (__call__ self env w h b)).
Proof.
  intros Hb. destruct (call_state self env w h b) as [->|(bw & bh & ->)];
    [exact Hb | apply bank_lru_wf, Hb].
Qed.

Lemma lru_wf_nil : lru_wf [].
Proof. split; [simpl; unfold lru_maxsize; lia | constructor]. Qed.

(** X4: the memo table of the interpolator stays a bounded cache.  After
    any sequence of requests to an interpolator that started with an empty
    table, whether they returned or raised, the table holds at most the 128
    entries of [functools.lru_cache], one per bucket pair, and each entry
    is the matrix of [beta_binomial_prior_distribution] for its key. *)
Theorem interpolator_bank_bounded_and_sound
    (self : t) (env : Collaborators) (requests : list (Z * Z)) :
  let table :=
    fold_left (fun b wh => snd (__call__ self env (fst wh) (snd wh) b)) requests [] in
  (length table <= 128)%nat /\ List.NoDup (map fst table) /\ bank_ok table.
Proof.
  intros table.
  assert (H : forall b, lru_wf b /\ bank_ok b ->
            lru_wf (fold_left (fun b wh => snd (__call__ self env (fst wh) (snd wh) b))
                      requests b) /\
            bank_ok (fold_left (fun b wh => snd (__call__ self env (fst wh) (snd wh) b))
                       requests b)).
  { induction requests as [|[w h] rest IH]; intros b [Hl Hb]; simpl; [auto|].
    apply IH. split; [apply bank_lru_wf_call, Hl|].
    destruct (interpolator_call_spec self env w h b Hb) as (b' & -> & Hb').
    exact Hb'. }
  destruct (H [] (conj lru_wf_nil bank_ok_nil)) as [[Hlen Hnd] Hok].
  auto.
Qed.

End InterpolatorFacts.

(** ** Further properties of beta_binomial_prior_distribution *)

Module PriorMatrixFacts.
Import BetaBinom BetaBinomFacts.

Local Open Scope Q_scope.

Lemma row_sum_nonneg (row : list Q) :
  Forall (fun x => 0 <= x) row -> 0 <= row_sum row.
Proof.
  induction 1 as [|x row Hx _ IH]; simpl; [apply Qle_refl|].
  set (r := row_sum row) in *. clearbody r. lra.
Qed.

Lemma row_sum_ge_entry (row : list Q) (x : Q) :
  Forall (fun y => 0 <= y) row -> In x row -> x <= row_sum row.
Proof.
  induction 1 as [|y row Hy Hrow IH]; intros Hin; [contradiction|].
  pose proof (row_sum_nonneg row Hrow) as Hs. simpl.
  set (r := row_sum row) in *. clearbody r.
  destruct Hin as [->|Hin]; [lra | specialize (IH Hin); lra].
Qed.

Lemma prior_row (P M i : nat) :
  (i < M)%nat ->
  nth_error (beta_binomial_prior_distribution P M 1) i
  = Some (map (betabinom_pmf P (S i) (S (M - S i))) (seq 0 P)).
Proof.
  intros Hi. unfold beta_binomial_prior_distribution.
  rewrite nth_error_map_seq by exact Hi. f_equal.
  rewrite !Nat.mul_1_l. replace (M + 1 - (1 + i))%nat with (S (M - S i)) by lia.
  reflexivity.
Qed.

(** X5: for every text length [P] and mel length [M] the matrix of
    [beta_binomial_prior_distribution] has [M] rows of [P] entries, and every
    entry lies strictly between 0 and 1. *)
Theorem prior_entries_between_0_and_1 (P M : nat) :
  let m := beta_binomial_prior_distribution P M 1 in
  length m = M /\
  Forall (fun row => length row = P /\ Forall (fun x => 0 < x /\ x < 1) row) m.
Proof.
  intros m. subst m. split.
  - unfold beta_binomial_prior_distribution. rewrite length_map, length_seq.
    reflexivity.
  - rewrite List.Forall_forall. intros row Hrow.
    apply List.In_nth_error in Hrow as [i Hi].
    assert (HiM : (i < M)%nat).
    { assert (Hsome : nth_error (beta_binomial_prior_distribution P M 1) i <> None)
        by congruence.
      apply List.nth_error_Some in Hsome.
      unfold beta_binomial_prior_distribution in Hsome.
      rewrite length_map, length_seq in Hsome. exact Hsome. }
    rewrite prior_row in Hi by exact HiM. injection Hi as <-.
    split; [rewrite length_map, length_seq; reflexivity|].
    assert (Hpos : Forall (fun x => 0 < x)
                     (map (betabinom_pmf P (S i) (S (M - S i))) (seq 0 P))).
    { rewrite List.Forall_forall. intros x Hx.
      apply List.in_map_iff in Hx as (k & <- & Hk). apply in_seq in Hk.
      apply betabinom_pmf_pos. lia. }
    pose proof (betabinom_row_sum P i (M - S i)) as Hsum.
    pose proof (betabinom_pmf_pos P i (M - S i) P (Nat.le_refl P)) as Hlast.
    rewrite List.Forall_forall in Hpos |- *. intros x Hx.
    split; [apply Hpos, Hx|].
    assert (Hle : x <= row_sum (map (betabinom_pmf P (S i) (S (M - S i))) (seq 0 P))).
    { apply row_sum_ge_entry; [|exact Hx].
      rewrite List.Forall_forall. intros y Hy. apply Qlt_le_weak, Hpos, Hy. }
    set (r := row_sum _) in *. set (p := betabinom_pmf P (S i) (S (M - S i)) P) in *.
    clearbody r p. lra.
Qed.

(** *** Symmetry *)

Lemma choose_fact (n k : nat) :
  (k <= n)%nat -> (choose n k * (fact k * fact (n - k)) = fact n)%nat.
Proof.
  revert k. induction n as [|n IH]; intros k Hk.
  - replace k with 0%nat by lia. reflexivity.
  - destruct k as [|k].
    + rewrite choose_0_r, Nat.sub_0_r. change (fact 0) with 1%nat.
      set (f := fact (S n)). lia.
    + change (choose (S n) (S k)) with (choose n k + choose n (S k))%nat.
      replace (S n - S k)%nat with (n - k)%nat by lia.
      destruct (Nat.eq_dec k n) as [->|Hne].
      * rewrite (choose_gt n (S n)) by lia. rewrite choose_diag, Nat.sub_diag.
        change (fact 0) with 1%nat. set (f := fact (S n)). lia.
      * pose proof (IH k ltac:(lia)) as H1.
        pose proof (IH (S k) ltac:(lia)) as H2.
        replace (n - k)%nat with (S (n - S k)) in * by lia.
        rewrite !fact_succ in *.
        set (c1 := choose n k) in *. set (c2 := choose n (S k)) in *.
        set (fk := fact k) in *. set (fr := fact (n - S k)) in *.
        set (fn := fact n) in *.
        assert (E : S (n - S k) = (n - k)%nat) by lia.
        nia.
Qed.

Lemma choose_sym (n k : nat) : (k <= n)%nat -> choose n k = choose n (n - k).
Proof.
  intros Hk.
  pose proof (choose_fact n k Hk) as H1.
  pose proof (choose_fact n (n - k) ltac:(lia)) as H2.
  replace (n - (n - k))%nat with k in H2 by lia.
  pose proof (lt_O_fact k). pose proof (lt_O_fact (n - k)).
  apply (Nat.mul_cancel_r _ _ (fact k * fact (n - k))); [nia|].
  rewrite H1. rewrite <- H2. ring.
Qed.

Lemma beta_sym (x y : nat) : beta x y = beta y x.
Proof.
  unfold beta. rewrite (Nat.mul_comm (fact (x - 1))), (Nat.add_comm x y).
  reflexivity.
Qed.

Lemma betabinom_pmf_sym (n a b k : nat) :
  (k <= n)%nat -> betabinom_pmf n a b k = betabinom_pmf n b a (n - k).
Proof.
  intros Hk. unfold betabinom_pmf.
  destruct (Nat.leb_spec k n); [|lia].
  destruct (Nat.leb_spec (n - k) n); [|lia].
  rewrite (choose_sym n k Hk), (beta_sym a b), (beta_sym (k + a)).
  replace (n - (n - k))%nat with k by lia. reflexivity.
Qed.

(** X6: the matrix of [beta_binomial_prior_distribution] is symmetric under
    the reversal of both axes, up to the one support point the code leaves
    out: the entry of row [i] at position [k] is the entry of row [M+1-i]
    at position [P-k], for rows [1 <= i <= M] and positions
    [1 <= k <= P-1]. *)
Theorem prior_point_symmetry (P M i k : nat) (row row' : list Q) (x : Q) :
  (1 <= i <= M)%nat -> (1 <= k < P)%nat ->
  nth_error (beta_binomial_prior_distribution P M 1) (i - 1) = Some row ->
  nth_error (beta_binomial_prior_distribution P M 1) (M - i) = Some row' ->
  nth_error row k = Some x ->
  nth_error row' (P - k) = Some x.
Proof.
  intros Hi Hk Hrow Hrow' Hx.
  rewrite prior_row in Hrow by lia. rewrite prior_row in Hrow' by lia.
  injection Hrow as <-. injection Hrow' as <-.
  rewrite nth_error_map_seq in Hx by lia. injection Hx as <-.
  rewrite nth_error_map_seq by lia. f_equal. simpl.
  rewrite (betabinom_pmf_sym P _ _ k) by lia.
  f_equal; lia.
Qed.

Lemma prior_point_symmetry_witness :
  nth_error (map (betabinom_pmf 3 2 1) (seq 0 3)) (3 - 1)
  = Some (betabinom_pmf 3 1 2 1).
Proof.
  apply (prior_point_symmetry 3 2 1 1
           (map (betabinom_pmf 3 1 2) (seq 0 3))
           (map (betabinom_pmf 3 2 1) (seq 0 3)));
    [lia | lia | reflexivity | reflexivity | reflexivity].
Defined.

End PriorMatrixFacts.

(** ** The caches of TTSDataset *)

Module CacheFacts.
Import BetaBinom TTSDataset Wf Invariants.
Import GetItemFacts GetPriorFacts InterpolatorFacts PriorMatrixFacts.

(** *** The disk cache of alignment priors *)

Lemma mkdir_parents_ok (p : list string) (st st1 : State) (u : unit) :
  mkdir_parents p st = (OK u, st1) ->
  prior_files st1 = prior_files st /\ pitch_files st1 = pitch_files st /\
  interp_bank st1 = interp_bank st.
Proof.
  unfold mkdir_parents. destruct (existsb _ _); intros H;
    [discriminate H | injection H as _ <-; auto].
Qed.

Lemma save_prior_ok (m : list (list Q)) (p : list string) (st st1 : State) (u : unit) :
  save_prior m p st = (OK u, st1) ->
  prior_files st1 = <[p := m]> (prior_files st) /\
  pitch_files st1 = pitch_files st /\ interp_bank st1 = interp_bank st.
Proof.
  unfold save_prior. destruct (bool_decide _); intros H;
    [discriminate H | injection H as _ <-; auto].
Qed.

Lemma save_pitch_ok (m : pitch_tensor) (p : list string) (st st1 : State) (u : unit) :
  save_pitch m p st = (OK u, st1) ->
  pitch_files st1 = <[p := m]> (pitch_files st) /\
  prior_files st1 = prior_files st /\ interp_bank st1 = interp_bank st.
Proof.
  unfold save_pitch. destruct (bool_decide _); intros H;
    [discriminate H | injection H as _ <-; auto].
Qed.

(** What a request in the disk-cached mode does: it finds the cache file of
    the index, or computes the exact matrix and stores it there. *)
Lemma get_prior_disk_cache_inv (self : t) (env : Collaborators)
    (index mel_len text_len : nat) (st st1 : State) (m : list (list Q))
    (tmp_dir : string) :
  use_betabinomial_interpolator self = false ->
  betabinomial_tmp_dir self = Some tmp_dir ->
  get_prior self env index mel_len text_len st = (OK m, st1) ->
  exists entry audiopath cached_fpath,
    Tensor.get (audiopaths_and_text self) index = OK entry /\
    unpack_first entry = OK audiopath /\
    cache_path self tmp_dir audiopath = OK cached_fpath /\
    prior_files st1 !! cached_fpath = Some m /\
    ((prior_files st !! cached_fpath = Some m /\ st1 = st) \/
     (prior_files st !! cached_fpath = None /\
      m = beta_binomial_prior_distribution text_len mel_len 1)).
Proof.
  intros Hu Ht H. unfold get_prior in H. rewrite Hu, Ht in H.
  lift_step H entry Hentry.
  lift_step H audiopath Hpath.
  lift_step H cached_fpath Hcp.
  sr_step H st0 s1 Hst. injection Hst as <- <-.
  exists entry, audiopath, cached_fpath.
  split; [exact Hentry|]. split; [exact Hpath|]. split; [exact Hcp|].
  destruct (prior_files st !! cached_fpath) as [m0|] eqn:Hlook.
  - injection H as <- <-. split; [exact Hlook|]. left. auto.
  - sr_step H u1 s1 Hmk. sr_step H u2 s2 Hsave. injection H as <- <-.
    apply mkdir_parents_ok in Hmk as (Hp1 & _).
    apply save_prior_ok in Hsave as (Hp2 & _).
    split; [rewrite Hp2; apply lookup_insert_eq|]. right. auto.
Qed.

(** X7: in the disk-cached mode the cache of alignment priors is keyed by
    the example alone.  Once [get_prior] has returned a matrix for an
    index, every later request for that index returns the same matrix
    from the cache, whatever mel and text lengths it asks for, and changes
    nothing. *)
Theorem get_prior_disk_cache_hit_after_success
    (self : t) (env : Collaborators) (index mel_len text_len : nat)
    (st st1 : State) (m : list (list Q)) (tmp_dir : string) :
  use_betabinomial_interpolator self = false ->
  betabinomial_tmp_dir self = Some tmp_dir ->
  get_prior self env index mel_len text_len st = (OK m, st1) ->
  forall mel_len' text_len',
    get_prior self env index mel_len' text_len' st1 = (OK m, st1).
Proof.
  intros Hu Ht H mel_len' text_len'.
  apply (get_prior_disk_cache_inv _ _ _ _ _ _ _ _ _ Hu Ht) in H
    as (entry & audiopath & cached_fpath & Hentry & Hpath & Hcp & Hlook & _).
  unfold get_prior. rewrite Hu, Ht.
  unfold mbind, SR_bind, lift, get_state.
  rewrite Hentry, Hpath, Hcp, Hlook. reflexivity.
Qed.

Lemma get_prior_disk_cache_hit_after_success_witness :
  exists self m st1,
    Fixtures.dataset_of Fixtures.cfg_disk_cache = Some self /\
    get_prior self Fixtures.env 0 2 3 initial_state = (OK m, st1) /\
    forall mel_len' text_len',
      get_prior self Fixtures.env 0 mel_len' text_len' st1 = (OK m, st1).
Proof.
  do 3 eexists. split; [reflexivity|].
  match goal with
  | |- get_prior ?s ?e ?i ?a ?b ?st = (OK ?x, ?st') /\ _ =>
      assert (Hrun : get_prior s e i a b st = (OK x, st'))
        by (vm_compute; reflexivity);
      split; [exact Hrun|];
      apply (get_prior_disk_cache_hit_after_success s e i a b st _ _ "bb");
      [reflexivity | reflexivity | exact Hrun]
  end.
Defined.

(** *** The shape of a prior *)

Lemma with_bank_ok {X : Type} (m : SR BetaBinomialInterpolator.bank_t X)
    (st st1 : State) (x : X) :
  with_bank m st = (OK x, st1) ->
  exists b, m (interp_bank st) = (OK x, b) /\
            st1 = mkState (prior_files st) (pitch_files st) (dirs st) b.
Proof.
  unfold with_bank. destruct (m (interp_bank st)) as [r b].
  intros [= -> <-]. eauto.
Qed.

Lemma interpolator_call_shape (self : BetaBinomialInterpolator.t)
    (env : Collaborators) (w h : Z) (b b' : BetaBinomialInterpolator.bank_t)
    (ret : list (list Q)) :
  BetaBinomialInterpolator.__call__ self env w h b = (OK ret, b') ->
  Z.of_nat (length ret) = w /\ Z.of_nat (Tensor.size1 ret) = h.
Proof.
  unfold BetaBinomialInterpolator.__call__.
  unfold mbind, SR_bind, lift, mret, SR_ret. intros H.
  destruct (BetaBinomialInterpolator.round w _) as [bw|e]; [|discriminate H].
  destruct (BetaBinomialInterpolator.round h _) as [bh|e]; [|discriminate H].
  destruct (BetaBinomialInterpolator.bank bw bh b) as [[m|e] b1]; [|discriminate H].
  destruct (call _ _) as [z|e]; [|discriminate H].
  destruct (Z.eqb_spec (Z.of_nat (Tensor.size0 z)) w) as [Hw|]; simpl in H;
    [|discriminate H].
  destruct (Z.eqb_spec (Z.of_nat (Tensor.size1 z)) h) as [Hh|]; simpl in H;
    [|discriminate H].
  injection H as <- _. auto.
Qed.

Lemma exact_prior_shape (text_len mel_len : nat) :
  let m := beta_binomial_prior_distribution text_len mel_len 1 in
  length m = mel_len /\ (m <> [] -> Tensor.size1 m = text_len).
Proof.
  unfold beta_binomial_prior_distribution. simpl.
  split; [rewrite length_map, length_seq; reflexivity|].
  destruct mel_len as [|n]; simpl; [congruence|].
  intros _. rewrite length_map, length_seq. reflexivity.
Qed.

(** X8: a prior that [get_prior] returns has the requested shape,
    [mel_len] rows of [text_len] entries, in every mode -- interpolated,
    computed exactly, or computed and stored on a cache miss; only a matrix
    read from the disk cache is returned as it is stored. *)
Theorem get_prior_has_requested_shape_unless_cached
    (self : t) (env : Collaborators) (index mel_len text_len : nat)
    (st st1 : State) (m : list (list Q)) :
  get_prior self env index mel_len text_len st = (OK m, st1) ->
  (length m = mel_len /\ (m <> [] -> Tensor.size1 m = text_len)) \/
  (exists path, prior_files st !! path = Some m /\ st1 = st).
Proof.
  intros H.
  destruct (use_betabinomial_interpolator self) eqn:Hu.
  - left. unfold get_prior in H. rewrite Hu in H.
    lift_step H interp Hinterp.
    apply with_bank_ok in H as (b & H & _).
    apply interpolator_call_shape in H as [Hw Hh].
    split; [lia | intros _; lia].
  - destruct (betabinomial_tmp_dir self) as [tmp_dir|] eqn:Ht.
    + apply (get_prior_disk_cache_inv _ _ _ _ _ _ _ _ _ Hu Ht) in H
        as (entry & audiopath & cached_fpath & _ & _ & _ & _ & [[Hhit ->]|[_ ->]]).
      * right. eauto.
      * left. apply exact_prior_shape.
    + unfold get_prior in H. rewrite Hu, Ht in H. injection H as <- _.
      left. apply exact_prior_shape.
Qed.

Lemma get_prior_has_requested_shape_unless_cached_witness :
  exists self m st1,
    Fixtures.dataset_of MoreFixtures.cfg_exact = Some self /\
    get_prior self Fixtures.env 0 2 3 initial_state = (OK m, st1) /\
    ((length m = 2%nat /\ (m <> [] -> Tensor.size1 m = 3%nat)) \/
     (exists path, prior_files initial_state !! path = Some m /\ st1 = initial_state)).
Proof.
  do 3 eexists. split; [reflexivity|].
  match goal with
  | |- get_prior ?s ?e ?i ?a ?b ?st = (OK ?x, ?st') /\ _ =>
      assert (Hrun : get_prior s e i a b st = (OK x, st'))
        by (vm_compute; reflexivity);
      split; [exact Hrun|];
      exact (get_prior_has_requested_shape_unless_cached s e i a b st _ _ Hrun)
  end.
Defined.

(** *** The disk cache of pitch contours *)

(** X9: the pitch cache is a cache.  With pitch contours estimated and a
    cache directory set, once [get_pitch] has returned a contour for an
    index, every later request for that index returns the same contour
    from the cache, whatever frame count it asks for, and changes
    nothing. *)
Theorem get_pitch_cache_hit_after_success
    (self : t) (env : Collaborators) (index mel_len : nat)
    (st st1 : State) (p : pitch_tensor) (tmp_dir : string) :
  load_pitch_from_disk self = false ->
  pitch_tmp_dir self = Some tmp_dir ->
  get_pitch self env index mel_len st = (OK p, st1) ->
  forall mel_len', get_pitch self env index mel_len' st1 = (OK p, st1).
Proof.
  intros Hload Htmp H mel_len'. unfold get_pitch in H.
  lift_step H entry Hentry.
  lift_step H audiopath Hpath.
  lift_step H spk Hspk.
  rewrite Hload, Htmp in H.
  lift_step H cached_fpath Hcp.
  sr_step H st0 s1 Hst. injection Hst as <- <-.
  assert (Hlook : pitch_files st1 !! cached_fpath = Some p /\
                  (pitch_files st !! cached_fpath = Some p -> st1 = st)).
  { destruct (pitch_files st !! cached_fpath) as [q|] eqn:Hq.
    - injection H as <- <-. auto.
    - lift_step H pm Hpm.
      sr_step H u s1 Hu.
      sr_step Hu u1 s2 Hmk.
      injection H as <- <-.
      apply mkdir_parents_ok in Hmk as (_ & Hp1 & _).
      apply save_pitch_ok in Hu as (Hp2 & _).
      split; [rewrite Hp2; apply lookup_insert_eq | discriminate]. }
  destruct Hlook as [Hlook _].
  unfold get_pitch, mbind, SR_bind, lift, get_state.
  unfold mbind in Hspk.
  rewrite Hentry, Hpath, Hspk, Hload, Htmp, Hcp, Hlook. reflexivity.
Qed.

Lemma get_pitch_cache_hit_after_success_witness :
  exists self p st1,
    Fixtures.dataset_of MoreFixtures.cfg_pitch_cache = Some self /\
    get_pitch self Fixtures.env 0 3 initial_state = (OK p, st1) /\
    forall mel_len', get_pitch self Fixtures.env 0 mel_len' st1 = (OK p, st1).
Proof.
  do 3 eexists. split; [reflexivity|].
  match goal with
  | |- get_pitch ?s ?e ?i ?a ?st = (OK ?x, ?st') /\ _ =>
      assert (Hrun : get_pitch s e i a st = (OK x, st'))
        by (vm_compute; reflexivity);
      split; [exact Hrun|];
      apply (get_pitch_cache_hit_after_success s e i a st _ _ "pp");
      [reflexivity | reflexivity | exact Hrun]
  end.
Defined.

End CacheFacts.

(** ** Construction of the data set, downsampled mels and texts *)

Module LoaderFacts.
Import TTSDataset Wf Invariants.
Import GetMelFacts.

(** The fields that [__init__] copies or derives from the configuration. *)
Lemma init_fields (env : Collaborators) (cfg : Config) (self : t) :
  __init__ env cfg = OK self ->
  load_mel_from_disk self = cfg_load_mel_from_disk cfg /\
  max_wav_value self
    = (if negb (cfg_load_mel_from_disk cfg) then Some (cfg_max_wav_value cfg) else None) /\
  mels_downsampled self = cfg_mels_downsampled cfg /\
  load_ds_mel_from_disk self = cfg_load_ds_mel_from_disk cfg /\
  stft_ds self
    = (if negb (cfg_load_ds_mel_from_disk cfg) && cfg_mels_downsampled cfg
       then Some (mkStft (cfg_filter_length cfg) (Some 10) (Some 40)
                    (cfg_n_mel_channels cfg) (Some 800) (cfg_mel_fmin cfg)
                    (Some 400%Q))
       else None) /\
  load_pitch_from_disk self = cfg_load_pitch_from_disk cfg /\
  pitch_tmp_dir self = cfg_pitch_online_dir cfg.
Proof.
  unfold __init__. intros H.
  apply bind_ok in H as (entries & _ & H).
  do 5 (apply bind_ok in H as (? & _ & H)).
  injection H as <-. simpl. repeat split; reflexivity.
Qed.

(** X10: a downsampled mel computed from the waveform is checked against
    the fixed sampling rate 800: [get_ds_mel] raises the sample-rate error
    exactly when the loaded waveform has another rate.  At the rate 800 it
    divides by [self.max_wav_value], an attribute that exists only when the
    mels themselves are computed from waveforms: with the mels loaded from
    disk (the default) it raises [AttributeError], and otherwise it returns
    what the second STFT (hop 10, window 40, 800 Hz, fmax 400) computes. *)
Theorem get_ds_mel_sampling_rate_and_attribute
    (env : Collaborators) (cfg : Config) (self : t)
    (filename : string) (audio : list Q) (sr : Z) :
  __init__ env cfg = OK self ->
  cfg_mels_downsampled cfg = true ->
  cfg_load_ds_mel_from_disk cfg = false ->
  load_wav_to_torch env filename = Some (audio, sr) ->
  (get_ds_mel self env filename = Raise (SampleRateMismatch sr (Some 800))
   <-> sr <> 800) /\
  (sr = 800 -> cfg_load_mel_from_disk cfg = true ->
   get_ds_mel self env filename = Raise AttributeError) /\
  (forall d,
      sr = 800 -> cfg_load_mel_from_disk cfg = false ->
      cfg_max_wav_value cfg = Some d ->
      get_ds_mel self env filename
      = call "stft.mel_spectrogram"
          (mel_spectrogram env
             (mkStft (cfg_filter_length cfg) (Some 10) (Some 40)
                (cfg_n_mel_channels cfg) (Some 800) (cfg_mel_fmin cfg)
                (Some 400%Q))
             (map (fun x => x / d)%Q audio))).
Proof.
  intros Hinit Hds Hdisk Hload.
  destruct (init_fields env cfg self Hinit)
    as (Hmel & Hmax & _ & Hfd & Hstft & _).
  rewrite Hdisk, Hds in Hstft. simpl in Hstft.
  unfold get_ds_mel, mel_from_wav. rewrite Hfd, Hdisk, Hload, Hstft, Hmax.
  cbn -[Z.eqb]. destruct (Z.eqb_spec sr 800) as [->|Hne]; simpl.
  - split; [|split].
    + split; [|congruence].
      destruct (cfg_load_mel_from_disk cfg); simpl; [intros H; discriminate H|].
      destruct (cfg_max_wav_value cfg); simpl; [|intros H; discriminate H].
      destruct (mel_spectrogram env _ _); simpl; intros H; discriminate H.
    + intros _ ->. reflexivity.
    + intros d _ -> ->. reflexivity.
  - split; [|split].
    + split; [intros _; exact Hne | reflexivity].
    + intros Heq. contradiction.
    + intros d Heq. contradiction.
Qed.

Lemma get_ds_mel_sampling_rate_and_attribute_witness :
  exists self,
    Fixtures.dataset_of MoreFixtures.cfg_ds_from_wav = Some self /\
    (get_ds_mel self Fixtures.env "data/wavs/a.wav"
       = Raise (SampleRateMismatch 22050 (Some 800))
     <-> 22050 <> 800).
Proof.
  eexists. split; [reflexivity|].
  exact (proj1 (get_ds_mel_sampling_rate_and_attribute Fixtures.env
                  MoreFixtures.cfg_ds_from_wav _ "data/wavs/a.wav"
                  [1%Q; 2%Q; 3%Q] 22050 eq_refl eq_refl eq_refl eq_refl)).
Defined.

Lemma call_ok_iff {X : Type} (who : string) (o : option X) :
  (exists x, call who o = OK x) <-> o <> None.
Proof.
  destruct o as [x|]; simpl; split.
  - intros _. discriminate.
  - intros _. eauto.
  - intros [x H]. discriminate H.
  - intros H. congruence.
Qed.

(** X11: the construction of the data set succeeds exactly when the corpus
    loads, the STFT objects that the configuration asks for can be
    constructed (one when the mels are computed from waveforms, one with
    hop 10, window 40 and 800 Hz when downsampled mels are computed from
    waveforms), [p_arpabet] is 0 or 1, the text encoder can be constructed,
    and pitch contours are not both loaded from disk and cached on line;
    any other configuration fails in [__init__], before the first example
    is loaded. *)
Theorem init_succeeds_iff (env : Collaborators) (cfg : Config) :
  (exists self, __init__ env cfg = OK self) <->
  (load_filepaths_and_text env (cfg_audiopaths_and_text cfg)
     (cfg_dataset_path cfg) (1 <? cfg_n_speakers cfg) <> None /\
   (cfg_load_mel_from_disk cfg = false ->
    TacotronSTFT env (stft_args cfg) <> None) /\
   (cfg_load_ds_mel_from_disk cfg = false -> cfg_mels_downsampled cfg = true ->
    TacotronSTFT env (stft_ds_args cfg) <> None) /\
   (cfg_p_arpabet cfg == 0 \/ cfg_p_arpabet cfg == 1)%Q /\
   TextProcessing env (cfg_p_arpabet cfg) (cfg_cwt_accent cfg) <> None /\
   (cfg_load_pitch_from_disk cfg = false \/ cfg_pitch_online_dir cfg = None)).
Proof.
  unfold __init__. split.
  - intros (self & H).
    apply bind_ok in H as (entries & Hentries & H).
    apply bind_ok in H as (? & Hstft & H).
    apply bind_ok in H as (? & Hds & H).
    apply bind_ok in H as (? & Ha1 & H).
    apply bind_ok in H as (? & Htp & H).
    apply bind_ok in H as (? & Ha2 & _).
    apply GetItemFacts.assert_ok in Ha1, Ha2.
    split; [|split; [|split; [|split; [|split]]]].
    + apply (call_ok_iff "load_filepaths_and_text"). eauto.
    + intros Hw. rewrite Hw in Hstft. simpl in Hstft.
      apply (call_ok_iff "TacotronSTFT"). eauto.
    + intros Hd Hm. rewrite Hd, Hm in Hds. simpl in Hds.
      apply (call_ok_iff "TacotronSTFT"). eauto.
    + apply orb_true_iff in Ha1 as [H0|H1]; [left|right]; apply Qeq_bool_iff;
        assumption.
    + apply (call_ok_iff "TextProcessing"). eauto.
    + apply negb_true_iff, andb_false_iff in Ha2 as [Hl|Hd]; [left; exact Hl|].
      right. apply bool_decide_eq_false in Hd.
      destruct (cfg_pitch_online_dir cfg); [exfalso; apply Hd; discriminate|].
      reflexivity.
  - intros (Hload & Hstft & Hds & Hp & Htp & Hpitch).
    apply (call_ok_iff "load_filepaths_and_text") in Hload as [entries ->].
    apply (call_ok_iff "TextProcessing") in Htp as [u ->].
    assert (Hs : (if negb (cfg_load_mel_from_disk cfg)
                  then call "TacotronSTFT" (TacotronSTFT env (stft_args cfg))
                  else OK tt) = OK tt).
    { destruct (cfg_load_mel_from_disk cfg); [reflexivity|]. simpl.
      destruct (proj2 (call_ok_iff "TacotronSTFT" _) (Hstft eq_refl)) as [[] ->].
      reflexivity. }
    assert (Hd : (if negb (cfg_load_ds_mel_from_disk cfg) && cfg_mels_downsampled cfg
                  then call "TacotronSTFT" (TacotronSTFT env (stft_ds_args cfg))
                  else OK tt) = OK tt).
    { destruct (cfg_load_ds_mel_from_disk cfg); [reflexivity|].
      destruct (cfg_mels_downsampled cfg); [|reflexivity]. simpl.
      destruct (proj2 (call_ok_iff "TacotronSTFT" _) (Hds eq_refl eq_refl))
        as [[] ->].
      reflexivity. }
    assert (Ha1 : Qeq_bool (cfg_p_arpabet cfg) 0 || Qeq_bool (cfg_p_arpabet cfg) 1 = true).
    { apply orb_true_iff. destruct Hp as [H0|H1]; [left|right];
        apply Qeq_bool_iff; assumption. }
    assert (Ha2 : negb (cfg_load_pitch_from_disk cfg
                        && bool_decide (cfg_pitch_online_dir cfg <> None)) = true).
    { apply negb_true_iff, andb_false_iff.
      destruct Hpitch as [Hl|Hd']; [left; exact Hl|].
      right. apply bool_decide_eq_false. rewrite Hd'. congruence. }
    cbv zeta. rewrite Hs, Hd, Ha1, Ha2. simpl. eauto.
Qed.

Lemma LongTensor_ints (pre ids post : list Z) :
  LongTensor (map PyInt pre ++ map PyInt ids ++ map PyInt post)
  = OK (pre ++ ids ++ post).
Proof.
  rewrite <- !map_app. induction (pre ++ ids ++ post) as [|z l IH]; simpl;
    [reflexivity | rewrite IH; reflexivity].
Qed.

(** X12: without word-level conditioning, [get_text] returns the token
    ids of the encoder, with the space token -- the second token of the
    encoding of ["A A"] -- in front when [prepend_space_to_text] is set and
    at the end when [append_space_to_text] is set, and no text info.  The
    space token is computed for every text: when ["A A"] encodes to fewer
    than two tokens, [get_text] raises [IndexError] even if no space is
    asked for. *)
Theorem get_text_adds_space_tokens (self : t) (env : Collaborators)
    (text : string) (ids space_ids : list Z) :
  cwt_accent self = false ->
  encode_text env text = Some ids ->
  encode_text env "A A" = Some space_ids ->
  match space_ids !! 1%nat with
  | Some sp =>
      get_text self env text
      = OK ((if prepend_space_to_text self then [sp] else [])
            ++ ids ++ (if append_space_to_text self then [sp] else []), None)
  | None => get_text self env text = Raise IndexError
  end.
Proof.
  intros Hcwt Hids Hspace. unfold get_text. rewrite Hcwt, Hids, Hspace. simpl.
  unfold Tensor.get. destruct (space_ids !! 1%nat) as [sp|]; simpl; [|reflexivity].
  pose proof (LongTensor_ints (if prepend_space_to_text self then [sp] else [])
                ids (if append_space_to_text self then [sp] else [])) as HL.
  destruct (prepend_space_to_text self), (append_space_to_text self);
    simpl in HL |- *; rewrite ?app_nil_r in *; rewrite HL; reflexivity.
Qed.

Lemma get_text_adds_space_tokens_witness :
  exists self,
    Fixtures.dataset_of Fixtures.cfg_default = Some self /\
    get_text self Fixtures.env "hi" = OK ([5; 11; 5], None).
Proof.
  eexists. split; [reflexivity|].
  match goal with
  | |- get_text ?s _ _ = _ =>
      exact (get_text_adds_space_tokens s Fixtures.env "hi" [5; 11; 5] [5; 11; 5]
               eq_refl eq_refl eq_refl)
  end.
Defined.

End LoaderFacts.

(** ** Further properties of TTSDataset.__getitem__ *)

Module ExampleFacts.
Import BetaBinom TTSDataset Wf Invariants.
Import GetItemFacts GetPriorFacts InterpolatorFacts CacheFacts.

(** Everything a successful load went through. *)
Lemma getitem_inv_full (self : t) (env : Collaborators) (index : nat)
    (st st' : State) (ex : Example) :
  __getitem__ self env index st = (OK ex, st') ->
  exists entry audiopath text mel toks text_info p st1,
    Tensor.get (audiopaths_and_text self) index = OK entry /\
    item entry "mels" = OK audiopath /\
    item entry "text" = OK text /\
    get_mel self env audiopath = OK mel /\
    get_text self env text = OK (toks, text_info) /\
    get_pitch self env index (Tensor.size1 mel) st = (OK p, st1) /\
    get_prior self env index (Tensor.size1 mel) (length toks) st1
      = (OK (ex_attn_prior ex), st') /\
    (if 1 <? n_speakers self
     then s ← item entry "speaker"; z ← Str.int s; OK (Some z)
     else OK None) = OK (ex_speaker ex) /\
    (if cwt_accent self then get_cwt_labels self env index text_info else OK None)
      = OK (ex_cwt_acc ex) /\
    (if mels_downsampled self
     then audiopath ← item entry "mels_ds";
          ds_mel ← get_ds_mel self env audiopath;
          OK (audiopath, Some ds_mel)
     else OK (audiopath, None)) = OK (ex_audiopath ex, ex_ds_mel ex) /\
    ex_text ex = toks /\
    ex_mel ex = mel /\
    ex_len_text ex = Z.of_nat (length toks).
Proof.
  intros H. unfold __getitem__ in H.
  lift_step H entry Hentry.
  lift_step H audiopath Hpath.
  lift_step H text Htext.
  lift_step H speaker Hspk.
  lift_step H mel Hmel.
  lift_step H tt' Htt. destruct tt' as [toks text_info].
  sr_step H p st1 Hp.
  sr_step H prior st2 Hprior.
  lift_step H cwt Hcwt.
  lift_step H ad Had. destruct ad as [audiopath' ds_mel].
  lift_step H u1 Hu1.
  lift_step H u2 Hu2.
  injection H as <- <-.
  exists entry, audiopath, text, mel, toks, text_info, p, st1. simpl.
  repeat split; assumption.
Qed.

(** X13: which optional fields an example carries is decided by the
    configuration of the data set alone, so all examples of one data set
    agree on them: a downsampled mel exactly when [mels_downsampled] is set,
    a speaker exactly when [n_speakers > 1], word labels exactly when
    [cwt_accent] and [load_cwt_from_disk] are both set.  The third field is
    the length of the text. *)
Theorem getitem_optional_fields (self : t) (env : Collaborators) (index : nat)
    (st st' : State) (ex : Example) :
  __getitem__ self env index st = (OK ex, st') ->
  (is_Some (ex_ds_mel ex) <-> mels_downsampled self = true) /\
  (is_Some (ex_speaker ex) <-> 1 < n_speakers self) /\
  (is_Some (ex_cwt_acc ex)
   <-> cwt_accent self = true /\ load_cwt_from_disk self = true) /\
  ex_len_text ex = Z.of_nat (length (ex_text ex)).
Proof.
  intros H. apply getitem_inv_full in H
    as (entry & audiopath & text & mel & toks & text_info & p & st1 & _ & _ & _ & _
        & _ & _ & _ & Hspk & Hcwt & Hds & Htoks & _ & Hlen).
  split; [|split; [|split]].
  - destruct (mels_downsampled self).
    + apply bind_ok in Hds as (a & _ & Hds).
      apply bind_ok in Hds as (d & _ & Hds). injection Hds as _ <-.
      split; [reflexivity | eauto].
    + injection Hds as _ <-. split; [intros [? Hx]; discriminate Hx | discriminate].
  - destruct (Z.ltb_spec 1 (n_speakers self)) as [Hn|Hn].
    + apply bind_ok in Hspk as (s & _ & Hspk).
      apply bind_ok in Hspk as (z & _ & Hspk). injection Hspk as <-.
      split; [intros _; exact Hn | eauto].
    + injection Hspk as <-. split; [intros [? Hx]; discriminate Hx | lia].
  - destruct (cwt_accent self).
    + unfold get_cwt_labels in Hcwt. destruct (load_cwt_from_disk self).
      * apply bind_ok in Hcwt as (? & _ & Hcwt).
        apply bind_ok in Hcwt as (? & _ & Hcwt).
        apply bind_ok in Hcwt as (? & _ & Hcwt).
        apply bind_ok in Hcwt as (? & _ & Hcwt).
        apply bind_ok in Hcwt as (? & _ & Hcwt). injection Hcwt as <-.
        split; [auto | eauto].
      * injection Hcwt as <-.
        split; [intros [? Hx]; discriminate Hx | intros [_ Hx]; discriminate Hx].
    + injection Hcwt as <-.
      split; [intros [? Hx]; discriminate Hx | intros [Hx _]; discriminate Hx].
  - rewrite Htoks. exact Hlen.
Qed.

Lemma getitem_optional_fields_witness :
  exists self ex st',
    Fixtures.dataset_of MoreFixtures.cfg_exact = Some self /\
    __getitem__ self Fixtures.env 0 initial_state = (OK ex, st') /\
    (is_Some (ex_ds_mel ex) <-> mels_downsampled self = true) /\
    (is_Some (ex_speaker ex) <-> 1 < n_speakers self) /\
    (is_Some (ex_cwt_acc ex)
     <-> cwt_accent self = true /\ load_cwt_from_disk self = true) /\
    ex_len_text ex = Z.of_nat (length (ex_text ex)).
Proof.
  do 3 eexists. split; [reflexivity|].
  match goal with
  | |- __getitem__ ?s ?e ?i ?st = (OK ?x, ?st') /\ _ =>
      assert (Hrun : __getitem__ s e i st = (OK x, st'))
        by (vm_compute; reflexivity);
      split; [exact Hrun|];
      exact (getitem_optional_fields s e i st _ _ Hrun)
  end.
Defined.

(** X14: unless the alignment priors are cached on disk, the prior of an
    example that [__getitem__] returns has one row per frame of the
    mel-spectrogram and one column per token of the text. *)
Theorem getitem_prior_shape (self : t) (env : Collaborators) (index : nat)
    (st st' : State) (ex : Example) :
  use_betabinomial_interpolator self = true \/ betabinomial_tmp_dir self = None ->
  __getitem__ self env index st = (OK ex, st') ->
  length (ex_attn_prior ex) = Tensor.size1 (ex_mel ex) /\
  (ex_attn_prior ex <> [] ->
   Tensor.size1 (ex_attn_prior ex) = length (ex_text ex)).
Proof.
  intros Hmode H. apply getitem_inv_full in H
    as (entry & audiopath & text & mel & toks & text_info & p & st1 & _ & _ & _ & _
        & _ & _ & Hprior & _ & _ & _ & -> & -> & _).
  unfold get_prior in Hprior.
  destruct (use_betabinomial_interpolator self) eqn:Hu.
  - lift_step Hprior interp Hinterp.
    apply with_bank_ok in Hprior as (b & Hcall & _).
    apply interpolator_call_shape in Hcall as [Hw Hh].
    split; [lia | intros _; lia].
  - destruct Hmode as [Hx|Hnone]; [discriminate Hx|].
    rewrite Hnone in Hprior. injection Hprior as Hm _. rewrite <- Hm.
    apply exact_prior_shape.
Qed.

Lemma getitem_prior_shape_witness :
  exists self ex st',
    Fixtures.dataset_of MoreFixtures.cfg_exact = Some self /\
    __getitem__ self Fixtures.env 0 initial_state = (OK ex, st') /\
    length (ex_attn_prior ex) = Tensor.size1 (ex_mel ex) /\
    (ex_attn_prior ex <> [] ->
     Tensor.size1 (ex_attn_prior ex) = length (ex_text ex)).
Proof.
  do 3 eexists. split; [reflexivity|].
  match goal with
  | |- __getitem__ ?s ?e ?i ?st = (OK ?x, ?st') /\ _ =>
      assert (Hrun : __getitem__ s e i st = (OK x, st'))
        by (vm_compute; reflexivity);
      split; [exact Hrun|];
      exact (getitem_prior_shape s e i st _ _ (or_intror eq_refl) Hrun)
  end.
Defined.

(** *** What loading an example leaves as it is *)

Lemma preserves_bind {X Y : Type} (I : State -> Prop)
    (m : SR State X) (k : X -> SR State Y) :
  preserves I m -> (forall x, preserves I (k x)) -> preserves I (m ≫= k).
Proof.
  intros Hm Hk st HI. unfold mbind, SR_bind.
  specialize (Hm st HI). destruct (m st) as [[x|e] s1]; simpl in *;
    [apply Hk, Hm | exact Hm].
Qed.

Lemma preserves_lift {X : Type} (I : State -> Prop) (r : result X) :
  preserves I (lift r).
Proof. intros st HI. exact HI. Qed.

Lemma preserves_mret {X : Type} (I : State -> Prop) (x : X) :
  preserves I (mret x).
Proof. intros st HI. exact HI. Qed.

Ltac preserves_steps :=
  repeat first
    [ apply preserves_lift
    | apply preserves_mret
    | apply preserves_bind; [|intros ?] ].

Lemma get_pitch_from_disk_preserves (I : State -> Prop) (self : t)
    (env : Collaborators) (index mel_len : nat) :
  load_pitch_from_disk self = true ->
  preserves I (get_pitch self env index mel_len).
Proof.
  intros Hload. unfold get_pitch. rewrite Hload. preserves_steps.
Qed.

Lemma get_prior_interpolated_preserves (I : State -> Prop) (self : t)
    (env : Collaborators) (index mel_len text_len : nat) :
  use_betabinomial_interpolator self = true ->
  (forall interp w h,
      preserves I (with_bank (BetaBinomialInterpolator.__call__ interp env w h))) ->
  preserves I (get_prior self env index mel_len text_len).
Proof.
  intros Hu HI. unfold get_prior. rewrite Hu.
  apply preserves_bind; [apply preserves_lift | intros interp; apply HI].
Qed.

Lemma getitem_default_preserves (I : State -> Prop) (self : t)
    (env : Collaborators) (index : nat) :
  use_betabinomial_interpolator self = true ->
  load_pitch_from_disk self = true ->
  (forall interp w h,
      preserves I (with_bank (BetaBinomialInterpolator.__call__ interp env w h))) ->
  preserves I (__getitem__ self env index).
Proof.
  intros Hu Hload HI. unfold __getitem__.
  do 5 (apply preserves_bind; [apply preserves_lift | intros ?]).
  apply preserves_bind; [apply preserves_lift | intros [toks text_info]].
  apply preserves_bind;
    [apply get_pitch_from_disk_preserves, Hload | intros p].
  apply preserves_bind;
    [apply get_prior_interpolated_preserves; assumption | intros prior].
  apply preserves_bind; [apply preserves_lift | intros cwt].
  apply preserves_bind; [apply preserves_lift | intros [audiopath' ds_mel]].
  preserves_steps.
Qed.

(** X15: in the default configuration (pitch contours loaded from disk,
    interpolated priors) loading an example, successfully or not, writes
    nothing: the files and directories are as before.  Only the memo
    table of the interpolator changes, and it stays sound and within its
    128 entries. *)
Theorem getitem_default_writes_nothing (self : t) (env : Collaborators)
    (index : nat) (st : State) :
  use_betabinomial_interpolator self = true ->
  load_pitch_from_disk self = true ->
  let st' := snd (__getitem__ self env index st) in
  disk st' = disk st /\
  (lru_wf (interp_bank st) -> lru_wf (interp_bank st')) /\
  (bank_ok (interp_bank st) -> bank_ok (interp_bank st')).
Proof.
  intros Hu Hload st'. subst st'. split; [|split].
  - apply (getitem_default_preserves (fun s => disk s = disk st));
      [assumption | assumption | | reflexivity].
    intros interp w h s Hs. unfold with_bank.
    destruct (BetaBinomialInterpolator.__call__ interp env w h (interp_bank s)).
    exact Hs.
  - apply (getitem_default_preserves (fun s => lru_wf (interp_bank s)));
      [assumption | assumption |].
    intros interp w h s Hs. unfold with_bank.
    pose proof (bank_lru_wf_call interp env w h (interp_bank s) Hs) as Hb.
    destruct (BetaBinomialInterpolator.__call__ interp env w h (interp_bank s)).
    exact Hb.
  - apply (getitem_default_preserves (fun s => bank_ok (interp_bank s)));
      [assumption | assumption |].
    intros interp w h s Hs. unfold with_bank.
    destruct (interpolator_call_spec interp env w h (interp_bank s) Hs)
      as (b' & Hcall & Hb').
    rewrite Hcall. exact Hb'.
Qed.

Lemma getitem_default_writes_nothing_witness :
  exists self,
    Fixtures.dataset_of Fixtures.cfg_interpolator_and_cache = Some self /\
    let st' := snd (__getitem__ self Fixtures.env 0 Fixtures.state_with_cached_prior) in
    disk st' = disk Fixtures.state_with_cached_prior /\
    (lru_wf (interp_bank Fixtures.state_with_cached_prior) -> lru_wf (interp_bank st')) /\
    (bank_ok (interp_bank Fixtures.state_with_cached_prior) -> bank_ok (interp_bank st')).
Proof.
  eexists. split; [reflexivity|].
  match goal with
  | |- let st' := snd (__getitem__ ?s ?e ?i ?st) in _ =>
      exact (getitem_default_writes_nothing s e i st eq_refl eq_refl)
  end.
Defined.

End ExampleFacts.

(** ** Further properties of TTSCollate.__call__ and batch_to_gpu *)

Module BatchFacts.
Import TTSCollate Wf CollateWf BatchToGpu.
Import CollateFacts.

(** The remaining steps of a successful [__call__]. *)
Lemma collate_inv_rest (batch : list Example) (b : Batch) :
  __call__ batch = OK b ->
  exists vals ids L x0 n_formants pitch_rows ds0 sizes ds_rows,
    torch_sort_descending (map (fun x => length (ex_text x)) batch) = (vals, ids) /\
    vals !! 0%nat = Some L /\
    batch !! 0%nat = Some x0 /\
    pitch_dim (ex_pitch x0) 0 = OK n_formants /\
    n_formants <> 0%nat /\
    fill_rows batch ids
      (fun x '(pblock, erow) =>
         let pitch := ex_pitch x in
         let energy := ex_energy x in
         frames ← pitch_dim pitch 1;
         source ← pitch_source pitch;
         pblock' ← Tensor.assign_block pblock (Tensor.size0 pblock)
                     frames source;
         erow' ← Tensor.assign_prefix erow (length energy) energy;
         OK (pblock', erow'))
      (zip (Tensor.zeros3 0%Q (length batch) n_formants
              (list_max (map (fun x => Tensor.size1 (ex_mel x)) batch)))
           (Tensor.zeros2 0%Q (length batch)
              (list_max (map (fun x => Tensor.size1 (ex_mel x)) batch))))
      = OK pitch_rows /\
    pitch_padded b = map fst pitch_rows /\
    energy_padded b = map snd pitch_rows /\
    match ex_speaker x0 with
    | Some _ =>
        exists s,
          fill_rows batch ids
            (fun x _ => match ex_speaker x with
                        | Some z => Int64.cast z
                        | None => Raise TypeError
                        end)
            (Tensor.zeros1 0 (length vals)) = OK s /\
          speaker b = Some s
    | None => speaker b = None
    end /\
    fill_rows batch ids
      (fun x block =>
         let prior := ex_attn_prior x in
         Tensor.assign_block block (Tensor.size0 prior) (Tensor.size1 prior)
           (map (map Float32.cast) prior))
      (Tensor.zeros3 0%Q (length batch)
         (list_max (map (fun x => Tensor.size1 (ex_mel x)) batch)) L)
      = OK (attn_prior_padded b) /\
    match ex_cwt_acc x0 with
    | Some _ =>
        exists c,
          fill_rows batch ids
            (fun x row =>
               cwt ← not_none (ex_cwt_acc x);
               Tensor.assign_prefix row (length cwt) cwt)
            (Tensor.zeros2 0 (length batch) L) = OK c /\
          cwt_padded b = Some c
    | None => cwt_padded b = None
    end /\
    ex_ds_mel x0 = Some ds0 /\
    mapM (fun x => ds ← not_none (ex_ds_mel x); OK (Tensor.size1 ds)) batch
      = OK sizes /\
    fill_rows batch ids
      (fun x '(block, _) =>
         ds_mel ← not_none (ex_ds_mel x);
         block' ← Tensor.assign_block block (Tensor.size0 block)
                    (Tensor.size1 ds_mel) ds_mel;
         OK (block', Tensor.size1 ds_mel))
      (zip (Tensor.zeros3 0%Q (length batch) (Tensor.size0 ds0) (list_max sizes))
           (Tensor.zeros1 0%nat (length batch))) = OK ds_rows /\
    ds_mel_padded b = Some (map fst ds_rows) /\
    output_lengths_ds b = map snd ds_rows.
Proof.
  unfold __call__. intros H.
  destruct (torch_sort_descending _) as [vals ids] eqn:Hsort.
  apply bind_ok in H as (L & HL & H). apply get_ok in HL.
  apply bind_ok in H as (tp & Htp & H).
  apply bind_ok in H as (x0 & Hx0 & H). apply get_ok in Hx0.
  apply bind_ok in H as (mel_rows & Hmel & H).
  apply bind_ok in H as (n_formants & Hnf & H).
  apply bind_ok in H as (u & Hu & H).
  apply bind_ok in H as (pitch_rows & Hpitch & H).
  apply bind_ok in H as (spk & Hspk & H).
  apply bind_ok in H as (prior & Hprior & H).
  apply bind_ok in H as (paths & Hpaths & H).
  apply bind_ok in H as (cwt & Hcwt & H).
  apply bind_ok in H as ([dsp ols] & Hds & H).
  apply bind_ok in H as (ol & Hol & H).
  injection H as <-. simpl.
  destruct (ex_ds_mel x0) as [ds0|] eqn:Hds0;
    [|injection Hds as <- <-; discriminate Hol].
  apply bind_ok in Hds as (sizes & Hsizes & Hds).
  apply bind_ok in Hds as (ds_rows & Hdsrows & Hds).
  injection Hds as <- <-. injection Hol as <-.
  exists vals, ids, L, x0, n_formants, pitch_rows, ds0, sizes, ds_rows.
  split; [reflexivity|]. split; [exact HL|]. split; [exact Hx0|].
  split; [exact Hnf|].
  split.
  { destruct (Nat.eqb_spec n_formants 0) as [E|E];
      [discriminate Hu | exact E]. }
  split; [exact Hpitch|]. split; [reflexivity|]. split; [reflexivity|].
  split.
  { destruct (ex_speaker x0).
    - apply bind_ok in Hspk as (s & Hs & Hspk). injection Hspk as <-. eauto.
    - injection Hspk as <-. reflexivity. }
  split; [exact Hprior|].
  split.
  { destruct (ex_cwt_acc x0).
    - apply bind_ok in Hcwt as (c & Hc & Hcwt). injection Hcwt as <-. eauto.
    - injection Hcwt as <-. reflexivity. }
  auto 10.
Qed.

(** *** Lengths and their order *)

Lemma nth_seq_map {A : Type} (l : list A) (d : A) :
  map (fun i => nth i l d) (seq 0 (length l)) = l.
Proof.
  apply (nth_ext _ _ d d).
  - rewrite length_map, length_seq. reflexivity.
  - intros i Hi. rewrite length_map, length_seq in Hi.
    rewrite (nth_indep _ d (nth 0 l d))
      by (rewrite length_map, length_seq; exact Hi).
    rewrite (map_nth (fun i => nth i l d) (seq 0 (length l)) 0%nat i).
    rewrite seq_nth by exact Hi. reflexivity.
Qed.

Lemma lookup_nth {A : Type} (l : list A) (i : nat) (x d : A) :
  l !! i = Some x -> nth i l d = x.
Proof.
  revert i. induction l as [|y l IH]; intros [|i] H; simpl in *;
    try discriminate H; [congruence | apply IH, H].
Qed.

(** A tensor whose entry [i] is read off the example [batch[ids[i]]], for
    a permutation [ids] of the positions, holds what the examples hold in
    another order. *)
Lemma permuted_field {A : Type} (f : Example -> A) (d : A)
    (batch : list Example) (ids : list nat) (out : list A) :
  Permutation ids (seq 0 (length batch)) ->
  length out = length ids ->
  (forall i id x, ids !! i = Some id -> batch !! id = Some x ->
                  out !! i = Some (f x)) ->
  Permutation out (map f batch).
Proof.
  intros Hperm Hlen Hout.
  assert (E : out = map (fun id => nth id (map f batch) d) ids).
  { apply list_eq. intros i. rewrite lookup_map.
    destruct (ids !! i) as [id|] eqn:Hid; simpl.
    - assert (Hin : In id (seq 0 (length batch))).
      { apply (Permutation_in _ Hperm), list_elem_of_In.
        eapply list_elem_of_lookup_2, Hid. }
      apply in_seq in Hin.
      destruct (lookup_lt_is_Some_2 batch id ltac:(lia)) as [x Hx].
      rewrite (Hout i id x Hid Hx). f_equal. symmetry.
      apply lookup_nth. rewrite lookup_map, Hx. reflexivity.
    - apply lookup_ge_None. apply lookup_ge_None in Hid. lia. }
  rewrite E.
  rewrite (Permutation_map (fun id => nth id (map f batch) d) Hperm).
  rewrite <- (length_map f batch). rewrite nth_seq_map. reflexivity.
Qed.

Lemma sum_permutation (l1 l2 : list Z) :
  Permutation l1 l2 -> fold_right Z.add 0 l1 = fold_right Z.add 0 l2.
Proof. induction 1; simpl; lia. Qed.

Lemma collate_output_length (batch : list Example) (b : Batch)
    (i id : nat) (x : Example) :
  __call__ batch = OK b ->
  ids_sorted_decreasing batch !! i = Some id ->
  batch !! id = Some x ->
  output_lengths b !! i = Some (Tensor.size1 (ex_mel x)).
Proof.
  intros H Hid Hx.
  apply collate_inv in H
    as (vals & ids & L & x0 & mel_rows & ds0 & Hsort & _ & _ & _ & _ & Hmel
        & _ & Hol & _).
  unfold ids_sorted_decreasing in Hid. rewrite Hsort in Hid. simpl in Hid.
  apply fill_rows_spec in Hmel as (_ & _ & Hrows).
  destruct (Hrows i (lookup_lt_Some _ _ _ Hid))
    as (id' & x' & [block0 n0] & r & Hid' & Hx' & _ & Hupd & Hr).
  rewrite Hid in Hid'. injection Hid' as <-.
  rewrite Hx in Hx'. injection Hx' as <-.
  apply bind_ok in Hupd as (block' & _ & Hupd). injection Hupd as <-.
  rewrite Hol, lookup_map, Hr. reflexivity.
Qed.

Lemma collate_ids (batch : list Example) (b : Batch) :
  __call__ batch = OK b ->
  Permutation (ids_sorted_decreasing batch) (seq 0 (length batch)) /\
  length (ids_sorted_decreasing batch) = length batch /\
  length (input_lengths b) = length batch /\
  length (output_lengths b) = length batch.
Proof.
  intros H.
  apply collate_inv in H
    as (vals & ids & L & x0 & mel_rows & ds0 & Hsort & _ & _ & Hlens & _ & Hmel
        & _ & Hol & _).
  pose proof (torch_sort_descending_spec _ _ _ Hsort)
    as (_ & _ & Hpids & Hlv & Hli & _).
  rewrite length_map in Hpids, Hlv, Hli.
  unfold ids_sorted_decreasing. rewrite Hsort, Hlens, Hol. simpl.
  apply fill_rows_spec in Hmel as (Hlen & _ & _).
  rewrite length_map, Hlen. unfold Tensor.zeros3, Tensor.zeros1.
  rewrite zip_repeat, repeat_length. auto.
Qed.

(** X16: the frame count [len_x] that [batch_to_gpu] returns for a collated
    batch is the total number of mel frames of the examples of the batch;
    [output_lengths] holds their frame counts in the sorted order of the
    batch, a permutation of the order of the input. *)
Theorem batch_to_gpu_counts_all_frames (batch : list Example) (b : Batch) :
  __call__ batch = OK b ->
  Permutation (output_lengths b)
    (map (fun x => Tensor.size1 (ex_mel x)) batch) /\
  snd (batch_to_gpu b)
  = fold_right Z.add 0 (map (fun x => Z.of_nat (Tensor.size1 (ex_mel x))) batch).
Proof.
  intros H.
  destruct (collate_ids batch b H) as (Hperm & Hli & _ & Hlo).
  assert (Hp : Permutation (output_lengths b)
                 (map (fun x => Tensor.size1 (ex_mel x)) batch)).
  { apply (permuted_field _ 0%nat batch (ids_sorted_decreasing batch));
      [exact Hperm | lia |].
    intros i id x Hid Hx. eapply collate_output_length; eassumption. }
  split; [exact Hp|].
  unfold batch_to_gpu. simpl.
  rewrite (sum_permutation _ _ (Permutation_map Z.of_nat Hp)).
  rewrite map_map. reflexivity.
Qed.

Lemma batch_to_gpu_counts_all_frames_witness :
  exists b,
    __call__ Fixtures.batch_ds = OK b /\
    Permutation (output_lengths b)
      (map (fun x => Tensor.size1 (ex_mel x)) Fixtures.batch_ds) /\
    snd (batch_to_gpu b)
    = fold_right Z.add 0
        (map (fun x => Z.of_nat (Tensor.size1 (ex_mel x))) Fixtures.batch_ds).
Proof.
  eexists.
  match goal with
  | |- __call__ ?batch = OK ?x /\ _ =>
      assert (Hrun : __call__ batch = OK x) by (vm_compute; reflexivity)
  end.
  split; [exact Hrun|].
  exact (batch_to_gpu_counts_all_frames _ _ Hrun).
Defined.

(** X17: for a batch of examples that [TTSDataset.__getitem__] returned,
    the token counts [len_x] of the collated batch are the numbers of
    [input_lengths] in the order of the input: the two tensors hold the
    same lengths, one unsorted and one sorted. *)
Theorem collate_len_x_permutes_input_lengths (batch : list Example) (b : Batch) :
  Forall (fun x => exists self env index st st',
              TTSDataset.__getitem__ self env index st = (OK x, st')) batch ->
  __call__ batch = OK b ->
  Permutation (map Z.of_nat (input_lengths b)) (len_x b).
Proof.
  intros Hloaded H.
  destruct (collate_text_padded_parts batch b H) as (Hperm & Hlx).
  rewrite Hlx. rewrite (Permutation_map Z.of_nat Hperm), map_map.
  assert (E : map (fun x => Z.of_nat (length (ex_text x))) batch
              = map ex_len_text batch).
  { apply map_ext_in. intros x Hx.
    rewrite List.Forall_forall in Hloaded.
    destruct (Hloaded x Hx) as (self & env & index & st & st' & Hget).
    apply ExampleFacts.getitem_inv_full in Hget
      as (? & ? & ? & ? & toks & ? & ? & ? & _ & _ & _ & _ & _ & _ & _ & _ & _ & _
          & -> & _ & ->).
    reflexivity. }
  rewrite E. reflexivity.
Qed.

Lemma collate_len_x_permutes_input_lengths_witness :
  exists self x0 x1 st1 st2 b,
    DsFixtures.dataset = Some self /\
    TTSDataset.__getitem__ self DsFixtures.env 0 TTSDataset.initial_state
    = (OK x0, st1) /\
    TTSDataset.__getitem__ self DsFixtures.env 1 st1 = (OK x1, st2) /\
    __call__ [x0; x1] = OK b /\
    Permutation (map Z.of_nat (input_lengths b)) (len_x b).
Proof.
  do 6 eexists. split; [reflexivity|].
  match goal with
  | |- TTSDataset.__getitem__ ?s ?e 0 ?st = (OK ?x0, ?st1) /\
       TTSDataset.__getitem__ ?s ?e 1 ?st1 = (OK ?x1, ?st2) /\
       __call__ ?batch = OK ?b /\ _ =>
      assert (H0 : TTSDataset.__getitem__ s e 0 st = (OK x0, st1))
        by (vm_compute; reflexivity);
      assert (H1 : TTSDataset.__getitem__ s e 1 st1 = (OK x1, st2))
        by (vm_compute; reflexivity);
      assert (Hrun : __call__ batch = OK b) by (vm_compute; reflexivity);
      split; [exact H0|]; split; [exact H1|]; split; [exact Hrun|];
      apply (collate_len_x_permutes_input_lengths batch b); [|exact Hrun];
      repeat constructor;
      [exists s, e, 0%nat, st, st1; exact H0
      |exists s, e, 1%nat, st1, st2; exact H1]
  end.
Defined.

(** *** The other padded tensors *)

Lemma fill_rows_row {R : Type} (batch : list Example) (ids : list nat)
    (upd : Example -> R -> result R) (t0 t : list R) (i id : nat) (x : Example) :
  fill_rows batch ids upd t0 = OK t ->
  ids !! i = Some id -> batch !! id = Some x ->
  exists r0 r, t0 !! i = Some r0 /\ upd x r0 = OK r /\ t !! i = Some r.
Proof.
  intros H Hid Hx.
  apply fill_rows_spec in H as (_ & _ & Hrows).
  destruct (Hrows i (lookup_lt_Some _ _ _ Hid))
    as (id' & x' & r0 & r & Hid' & Hx' & Hr0 & Hupd & Hr).
  rewrite Hid in Hid'. injection Hid' as <-.
  rewrite Hx in Hx'. injection Hx' as <-.
  eauto.
Qed.

Lemma sorted_head_is_max (keys vals ids : list nat) (L : nat) :
  torch_sort_descending keys = (vals, ids) ->
  vals !! 0%nat = Some L ->
  L = list_max keys.
Proof.
  intros Hsort HL.
  pose proof (torch_sort_descending_spec _ _ _ Hsort)
    as (Hperm & Hsorted & Hpids & Hlv & Hli & Hkey).
  apply Nat.le_antisymm.
  - pose proof (lookup_lt_Some _ _ _ HL) as Hlt.
    destruct (lookup_lt_is_Some_2 ids 0%nat ltac:(lia)) as [id0 Hid0].
    eapply list_max_ge. eapply (Hkey 0%nat); eassumption.
  - apply list_max_le. rewrite List.Forall_forall. intros k Hk.
    apply (Permutation_in _ (Permutation_sym Hperm)) in Hk.
    apply list_elem_of_In, list_elem_of_lookup_1 in Hk as [j Hj].
    eapply sorted_head_max; eassumption.
Qed.

Lemma in_batch (P : Example -> Prop) (batch : list Example) (j : nat) (y : Example) :
  Forall P batch -> batch !! j = Some y -> P y.
Proof.
  intros HP Hy. rewrite List.Forall_forall in HP.
  apply HP, list_elem_of_In. eapply list_elem_of_lookup_2, Hy.
Qed.

Lemma firstn_repeat_le {A : Type} (z : A) (m n : nat) :
  (m <= n)%nat -> firstn m (repeat z n) = repeat z m.
Proof.
  revert n. induction m as [|m IH]; intros [|n] Hle; simpl;
    [reflexivity | reflexivity | lia | rewrite IH by lia; reflexivity].
Qed.

(** [t[:r, :c] = src] into the upper left corner of a tensor of zeros. *)
Lemma assign_corner_zeros {A : Type} (z : A) (rows width : nat)
    (src : list (list A)) :
  Tensor.rectangular src ->
  (length src <= rows)%nat ->
  (Tensor.size1 src <= width)%nat ->
  Tensor.assign_block (Tensor.zeros2 z rows width)
    (Tensor.size0 src) (Tensor.size1 src) src
  = OK (map (fun srow => srow ++ repeat z (width - Tensor.size1 src)) src
        ++ repeat (repeat z width) (rows - length src)).
Proof.
  intros Hrect Hrows Hwidth.
  unfold Tensor.assign_block, Tensor.size0, Tensor.zeros2.
  rewrite repeat_length, (Nat.min_l (length src) rows) by exact Hrows.
  rewrite expand_same by reflexivity. simpl.
  destruct src as [|row0 src'] eqn:Esrc.
  { simpl. rewrite Nat.sub_0_r. reflexivity. }
  rewrite <- Esrc in *.
  assert (Hpos : (0 < rows)%nat) by (rewrite Esrc in Hrows; simpl in Hrows; lia).
  assert (Hs1 : Tensor.size1 (repeat (repeat z width) rows) = width).
  { destruct rows; [lia|]. simpl. apply repeat_length. }
  rewrite Hs1, Nat.min_l by exact Hwidth.
  rewrite mapM_expand_same by exact Hrect. simpl.
  rewrite firstn_repeat_le by exact Hrows.
  rewrite skipn_repeat, zip_with_pad. reflexivity.
Qed.

(** X18: a batch is collated only if every example carries a downsampled
    mel: the frame counts of the downsampled mels are read from every
    example once the first one has one. *)
Theorem collate_requires_every_ds_mel (batch : list Example) (b : Batch) :
  __call__ batch = OK b ->
  Forall (fun x => is_Some (ex_ds_mel x)) batch.
Proof.
  intros H.
  apply collate_inv_rest in H
    as (vals & ids & L & x0 & n_formants & pitch_rows & ds0 & sizes & ds_rows
        & _ & _ & _ & _ & _ & _ & _ & _ & _ & _ & _ & _ & Hsizes & _).
  apply mapM_ok in Hsizes.
  induction Hsizes as [|x n batch' sizes' Hx _ IH]; constructor; [|exact IH].
  destruct (ex_ds_mel x); [eauto | discriminate Hx].
Qed.

Lemma collate_requires_every_ds_mel_witness :
  exists b,
    __call__ Fixtures.batch_ds = OK b /\
    Forall (fun x => is_Some (ex_ds_mel x)) Fixtures.batch_ds.
Proof.
  eexists.
  match goal with
  | |- __call__ ?batch = OK ?x /\ _ =>
      assert (Hrun : __call__ batch = OK x) by (vm_compute; reflexivity)
  end.
  split; [exact Hrun|].
  exact (collate_requires_every_ds_mel _ _ Hrun).
Defined.

(** X19: the first example of the batch decides whether the batch has
    speakers and word labels: [speaker] and [cwt_padded] are [None] exactly
    when the field of [batch[0]] is.  When there are speakers, every
    example has one, and [speaker[i]] is the speaker of the example at the
    sorted position [i]. *)
Theorem collate_first_example_decides (batch : list Example) (b : Batch)
    (x0 : Example) :
  __call__ batch = OK b ->
  batch !! 0%nat = Some x0 ->
  (speaker b = None <-> ex_speaker x0 = None) /\
  (cwt_padded b = None <-> ex_cwt_acc x0 = None) /\
  (forall s i id x,
      speaker b = Some s ->
      ids_sorted_decreasing batch !! i = Some id ->
      batch !! id = Some x ->
      exists z, ex_speaker x = Some z /\ s !! i = Some z).
Proof.
  intros H Hx0.
  apply collate_inv_rest in H
    as (vals & ids & L & x0' & n_formants & pitch_rows & ds0 & sizes & ds_rows
        & Hsort & _ & Hx0' & _ & _ & _ & _ & _ & Hspk & _ & Hcwt & _).
  rewrite Hx0 in Hx0'. injection Hx0' as <-.
  unfold ids_sorted_decreasing. rewrite Hsort. simpl.
  split; [|split].
  - destruct (ex_speaker x0).
    + destruct Hspk as (s & _ & ->). split; intros E; discriminate E.
    + rewrite Hspk. tauto.
  - destruct (ex_cwt_acc x0).
    + destruct Hcwt as (c & _ & ->). split; intros E; discriminate E.
    + rewrite Hcwt. tauto.
  - intros s i id x Hs Hid Hx.
    destruct (ex_speaker x0); [|rewrite Hspk in Hs; discriminate Hs].
    destruct Hspk as (s' & Hfill & Hs'). rewrite Hs' in Hs. injection Hs as ->.
    destruct (fill_rows_row _ _ _ _ _ _ _ _ Hfill Hid Hx)
      as (r0 & r & _ & Hupd & Hr).
    destruct (ex_speaker x) as [spk|]; [|discriminate Hupd].
    unfold Int64.cast in Hupd.
    destruct ((- 2 ^ 63 <=? spk) && (spk <? 2 ^ 63)); [|discriminate Hupd].
    injection Hupd as <-. eauto.
Qed.

Lemma collate_first_example_decides_witness :
  exists b x0,
    __call__ Fixtures.batch_ds = OK b /\
    Fixtures.batch_ds !! 0%nat = Some x0 /\
    (speaker b = None <-> ex_speaker x0 = None) /\
    (cwt_padded b = None <-> ex_cwt_acc x0 = None) /\
    (forall s i id x,
        speaker b = Some s ->
        ids_sorted_decreasing Fixtures.batch_ds !! i = Some id ->
        Fixtures.batch_ds !! id = Some x ->
        exists z, ex_speaker x = Some z /\ s !! i = Some z).
Proof.
  do 2 eexists.
  match goal with
  | |- __call__ ?batch = OK ?x /\ _ =>
      assert (Hrun : __call__ batch = OK x) by (vm_compute; reflexivity)
  end.
  split; [exact Hrun|]. split; [reflexivity|].
  exact (collate_first_example_decides _ _ _ Hrun eq_refl).
Defined.

(** X20: for examples whose pitch is two-dimensional with one row per
    formant and, like the energy, one value per frame of the
    mel-spectrogram, block [i] of [pitch_padded] is the pitch of the example
    at the sorted position [i] and row [i] of [energy_padded] is its energy,
    each row followed by zeros up to the largest frame count of the
    batch. *)
Theorem collate_pitch_energy_padded (formants : nat) (batch : list Example)
    (b : Batch) (i id : nat) (x : Example) (rows : list (list Q)) :
  Forall (fun x => exists rows,
                     ex_pitch x = Pitch2 rows /\
                     length rows = formants /\
                     Tensor.rectangular rows /\
                     Tensor.size1 rows = Tensor.size1 (ex_mel x) /\
                     length (ex_energy x) = Tensor.size1 (ex_mel x)) batch ->
  __call__ batch = OK b ->
  ids_sorted_decreasing batch !! i = Some id ->
  batch !! id = Some x ->
  ex_pitch x = Pitch2 rows ->
  let pad := (list_max (map (fun x => Tensor.size1 (ex_mel x)) batch)
              - Tensor.size1 (ex_mel x))%nat in
  pitch_padded b !! i
  = Some (map (fun row => row ++ repeat 0%Q pad) rows) /\
  energy_padded b !! i = Some (ex_energy x ++ repeat 0%Q pad).
Proof.
  intros Hwf H Hid Hx Hrows pad. subst pad.
  apply collate_inv_rest in H
    as (vals & ids & L & x0 & n_formants & pitch_rows & ds0 & sizes & ds_rows
        & Hsort & _ & Hx0 & Hnf & _ & Hfill & Hpp & Hep & _).
  unfold ids_sorted_decreasing in Hid. rewrite Hsort in Hid. simpl in Hid.
  destruct (in_batch _ _ _ _ Hwf Hx0) as (rows0 & Hp0 & Hf0 & _).
  destruct (in_batch _ _ _ _ Hwf Hx) as (rows' & Hp & Hf & Hrect & Hframes & Hen).
  rewrite Hrows in Hp. injection Hp as <-.
  rewrite Hp0 in Hnf. injection Hnf as <-.
  destruct (fill_rows_row _ _ _ _ _ _ _ _ Hfill Hid Hx)
    as ([pblock erow] & r & Hr0 & Hupd & Hr).
  unfold Tensor.zeros3 in Hr0. unfold Tensor.zeros2 in Hr0 at 2.
  rewrite zip_repeat in Hr0. apply lookup_repeat in Hr0.
  injection Hr0 as -> ->.
  assert (Hle : (Tensor.size1 (ex_mel x)
                 <= list_max (map (fun x => Tensor.size1 (ex_mel x)) batch))%nat).
  { eapply list_max_ge. rewrite lookup_map, Hx. reflexivity. }
  cbv zeta in Hupd. rewrite Hrows in Hupd. simpl in Hupd.
  rewrite Hf0, <- Hf in Hupd.
  rewrite assign_block_zeros in Hupd by (rewrite ?Hframes; assumption).
  simpl in Hupd.
  rewrite assign_prefix_zeros in Hupd by (rewrite Hen; exact Hle).
  injection Hupd as <-.
  rewrite Hpp, Hep, !lookup_map, Hr. simpl. rewrite Hframes, Hen. auto.
Qed.

Lemma batch_ds_pitch_wf :
  Forall (fun x => exists rows,
                     ex_pitch x = Pitch2 rows /\
                     length rows = 1%nat /\
                     Tensor.rectangular rows /\
                     Tensor.size1 rows = Tensor.size1 (ex_mel x) /\
                     length (ex_energy x) = Tensor.size1 (ex_mel x))
    Fixtures.batch_ds.
Proof.
  repeat (constructor;
          [eexists; split; [reflexivity|]; repeat constructor|]).
  constructor.
Qed.

Lemma collate_pitch_energy_padded_witness :
  exists b id x rows,
    __call__ Fixtures.batch_ds = OK b /\
    ids_sorted_decreasing Fixtures.batch_ds !! 1%nat = Some id /\
    Fixtures.batch_ds !! id = Some x /\
    ex_pitch x = Pitch2 rows /\
    let pad := (list_max (map (fun x => Tensor.size1 (ex_mel x)) Fixtures.batch_ds)
                - Tensor.size1 (ex_mel x))%nat in
    pitch_padded b !! 1%nat
    = Some (map (fun row => row ++ repeat 0%Q pad) rows) /\
    energy_padded b !! 1%nat = Some (ex_energy x ++ repeat 0%Q pad).
Proof.
  do 4 eexists.
  match goal with
  | |- __call__ ?batch = OK ?x /\ _ =>
      assert (Hrun : __call__ batch = OK x) by (vm_compute; reflexivity)
  end.
  split; [exact Hrun|]. split; [reflexivity|]. split; [reflexivity|].
  split; [reflexivity|].
  exact (collate_pitch_energy_padded 1 _ _ 1 _ _ _ batch_ds_pitch_wf Hrun
           eq_refl eq_refl eq_refl).
Defined.

Lemma size1_map_map {A B : Type} (f : A -> B) (t : list (list A)) :
  Tensor.size1 (map (map f) t) = Tensor.size1 t.
Proof. destruct t as [|row t]; simpl; [reflexivity | apply length_map]. Qed.

Lemma rectangular_map_map {A B : Type} (f : A -> B) (t : list (list A)) :
  Tensor.rectangular t -> Tensor.rectangular (map (map f) t).
Proof.
  unfold Tensor.rectangular. rewrite size1_map_map.
  generalize (Tensor.size1 t). intros n H.
  induction H as [|row t' Hrow _ IH]; simpl; constructor;
    [rewrite length_map; exact Hrow | exact IH].
Qed.

(** X21: for examples whose prior has one row per frame of the
    mel-spectrogram and one column per token of the text, block [i] of
    [attn_prior_padded] is the prior of the example at the sorted position
    [i], its entries converted to float32, in its upper left corner and
    zero elsewhere: every row is followed by zeros up to the longest text,
    and rows of zeros follow up to the largest frame count. *)
Theorem collate_prior_padded (batch : list Example) (b : Batch)
    (i id : nat) (x : Example) :
  Forall (fun x => length (ex_attn_prior x) = Tensor.size1 (ex_mel x) /\
                   Forall (fun row => length row = length (ex_text x))
                     (ex_attn_prior x)) batch ->
  __call__ batch = OK b ->
  ids_sorted_decreasing batch !! i = Some id ->
  batch !! id = Some x ->
  let frames_max := list_max (map (fun x => Tensor.size1 (ex_mel x)) batch) in
  let tokens_max := list_max (map (fun x => length (ex_text x)) batch) in
  attn_prior_padded b !! i
  = Some (map (fun row => map Float32.cast row
                          ++ repeat 0%Q (tokens_max - length (ex_text x)))
            (ex_attn_prior x)
          ++ repeat (repeat 0%Q tokens_max)
               (frames_max - Tensor.size1 (ex_mel x))).
Proof.
  intros Hwf H Hid Hx frames_max tokens_max. subst frames_max tokens_max.
  apply collate_inv_rest in H
    as (vals & ids & L & x0 & n_formants & pitch_rows & ds0 & sizes & ds_rows
        & Hsort & HL & _ & _ & _ & _ & _ & _ & _ & Hfill & _).
  unfold ids_sorted_decreasing in Hid. rewrite Hsort in Hid. simpl in Hid.
  pose proof (sorted_head_is_max _ _ _ _ Hsort HL) as HLmax.
  destruct (in_batch _ _ _ _ Hwf Hx) as (Hrows & Hcols).
  destruct (fill_rows_row _ _ _ _ _ _ _ _ Hfill Hid Hx)
    as (r0 & r & Hr0 & Hupd & Hr).
  apply lookup_repeat in Hr0. subst r0.
  assert (Hrect : Tensor.rectangular (ex_attn_prior x)).
  { unfold Tensor.rectangular. destruct (ex_attn_prior x) as [|row0 rest];
      [constructor|].
    simpl. inversion Hcols as [|? ? H0 _]; subst.
    rewrite H0. exact Hcols. }
  assert (Hw : ex_attn_prior x = [] \/
               Tensor.size1 (ex_attn_prior x) = length (ex_text x)).
  { destruct (ex_attn_prior x) as [|row0 rest]; [left; reflexivity|].
    right. simpl. inversion Hcols; assumption. }
  assert (Hle : (Tensor.size1 (ex_mel x)
                 <= list_max (map (fun x => Tensor.size1 (ex_mel x)) batch))%nat).
  { eapply list_max_ge. rewrite lookup_map, Hx. reflexivity. }
  assert (Hlt : (length (ex_text x) <= L)%nat).
  { rewrite HLmax. eapply list_max_ge. rewrite lookup_map, Hx. reflexivity. }
  cbv zeta in Hupd.
  set (prior := map (map Float32.cast) (ex_attn_prior x)) in Hupd.
  assert (Hs0 : Tensor.size0 (ex_attn_prior x) = Tensor.size0 prior)
    by (unfold prior, Tensor.size0; rewrite length_map; reflexivity).
  assert (Hs1 : Tensor.size1 (ex_attn_prior x) = Tensor.size1 prior)
    by (unfold prior; rewrite size1_map_map; reflexivity).
  rewrite Hs0, Hs1 in Hupd.
  rewrite assign_corner_zeros in Hupd.
  - injection Hupd as <-. rewrite Hr, <- Hs1. unfold prior.
    rewrite length_map, map_map, Hrows, <- HLmax.
    destruct Hw as [-> | ->]; reflexivity.
  - apply rectangular_map_map. exact Hrect.
  - unfold prior. rewrite length_map, Hrows. exact Hle.
  - rewrite <- Hs1. destruct Hw as [-> | ->]; [simpl; lia | exact Hlt].
Qed.

Lemma batch_ds_prior_wf :
  Forall (fun x => length (ex_attn_prior x) = Tensor.size1 (ex_mel x) /\
                   Forall (fun row => length row = length (ex_text x))
                     (ex_attn_prior x)) Fixtures.batch_ds.
Proof.
  repeat constructor.
Qed.

Lemma collate_prior_padded_witness :
  exists b id x,
    __call__ Fixtures.batch_ds = OK b /\
    ids_sorted_decreasing Fixtures.batch_ds !! 1%nat = Some id /\
    Fixtures.batch_ds !! id = Some x /\
    let frames_max :=
      list_max (map (fun x => Tensor.size1 (ex_mel x)) Fixtures.batch_ds) in
    let tokens_max :=
      list_max (map (fun x => length (ex_text x)) Fixtures.batch_ds) in
    attn_prior_padded b !! 1%nat
    = Some (map (fun row => map Float32.cast row
                            ++ repeat 0%Q (tokens_max - length (ex_text x)))
              (ex_attn_prior x)
            ++ repeat (repeat 0%Q tokens_max)
                 (frames_max - Tensor.size1 (ex_mel x))).
Proof.
  do 3 eexists.
  match goal with
  | |- __call__ ?batch = OK ?x /\ _ =>
      assert (Hrun : __call__ batch = OK x) by (vm_compute; reflexivity)
  end.
  split; [exact Hrun|]. split; [reflexivity|]. split; [reflexivity|].
  exact (collate_prior_padded _ _ 1 _ _ batch_ds_prior_wf Hrun eq_refl eq_refl).
Defined.

Lemma mapM_ds_sizes (batch : list Example) (sizes : list nat) :
  mapM (fun x => ds ← not_none (ex_ds_mel x); OK (Tensor.size1 ds)) batch
    = OK sizes ->
  sizes = map ds_frames batch.
Proof.
  intros H. apply mapM_ok in H.
  induction H as [|x n batch' sizes' Hx _ IH]; [reflexivity|].
  simpl. rewrite IH. f_equal. unfold ds_frames.
  destruct (ex_ds_mel x); [injection Hx as <-; reflexivity | discriminate Hx].
Qed.




(** *** A batch that fits is collated *)

Lemma bind_total {A B : Type} (r : result A) (k : A -> result B) :
  (exists a, r = OK a) ->
  (forall a, r = OK a -> exists b, k a = OK b) ->
  exists b, r ≫= k = OK b.
Proof. intros [a ->] Hk. exact (Hk a eq_refl). Qed.

Lemma mapM_total {A B : Type} (f : A -> result B) (l : list A) :
  Forall (fun a => exists b, f a = OK b) l -> exists r, mapM f l = OK r.
Proof.
  induction 1 as [|a l [b Hb] _ [r Hr]]; simpl.
  - eexists. reflexivity.
  - rewrite Hb. simpl. rewrite Hr. simpl. eexists. reflexivity.
Qed.

Lemma lookup_repeat_lt {A : Type} (z : A) (n i : nat) :
  (i < n)%nat -> repeat z n !! i = Some z.
Proof.
  revert i. induction n as [|n IH]; intros [|i] Hi; simpl;
    [lia | lia | reflexivity | apply IH; lia].
Qed.

Lemma for_range_from_total {R : Type} (batch : list Example) (ids : list nat)
    (upd : Example -> R -> result R) (r0 : R) (n k : nat) :
  (length ids <= n)%nat ->
  (forall i id, ids !! i = Some id ->
                exists x r, batch !! id = Some x /\ upd x r0 = OK r) ->
  forall start t,
    (start + k = length ids)%nat ->
    length t = n ->
    (forall i, (start <= i < n)%nat -> t !! i = Some r0) ->
    exists t', Tensor.for_range_from start k (fill_rows_body batch ids upd) t = OK t'.
Proof.
  intros Hn Hupd. induction k as [|k IH]; intros start t Hk Hlen Hrest.
  - eexists. reflexivity.
  - destruct (lookup_lt_is_Some_2 ids start ltac:(lia)) as [id Hid].
    destruct (Hupd start id Hid) as (x & r & Hx & Hr).
    assert (Hbody : fill_rows_body batch ids upd start t = OK (<[start := r]> t)).
    { unfold fill_rows_body.
      rewrite (proj2 (get_ok ids start id) Hid). simpl.
      rewrite (proj2 (get_ok batch id x) Hx). simpl.
      rewrite (proj2 (get_ok t start r0) (Hrest start ltac:(lia))). simpl.
      rewrite Hr. simpl.
      unfold Tensor.set_row.
      destruct (Nat.ltb_spec start (length t)) as [_|Hge]; [reflexivity | lia]. }
    cbn [Tensor.for_range_from]. rewrite Hbody. simpl.
    apply IH; [lia | rewrite length_insert; exact Hlen |].
    intros i Hi. rewrite list_lookup_insert_ne by lia. apply Hrest. lia.
Qed.

(** The loop over the sorted positions returns when the rows of zeros are
    as many as the positions and every update of a row of zeros returns. *)
Lemma fill_rows_total {R : Type} (batch : list Example) (ids : list nat)
    (upd : Example -> R -> result R) (r0 : R) (n : nat) :
  (length ids <= n)%nat ->
  (forall i id, ids !! i = Some id ->
                exists x r, batch !! id = Some x /\ upd x r0 = OK r) ->
  exists t, fill_rows batch ids upd (repeat r0 n) = OK t.
Proof.
  intros Hn Hupd. unfold fill_rows, Tensor.for_range.
  apply (for_range_from_total batch ids upd r0 n); auto.
  - apply repeat_length.
  - intros i Hi. apply lookup_repeat_lt. lia.
Qed.

(** X23: the collator returns a batch for every non-empty list of examples
    that fit together as the loader makes them: one mel channel count, a
    two-dimensional pitch of one positive number of rows, pitch and energy
    over the frames of the mel, the length of the text as third field, a
    prior of frames by (at most) tokens, a downsampled mel of one channel
    count in every example, speakers and word labels in all examples or not
    in the first, and every speaker within the range of int64. *)
Theorem collate_returns_for_ready_batch (batch : list Example) :
  batch_ready batch -> exists b, __call__ batch = OK b.
Proof.
  intros (Hne & (channels & formants & dsc & Hform & Hready) & Hspk & Hcwt).
  destruct batch as [|x0 rest]; [congruence|].
  unfold first_decides in Hspk, Hcwt.
  remember (x0 :: rest) as batch eqn:Eb.
  assert (Hx0 : batch !! 0%nat = Some x0) by (rewrite Eb; reflexivity).
  assert (Hpos : (0 < length batch)%nat) by (rewrite Eb; simpl; lia).
  clear Hne Eb rest.
  unfold __call__.
  destruct (torch_sort_descending _) as [vals ids] eqn:Hsort.
  pose proof (torch_sort_descending_spec _ _ _ Hsort)
    as (Hperm & Hsorted & Hpids & Hlv & Hli & Hkey).
  rewrite length_map in Hpids, Hlv, Hli.
  destruct (lookup_lt_is_Some_2 vals 0%nat ltac:(lia)) as [L HL].
  pose proof (sorted_head_is_max _ _ _ _ Hsort HL) as HLmax.
  assert (Hin : forall id, In id ids -> exists x, batch !! id = Some x).
  { intros id Hid. apply (Permutation_in _ Hpids), in_seq in Hid.
    apply lookup_lt_is_Some_2. lia. }
  assert (Hids : forall i id, ids !! i = Some id -> exists x, batch !! id = Some x).
  { intros i id Hid. apply Hin, list_elem_of_In.
    eapply list_elem_of_lookup_2, Hid. }
  assert (Htok : forall id x, batch !! id = Some x -> (length (ex_text x) <= L)%nat).
  { intros id x Hx. rewrite HLmax. eapply list_max_ge.
    rewrite lookup_map, Hx. reflexivity. }
  assert (Hfr : forall id x, batch !! id = Some x ->
            (Tensor.size1 (ex_mel x)
             <= list_max (map (fun x => Tensor.size1 (ex_mel x)) batch))%nat).
  { intros id x Hx. eapply list_max_ge. rewrite lookup_map, Hx. reflexivity. }
  destruct (in_batch _ _ _ _ Hready Hx0)
    as ((Hc0 & _) & (rows0 & Hp0 & Hf0 & _) & _ & _ & _ & _ & _ & _
        & (ds0 & Hds0 & Hdc0 & _) & _).
  (* max_input_len *)
  apply bind_total; [exists L; apply get_ok, HL|].
  intros L' HL'. apply get_ok in HL'. rewrite HL in HL'. injection HL' as <-.
  (* text_padded *)
  apply bind_total.
  { apply (fill_rows_total batch ids _ (repeat 0 L) (length batch)); [lia|].
    intros i id Hid. destruct (Hids i id Hid) as [x Hx].
    exists x. eexists. split; [exact Hx|].
    apply assign_prefix_zeros. eapply Htok, Hx. }
  intros text_padded _.
  (* batch[0] *)
  apply bind_total; [exists x0; apply get_ok, Hx0|].
  intros x0' Hx0'. apply get_ok in Hx0'. rewrite Hx0 in Hx0'. injection Hx0' as <-.
  (* mel_padded *)
  apply bind_total.
  { unfold Tensor.zeros3, Tensor.zeros1. rewrite zip_repeat.
    apply fill_rows_total; [lia|].
    intros i id Hid. destruct (Hids i id Hid) as [x Hx].
    destruct (in_batch _ _ _ _ Hready Hx) as ((Hc & Hrect) & _).
    exists x. eexists. split; [exact Hx|]. cbv zeta.
    replace (Tensor.size0 (ex_mel x0)) with (length (ex_mel x))
      by (unfold Tensor.size0; congruence).
    rewrite assign_block_zeros by (eauto using Hfr). reflexivity. }
  intros mel_rows _.
  (* n_formants *)
  rewrite Hp0. cbn [pitch_dim pitch_shape Tensor.get lookup list_lookup].
  cbn [mbind result_bind].
  apply bind_total.
  { destruct (Nat.eqb_spec (length rows0) 0) as [E|_];
      [lia | eexists; reflexivity]. }
  intros _ _.
  (* pitch_padded and energy_padded *)
  apply bind_total.
  { unfold Tensor.zeros3. unfold Tensor.zeros2 at 2. rewrite zip_repeat.
    apply fill_rows_total; [lia|].
    intros i id Hid. destruct (Hids i id Hid) as [x Hx].
    destruct (in_batch _ _ _ _ Hready Hx)
      as (_ & (rows & Hp & Hf & Hrect & Hframes) & Hen & _).
    exists x. eexists. split; [exact Hx|]. cbv zeta.
    rewrite Hp. simpl.
    replace (length rows0) with (length rows) by congruence.
    rewrite assign_block_zeros by (rewrite ?Hframes; eauto using Hfr). simpl.
    rewrite assign_prefix_zeros by (rewrite Hen; eauto using Hfr).
    reflexivity. }
  intros pitch_rows _.
  (* speaker *)
  apply bind_total.
  { destruct (ex_speaker x0) as [z0|] eqn:Es0; [|eexists; reflexivity].
    destruct Hspk as [Hnone | Hall]; [discriminate Hnone|].
    apply bind_total; [|intros; eexists; reflexivity].
    apply fill_rows_total; [lia|].
    intros i id Hid. destruct (Hids i id Hid) as [x Hx].
    destruct (in_batch _ _ _ _ Hall Hx) as [z Hz].
    destruct (in_batch _ _ _ _ Hready Hx) as (_ & _ & _ & _ & Hrange & _).
    exists x, z. split; [exact Hx|]. rewrite Hz. unfold Int64.cast.
    destruct (Hrange z Hz) as [Hlo Hhi].
    apply Z.leb_le in Hlo. apply Z.ltb_lt in Hhi. rewrite Hlo, Hhi.
    reflexivity. }
  intros speaker _.
  (* attn_prior_padded *)
  apply bind_total.
  { apply (fill_rows_total batch ids _ _ (length batch)); [lia|].
    intros i id Hid. destruct (Hids i id Hid) as [x Hx].
    destruct (in_batch _ _ _ _ Hready Hx)
      as (_ & _ & _ & _ & _ & Hrect & Hrows & Hcols & _).
    exists x. eexists. split; [exact Hx|]. cbv zeta.
    replace (Tensor.size0 (ex_attn_prior x))
      with (Tensor.size0 (map (map Float32.cast) (ex_attn_prior x)))
      by (unfold Tensor.size0; apply length_map).
    rewrite <- (size1_map_map Float32.cast (ex_attn_prior x)).
    apply assign_corner_zeros.
    - apply rectangular_map_map, Hrect.
    - rewrite length_map, Hrows. eauto using Hfr.
    - rewrite size1_map_map. pose proof (Htok id x Hx). lia. }
  intros attn_prior_padded _.
  (* audiopaths *)
  apply bind_total.
  { apply mapM_total. rewrite List.Forall_forall. intros id Hid.
    destruct (Hin id Hid) as [x Hx].
    rewrite (proj2 (get_ok batch id x) Hx). eexists. reflexivity. }
  intros audiopaths _.
  (* cwt_padded *)
  apply bind_total.
  { destruct (ex_cwt_acc x0) as [c0|] eqn:Ec0; [|eexists; reflexivity].
    destruct Hcwt as [Hnone | Hall]; [discriminate Hnone|].
    apply bind_total; [|intros; eexists; reflexivity].
    apply (fill_rows_total batch ids _ (repeat 0 L) (length batch)); [lia|].
    intros i id Hid. destruct (Hids i id Hid) as [x Hx].
    destruct (in_batch _ _ _ _ Hall Hx) as [cwt Hc].
    destruct (in_batch _ _ _ _ Hready Hx)
      as (_ & _ & _ & _ & _ & _ & _ & _ & _ & Hlen).
    exists x. eexists. split; [exact Hx|]. rewrite Hc. simpl.
    apply assign_prefix_zeros.
    pose proof (Hlen cwt Hc). pose proof (Htok id x Hx). lia. }
  intros cwt_padded _.
  (* ds_mel_padded and output_lengths_ds *)
  rewrite Hds0.
  assert (Hsizes : exists sizes,
             mapM (fun x => ds ← not_none (ex_ds_mel x); OK (Tensor.size1 ds)) batch
             = OK sizes).
  { apply mapM_total. rewrite List.Forall_forall. intros x Hx.
    apply list_elem_of_In, list_elem_of_lookup_1 in Hx as [j Hx].
    destruct (in_batch _ _ _ _ Hready Hx)
      as (_ & _ & _ & _ & _ & _ & _ & _ & (ds & Hds & _) & _).
    rewrite Hds. eexists. reflexivity. }
  destruct Hsizes as [sizes Hsizes]. rewrite Hsizes. simpl.
  apply mapM_ds_sizes in Hsizes. subst sizes.
  assert (Hrows : exists ds_rows,
             fill_rows batch ids
               (fun x '(block, _) =>
                  ds_mel ← not_none (ex_ds_mel x);
                  block' ← Tensor.assign_block block (Tensor.size0 block)
                             (Tensor.size1 ds_mel) ds_mel;
                  OK (block', Tensor.size1 ds_mel))
               (zip (Tensor.zeros3 0%Q (length batch) (Tensor.size0 ds0)
                       (list_max (map ds_frames batch)))
                    (Tensor.zeros1 0%nat (length batch))) = OK ds_rows).
  { unfold Tensor.zeros3, Tensor.zeros1. rewrite zip_repeat.
    apply fill_rows_total; [lia|].
    intros i id Hid. destruct (Hids i id Hid) as [x Hx].
    destruct (in_batch _ _ _ _ Hready Hx)
      as (_ & _ & _ & _ & _ & _ & _ & _ & (ds & Hds & Hdc & Hrect) & _).
    exists x. eexists. split; [exact Hx|]. rewrite Hds. simpl.
    replace (Tensor.size0 ds0) with (length ds)
      by (unfold Tensor.size0; congruence).
    rewrite assign_block_zeros; [reflexivity | exact Hrect |].
    eapply list_max_ge. rewrite lookup_map, Hx. simpl. unfold ds_frames.
    rewrite Hds. reflexivity. }
  destruct Hrows as [ds_rows Hrows]. rewrite Hrows. simpl.
  eexists. reflexivity.
Qed.

Lemma batch_ds_ready : batch_ready Fixtures.batch_ds.
Proof.
  split; [discriminate|]. split; [|split; left; reflexivity].
  exists 2%nat, 1%nat, 1%nat. split; [lia|].
  repeat (constructor;
          [unfold example_ready, Wf.mel_wf; simpl;
           split; [split; [reflexivity | repeat constructor]|];
           split; [eexists; split; [reflexivity|]; split; [reflexivity|];
                   split; [repeat constructor | reflexivity]|];
           split; [reflexivity|];
           split; [reflexivity|];
           split; [intros z Hz; discriminate Hz|];
           split; [repeat constructor|];
           split; [reflexivity|];
           split; [lia|];
           split; [eexists; split; [reflexivity|]; split; [reflexivity|];
                   repeat constructor|];
           intros cwt Hc; discriminate Hc|]).
  constructor.
Qed.

Lemma collate_returns_for_ready_batch_witness :
  exists b, __call__ Fixtures.batch_ds = OK b.
Proof.
  exact (collate_returns_for_ready_batch Fixtures.batch_ds batch_ds_ready).
Defined.

(** *** Channel counts *)

Lemma expand_ok_length {X : Type} (src r : list X) (n : nat) :
  Tensor.expand src n = OK r -> length src = n \/ length src = 1%nat.
Proof.
  unfold Tensor.expand. destruct (Nat.eqb_spec (length src) n) as [E|_].
  - intros _. left. exact E.
  - destruct src as [|x [|y src']]; intros H; try discriminate H.
    right. reflexivity.
Qed.

(** X24: the channel counts of the mel-spectrograms are checked against
    the first example: a batch is collated only if every mel has as many
    channels as the mel of [batch[0]], or one channel (which the
    assignment to the slice broadcasts over the channels). *)
Theorem collate_mel_channel_counts (batch : list Example) (b : Batch)
    (x0 : Example) :
  __call__ batch = OK b ->
  batch !! 0%nat = Some x0 ->
  Forall (fun x => length (ex_mel x) = length (ex_mel x0) \/
                   length (ex_mel x) = 1%nat) batch.
Proof.
  intros H Hx0.
  apply collate_inv in H
    as (vals & ids & L & x0' & mel_rows & ds0 & Hsort & _ & _ & _ & Hx0' & Hmel & _).
  rewrite Hx0 in Hx0'. injection Hx0' as <-.
  pose proof (torch_sort_descending_spec _ _ _ Hsort) as (_ & _ & Hpids & _).
  rewrite length_map in Hpids.
  rewrite List.Forall_forall. intros x Hx.
  apply list_elem_of_In, list_elem_of_lookup_1 in Hx as [id Hx].
  assert (Hid : In id ids).
  { apply (Permutation_in _ (Permutation_sym Hpids)), in_seq.
    apply lookup_lt_Some in Hx. lia. }
  apply list_elem_of_In, list_elem_of_lookup_1 in Hid as [i Hid].
  destruct (fill_rows_row _ _ _ _ _ _ _ _ Hmel Hid Hx)
    as ([block0 n0] & r & Hr0 & Hupd & _).
  unfold Tensor.zeros3, Tensor.zeros1 in Hr0. rewrite zip_repeat in Hr0.
  apply lookup_repeat in Hr0. injection Hr0 as -> ->.
  apply bind_ok in Hupd as (block' & Hblock & _).
  unfold Tensor.assign_block in Hblock.
  apply bind_ok in Hblock as (rows & Hexp & _).
  apply expand_ok_length in Hexp.
  unfold Tensor.size0, Tensor.zeros2 in Hexp.
  rewrite repeat_length, Nat.min_id in Hexp. exact Hexp.
Qed.

Lemma collate_mel_channel_counts_witness :
  exists b x0,
    __call__ Fixtures.batch_ds = OK b /\
    Fixtures.batch_ds !! 0%nat = Some x0 /\
    Forall (fun x => length (ex_mel x) = length (ex_mel x0) \/
                     length (ex_mel x) = 1%nat) Fixtures.batch_ds.
Proof.
  do 2 eexists.
  match goal with
  | |- __call__ ?batch = OK ?x /\ _ =>
      assert (Hrun : __call__ batch = OK x) by (vm_compute; reflexivity)
  end.
  split; [exact Hrun|]. split; [reflexivity|].
  exact (collate_mel_channel_counts _ _ _ Hrun eq_refl).
Defined.

End BatchFacts.
